(** * har-to-llm: the deduplication core of [HARConverter]

    A shallow embedding of [converter.ts] (class [HARConverter]) and of the
    parts of [types.ts] it reads, followed by the properties of the
    structural and the exact deduplicator, of the URL normaliser, of the JSON
    shape functions and of the summary.

    Conventions of the embedding:
    - a JavaScript [string] whose code units are all below 256 is a
      [string], one character for each code unit (ISO 8859-1); strings with
      other code units are outside the embedding; [toLowerCase] is the
      lower-casing of those characters and [sort()] compares code units;
    - [Record<string, string>] objects made by the code from [{}] are
      [gmap string string]: the own properties only. An assignment
      [o[key] = value] under the name [__proto__] reaches the setter that
      [Object.prototype] has for it and makes no property; a read [o[key]]
      of a name that is not an own property finds the members [o] inherits
      from [Object.prototype]. [Object.keys(m).sort()] is [merge_sort] over
      the keys of the map;
    - a parsed JSON value is the inductive [json]; an object keeps its own
      members in [Object.keys] order as an association list;
    - a JavaScript [number] that is only compared or printed is a [Z] (status
      codes); a duration, which is summed and divided, is a binary64
      [float] with the arithmetic of IEEE 754;
    - code that can raise is written in the error monad [exc], and
      [try { .. } catch { .. }] is [try_catch];
    - the builtins [JSON.parse], [JSON.stringify(_, null, 2)] and
      [new URL(_).hostname] are parameters of the sections that use them. *)

From Stdlib Require Import ZArith QArith List String Ascii Bool Lia.
From Stdlib Require Import Floats.PrimFloat.
From Stdlib Require Floats.SpecFloat Floats.FloatOps Numbers.Cyclic.Int63.Uint63.
From stdpp Require Import base option list sorting gmap strings pretty.
Import ListNotations.

#[local] Set Warnings "-clear-no-such-hyp".

Local Open Scope string_scope.
Local Open Scope list_scope.

(** ** Errors *)

Inductive error : Type :=
  | SyntaxError   (* JSON.parse on malformed text *)
  | TypeError.    (* Object.keys(null), new URL(malformed) *)

Inductive exc (A : Type) : Type :=
  | Ok (a : A)
  | Throw (e : error).
Arguments Ok {A} a.
Arguments Throw {A} e.

#[global] Instance exc_ret : MRet exc := fun _ a => Ok a.
#[global] Instance exc_bind : MBind exc := fun _ _ f m =>
  match m with
  | Ok a => f a
  | Throw e => Throw e
  end.

(** [try { body } catch { handler }] *)
Definition try_catch {A} (body : exc A) (handler : exc A) : exc A :=
  match body with
  | Ok a => Ok a
  | Throw _ => handler
  end.

Definition returns {A} (m : exc A) : Prop := exists a, m = Ok a.

(** ** JavaScript values used by the converter *)

(** [a === b] on [string | undefined] *)
Definition strict_eq (a b : option string) : bool := bool_decide (a = b).

(** [!s] on [string | undefined]: [undefined] and the empty string are falsy *)
Definition falsy (s : option string) : bool :=
  match s with
  | None => true
  | Some s => bool_decide (s = "")
  end.

(** [s.includes(sub)] *)
Definition includes (sub s : string) : bool :=
  match String.index 0 sub s with
  | Some _ => true
  | None => false
  end.

(** The lower-case form of a character: [A]-[Z] and the capital letters
    U+00C0-U+00DE (all but the multiplication sign U+00D7) have theirs 32
    places on; every other character below 256 is its own. *)
Definition lower_ascii (c : ascii) : ascii :=
  let n := nat_of_ascii c in
  if ((65 <=? n)%nat && (n <=? 90)%nat)
     || ((192 <=? n)%nat && (n <=? 222)%nat && negb (n =? 215)%nat)
  then ascii_of_nat (n + 32) else c.

(** [s.toLowerCase()] *)
Fixpoint toLowerCase (s : string) : string :=
  match s with
  | EmptyString => EmptyString
  | String c s' => String (lower_ascii c) (toLowerCase s')
  end.

(** [xs.join(sep)] *)
Fixpoint join (sep : string) (xs : list string) : string :=
  match xs with
  | [] => ""
  | [x] => x
  | x :: rest => x ++ sep ++ join sep rest
  end.

(** [xs.sort()] on an array of strings *)
Definition sort_strings (xs : list string) : list string :=
  merge_sort String.le xs.

(** [Object.keys(m).sort()] on a [Record<string, string>] *)
Definition sorted_keys (m : gmap string string) : list string :=
  sort_strings (map fst (map_to_list m)).

(** The loop [for (i = 0; i < keys1.length; i++) if (keys1[i] !== keys2[i])
    return false], run once both arrays have the same length. *)
Fixpoint keys_agree (keys1 keys2 : list string) : bool :=
  match keys1, keys2 with
  | k1 :: r1, k2 :: r2 => if bool_decide (k1 = k2) then keys_agree r1 r2 else false
  | _, _ => true
  end.

(** [o[key] = value] for a [value] that is a string or a number, on an
    object made from [{}]: the name [__proto__] is the accessor of
    [Object.prototype], whose setter ignores a value that is no object, so
    no property is made. *)
Definition assign {A} (key : string) (value : A) (o : gmap string A) : gmap string A :=
  if bool_decide (key = "__proto__") then o else <[key := value]> o.

(** ** JSON values *)

#[local] Unset Elimination Schemes.
Inductive json : Type :=
  | JNull
  | JBool (b : bool)
  | JNum (n : Q)
  | JStr (s : string)
  | JArr (items : list json)
  | JObj (members : list (string * json)).
#[local] Set Elimination Schemes.

Section json_induction.
Variable P : json -> Prop.
Hypothesis Hnull : P JNull.
Hypothesis Hbool : forall b, P (JBool b).
Hypothesis Hnum : forall n, P (JNum n).
Hypothesis Hstr : forall s, P (JStr s).
Hypothesis Harr : forall items, Forall P items -> P (JArr items).
Hypothesis Hobj : forall members, Forall (fun kv => P (snd kv)) members -> P (JObj members).

Fixpoint json_nested_ind (j : json) : P j :=
  match j with
  | JNull => Hnull
  | JBool b => Hbool b
  | JNum n => Hnum n
  | JStr s => Hstr s
  | JArr items =>
      Harr items
        ((fix go (l : list json) : Forall P l :=
            match l with
            | [] => @List.Forall_nil _ P
            | x :: l' => @List.Forall_cons _ P x l' (json_nested_ind x) (go l')
            end) items)
  | JObj members =>
      Hobj members
        ((fix go (l : list (string * json)) : Forall (fun kv => P (snd kv)) l :=
            match l with
            | [] => @List.Forall_nil _ _
            | kv :: l' => @List.Forall_cons _ _ kv l' (json_nested_ind (snd kv)) (go l')
            end) members)
  end.
End json_induction.

(** [typeof v] for a parsed JSON value *)
Definition typeof (v : json) : string :=
  match v with
  | JNull => "object"
  | JBool _ => "boolean"
  | JNum _ => "number"
  | JStr _ => "string"
  | JArr _ => "object"
  | JObj _ => "object"
  end.

(** [Array.isArray(v)] *)
Definition isArray (v : json) : bool :=
  match v with
  | JArr _ => true
  | _ => false
  end.

(** [Object.keys(o)] of an object's member list *)
Definition member_names (members : list (string * json)) : list string :=
  map fst members.

(** [o[key]]; [None] is [undefined] *)
Fixpoint prop (key : string) (members : list (string * json)) : option json :=
  match members with
  | [] => None
  | (k, v) :: rest => if bool_decide (k = key) then Some v else prop key rest
  end.

(** [normalized[key] = value] for a name other than [__proto__] *)
Fixpoint set_prop (key : string) (value : json) (members : list (string * json))
  : list (string * json) :=
  match members with
  | [] => [(key, value)]
  | (k, v) :: rest =>
      if bool_decide (k = key) then (k, value) :: rest
      else (k, v) :: set_prop key value rest
  end.

(** ** JSON shape functions of [HARConverter] *)

(** [areJsonStructuresSimilar(obj1, obj2)]. [Object.keys(obj2)] raises a
    [TypeError] when [obj2] is [null]; nothing in the function catches it.
    Behind the two tests on [typeof] and [Array.isArray], an array [obj1]
    faces an array and a non-null object [obj1] faces an object or [null];
    the other branches on [obj2] are never taken. The two reads [obj1[key]]
    and [obj2[key]] cannot give [undefined] at the point where they are
    made: [key] is one of [obj1]'s own keys and the two sorted key arrays
    have just been found equal. *)
Fixpoint areJsonStructuresSimilar (obj1 obj2 : json) {struct obj1} : exc bool :=
  if negb (bool_decide (typeof obj1 = typeof obj2)) then Ok false
  else if negb (bool_decide (isArray obj1 = isArray obj2)) then Ok false
  else
    match obj1 with
    | JArr items1 =>
        match obj2 with
        | JArr items2 =>
            match items1, items2 with
            | [], [] => Ok true
            | [], _ :: _ => Ok false
            | _ :: _, [] => Ok false
            | firstElement1 :: _, firstElement2 :: _ =>
                areJsonStructuresSimilar firstElement1 firstElement2
            end
        | _ => Ok false
        end
    | JObj members1 =>
        match obj2 with
        | JObj members2 =>
            let keys1 := sort_strings (member_names members1) in
            let keys2 := sort_strings (member_names members2) in
            if negb (bool_decide (length keys1 = length keys2)) then Ok false
            else if negb (keys_agree keys1 keys2) then Ok false
            else
              (fix each_key (keys : list string) : exc bool :=
                 match keys with
                 | [] => Ok true
                 | key :: keys' =>
                     similar ←
                       (fix read1 (ms : list (string * json)) : exc bool :=
                          match ms with
                          | [] => Ok false
                          | (k, v) :: ms' =>
                              if bool_decide (k = key) then
                                match prop key members2 with
                                | Some v2 => areJsonStructuresSimilar v v2
                                | None => Ok false
                                end
                              else read1 ms'
                          end) members1;
                     if similar : bool then each_key keys' else Ok false
                 end) keys1
        | JNull => Throw TypeError
        | _ => Ok false
        end
    | _ => Ok true
    end.

(** [getStructureKey(obj)] *)
Fixpoint getStructureKey (obj : json) : string :=
  match obj with
  | JArr [] => "[]"
  | JArr (first :: _) => "[" ++ getStructureKey first ++ "]"
  | JObj members => "{" ++ join "," (sort_strings (member_names members)) ++ "}"
  | _ => typeof obj
  end.

(** [normalizeJsonStructure(obj)]. The inner [each_element] is the loop over
    the elements of a non-empty array, [seenStructureKeys] its set of keys
    already met and its result what the loop pushes on [uniqueStructures];
    [each_entry] is the loop over [Object.entries(obj)]. There
    [normalized[key] = ..] under the name [__proto__] makes no member: the
    setter of [Object.prototype] replaces the prototype of [normalized] when
    the value is an object, an array or [null], and does nothing otherwise.
    The prototype of a value is not part of [json]: [Object.keys],
    [Object.entries], [Array.isArray], [typeof], [JSON.stringify] and a read
    of an own member do not depend on it, and the converter reads a value in
    no other way. *)
Fixpoint normalizeJsonStructure (obj : json) : json :=
  match obj with
  | JArr [] => obj
  | JArr items =>
      JArr ((fix each_element (elements : list json) (seenStructureKeys : gset string)
               : list json :=
               match elements with
               | [] => []
               | element :: rest =>
                   let normalizedElement := normalizeJsonStructure element in
                   let structureKey := getStructureKey normalizedElement in
                   if bool_decide (structureKey ∈ seenStructureKeys)
                   then each_element rest seenStructureKeys
                   else normalizedElement
                          :: each_element rest ({[structureKey]} ∪ seenStructureKeys)
               end) items ∅)
  | JObj members =>
      JObj ((fix each_entry (entries : list (string * json))
               (normalized : list (string * json)) : list (string * json) :=
               match entries with
               | [] => normalized
               | (key, value) :: entries' =>
                   let normalizedValue := normalizeJsonStructure value in
                   if bool_decide (key = "__proto__") then each_entry entries' normalized
                   else each_entry entries' (set_prop key normalizedValue normalized)
               end) members [])
  | _ => obj
  end.

(** ** The records of [types.ts]

    Only the fields the converter reads are kept; [httpVersion], [cookies],
    the sizes, [cache], [timings] and the optional trailing fields of
    [HAREntry] are never read by [HARConverter]. A field name that two
    records share carries the record's name as a prefix in all but one of
    them ([postData_text], [response_headers], [llm_url], [sig_url], ...). *)

Record NameValue : Type := { name : string; value : string }.

Record PostData : Type := { postData_mimeType : string; postData_text : string }.

Record HARRequest : Type := {
  method : string;
  url : string;
  headers : list NameValue;
  queryString : list NameValue;
  postData : option PostData
}.

Record HARContent : Type := { mimeType : string; text : option string }.

Record HARResponse : Type := {
  status : Z;
  statusText : string;
  response_headers : list NameValue;
  content : HARContent
}.

Record HAREntry : Type := {
  startedDateTime : string;
  time : PrimFloat.float;
  request : HARRequest;
  response : HARResponse
}.

Record LLMRequest : Type := {
  llm_method : string;
  llm_url : string;
  llm_headers : gmap string string;
  llm_queryParams : gmap string string;
  llm_body : option string;
  llm_contentType : option string
}.

Record LLMResponse : Type := {
  llm_status : Z;
  llm_statusText : string;
  llm_response_headers : gmap string string;
  llm_response_body : option string;
  llm_response_contentType : option string
}.

Record LLMConversation : Type := {
  conv_request : LLMRequest;
  conv_response : LLMResponse;
  conv_timestamp : string;
  conv_duration : PrimFloat.float
}.

Record RequestSignature : Type := {
  sig_method : string;
  sig_url : string;
  sig_headers : gmap string string;
  sig_queryParams : gmap string string;
  sig_body : option string
}.

(** ** Header tables *)

Definition uselessHeaders : list string :=
  [ "user-agent"; "accept"; "accept-language"; "accept-encoding";
    "cache-control"; "pragma"; "upgrade-insecure-requests";
    "sec-fetch-dest"; "sec-fetch-mode"; "sec-fetch-site"; "sec-fetch-user";
    "sec-ch-ua"; "sec-ch-ua-mobile"; "sec-ch-ua-platform";
    "connection"; "keep-alive"; "transfer-encoding"; "content-encoding";
    "content-length"; "date"; "server"; "via"; "x-powered-by";
    "x-aspnet-version"; "x-aspnetmvc-version";
    "etag"; "last-modified"; "if-modified-since"; "if-none-match";
    "if-match"; "if-unmodified-since";
    "x-frame-options"; "x-content-type-options"; "x-xss-protection";
    "strict-transport-security"; "content-security-policy"; "referrer-policy";
    "x-forwarded-for"; "x-real-ip"; "x-forwarded-proto"; "x-forwarded-host";
    "x-forwarded-port"; "x-requested-with";
    "cf-ray"; "cf-cache-status"; "cf-request-id"; "x-cache"; "x-cache-hit";
    "x-amz-cf-id"; "x-amz-cf-pop";
    "origin"; "referer"; "dnt"; "save-data"; "viewport-width";
    "device-memory"; "downlink"; "ect"; "rtt"; "save-data" ].

(** [isUselessHeader(headerName)] *)
Definition isUselessHeader (headerName : string) : bool :=
  bool_decide (headerName ∈ uselessHeaders).

Definition dynamicHeaders : list string :=
  [ "user-agent"; "date"; "if-modified-since"; "if-none-match";
    "cache-control"; "pragma"; "expires"; "last-modified"; "etag";
    "x-requested-with"; "x-forwarded-for"; "x-real-ip" ].

(** [getStaticHeaders(headers)] *)
Definition getStaticHeaders (hs : gmap string string) : gmap string string :=
  filter (fun kv => (toLowerCase (fst kv) ∉ dynamicHeaders) /\ (fst kv <> "__proto__")) hs.

(** ** Request conversion and signatures *)

(** The [forEach] over [harRequest.headers] (and [harResponse.headers]). *)
Definition collect_headers (hs : list NameValue) : gmap string string :=
  fold_left
    (fun acc header =>
       let key := toLowerCase (name header) in
       if isUselessHeader key then acc else assign key (value header) acc)
    hs ∅.

(** The [forEach] over [harRequest.queryString]. *)
Definition collect_queryParams (ps : list NameValue) : gmap string string :=
  fold_left (fun acc param => assign (name param) (value param) acc) ps ∅.

(** [convertRequest(harRequest)] *)
Definition convertRequest (harRequest : HARRequest) : LLMRequest :=
  {| llm_method := method harRequest;
     llm_url := url harRequest;
     llm_headers := collect_headers (headers harRequest);
     llm_queryParams := collect_queryParams (queryString harRequest);
     llm_body := postData_text <$> postData harRequest;
     llm_contentType := postData_mimeType <$> postData harRequest |}.

(** [createSemanticSignature(entry)] *)
Definition createSemanticSignature (entry : HAREntry) : RequestSignature :=
  let request := convertRequest (request entry) in
  {| sig_method := llm_method request;
     sig_url := llm_url request;
     sig_headers := llm_headers request;
     sig_queryParams := llm_queryParams request;
     sig_body := llm_body request |}.

(** [createRequestSignature(entry)] *)
Definition createRequestSignature (entry : HAREntry) : RequestSignature :=
  let request := convertRequest (request entry) in
  {| sig_method := llm_method request;
     sig_url := llm_url request;
     sig_headers := llm_headers request;
     sig_queryParams := llm_queryParams request;
     sig_body := llm_body request |}.

(** [areQueryParamsSimilar(params1, params2)] *)
Definition areQueryParamsSimilar (params1 params2 : gmap string string) : bool :=
  let keys1 := sorted_keys params1 in
  let keys2 := sorted_keys params2 in
  if negb (bool_decide (length keys1 = length keys2)) then false
  else keys_agree keys1 keys2.

(** [areHeadersSimilar(headers1, headers2)] *)
Definition areHeadersSimilar (headers1 headers2 : gmap string string) : bool :=
  let keys1 := sorted_keys headers1 in
  let keys2 := sorted_keys headers2 in
  if negb (bool_decide (length keys1 = length keys2)) then false
  else keys_agree keys1 keys2.

(** ** URL normalisation

    The four patterns of [normalizeUrl] have the form [/\/BODY(\/|$)/g]
    where [BODY] never matches a ['/']. A match therefore starts at a ['/']
    and its [BODY] is the whole text up to the next ['/'] or the end of the
    input; the closing ['/'], if any, belongs to the match (it is group 1),
    and the search for the next match resumes behind it. *)

Definition is_slash (c : ascii) : bool := bool_decide (c = "/"%char).

(** [\d] *)
Definition is_digit (c : ascii) : bool :=
  let n := nat_of_ascii c in (48 <=? n)%nat && (n <=? 57)%nat.

(** [[0-9a-f]] under the [i] flag *)
Definition is_hex (c : ascii) : bool :=
  let n := nat_of_ascii c in
  is_digit c || ((97 <=? n)%nat && (n <=? 102)%nat) || ((65 <=? n)%nat && (n <=? 70)%nat).

(** [[a-zA-Z0-9]] *)
Definition is_alnum (c : ascii) : bool :=
  let n := nat_of_ascii c in
  is_digit c || ((97 <=? n)%nat && (n <=? 122)%nat) || ((65 <=? n)%nat && (n <=? 90)%nat).

Fixpoint all_chars (p : ascii -> bool) (s : string) : bool :=
  match s with
  | EmptyString => true
  | String c s' => p c && all_chars p s'
  end.

(** [\d+] against a whole segment *)
Definition numeric_run (seg : string) : bool :=
  negb (bool_decide (seg = "")) && all_chars is_digit seg.

(** [n] hexadecimal characters at the head of [s]; what follows them *)
Fixpoint hex_run (n : nat) (s : string) : option string :=
  match n, s with
  | O, _ => Some s
  | S n', String c s' => if is_hex c then hex_run n' s' else None
  | S _, EmptyString => None
  end.

Definition dash (s : string) : option string :=
  match s with
  | String "-"%char s' => Some s'
  | _ => None
  end.

(** [[0-9a-f]{8}-[0-9a-f]{4}-[0-9a-f]{4}-[0-9a-f]{4}-[0-9a-f]{12}] under the
    [i] flag, against a whole segment *)
Definition uuid_shape (seg : string) : bool :=
  let groups : list (string -> option string) :=
    [ hex_run 8; dash; hex_run 4; dash; hex_run 4; dash; hex_run 4; dash; hex_run 12 ] in
  match fold_left (fun rest group => rest ≫= group) groups (Some seg) with
  | Some rest => bool_decide (rest = "")
  | None => false
  end.

(** [[a-zA-Z0-9]{n}] against a whole segment *)
Definition alnum_run (n : nat) (seg : string) : bool :=
  bool_decide (String.length seg = n) && all_chars is_alnum seg.

(** The text up to the next ['/'] (or the end), and the text from there on. *)
Fixpoint segment_at (s : string) : string * string :=
  match s with
  | EmptyString => (EmptyString, EmptyString)
  | String c s' =>
      if is_slash c then (EmptyString, s)
      else let (seg, rest) := segment_at s' in (String c seg, rest)
  end.

(** [s.replace(/\/BODY(\/|$)/g, '/' + placeholder + '$1')]. [skip] counts the
    characters still covered by the match just replaced. *)
Fixpoint replace_segments (body : string -> bool) (placeholder : string)
    (skip : nat) (s : string) : string :=
  match s with
  | EmptyString => EmptyString
  | String c s' =>
      match skip with
      | S skip' => replace_segments body placeholder skip' s'
      | O =>
          let (seg, rest) := segment_at s' in
          if is_slash c && body seg then
            match rest with
            | EmptyString => "/" ++ placeholder
            | String _ _ =>
                "/" ++ placeholder ++ "/"
                  ++ replace_segments body placeholder (S (String.length seg)) s'
            end
          else String c (replace_segments body placeholder 0 s')
      end
  end.

(** [normalizeUrl(url)] *)
Definition normalizeUrl (url : string) : string :=
  let normalized := replace_segments numeric_run "{id}" 0 url in
  let normalized := replace_segments uuid_shape "{uuid}" 0 normalized in
  let normalized := replace_segments (alnum_run 24) "{objectId}" 0 normalized in
  let normalized := replace_segments (alnum_run 32) "{hash}" 0 normalized in
  normalized.

(** ** Exact signatures *)

(** The loop [for (const key of keys) if (m1[key] !== m2[key]) return false]. *)
Definition values_agree (keys : list string) (m1 m2 : gmap string string) : bool :=
  forallb (fun key => bool_decide (m1 !! key = m2 !! key)) keys.

(** [areRequestsEqual(sig1, sig2)] *)
Definition areRequestsEqual (sig1 sig2 : RequestSignature) : bool :=
  if negb (bool_decide (sig_method sig1 = sig_method sig2))
     || negb (bool_decide (sig_url sig1 = sig_url sig2)) then false
  else
    let queryKeys1 := sorted_keys (sig_queryParams sig1) in
    let queryKeys2 := sorted_keys (sig_queryParams sig2) in
    if negb (bool_decide (length queryKeys1 = length queryKeys2)) then false
    else if negb (values_agree queryKeys1 (sig_queryParams sig1) (sig_queryParams sig2))
    then false
    else
      let staticHeaders1 := getStaticHeaders (sig_headers sig1) in
      let staticHeaders2 := getStaticHeaders (sig_headers sig2) in
      let headerKeys1 := sorted_keys staticHeaders1 in
      let headerKeys2 := sorted_keys staticHeaders2 in
      if negb (bool_decide (length headerKeys1 = length headerKeys2)) then false
      else if negb (values_agree headerKeys1 staticHeaders1 staticHeaders2) then false
      else if negb (strict_eq (sig_body sig1) (sig_body sig2)) then false
      else true.

(** The loop of [removeExactDuplicates]; [seen] and [deduplicated] grow at
    their ends, as [push] does. *)
Fixpoint removeExactDuplicates_loop (entries : list HAREntry)
    (seen : list RequestSignature) (deduplicated : list HAREntry) : list HAREntry :=
  match entries with
  | [] => deduplicated
  | entry :: rest =>
      let signature := createRequestSignature entry in
      let isDuplicate := existsb (fun seenSig => areRequestsEqual signature seenSig) seen in
      if isDuplicate then removeExactDuplicates_loop rest seen deduplicated
      else removeExactDuplicates_loop rest (seen ++ [signature]) (deduplicated ++ [entry])
  end.

(** [removeExactDuplicates(entries)] *)
Definition removeExactDuplicates (entries : list HAREntry) : list HAREntry :=
  removeExactDuplicates_loop entries [] [].

(** ** The structural deduplicator *)

(** The value of [content && content.mimeType && content.mimeType.includes('json')]:
    [content] is an object, so the chain yields the empty [mimeType] itself
    when it is empty and the boolean of [includes] otherwise. *)
Inductive HasJson : Type :=
  | HasJsonEmptyString
  | HasJsonBool (b : bool).

#[global] Instance HasJson_eq_dec : EqDecision HasJson.
Proof. solve_decision. Defined.

Definition hasJson (c : HARContent) : HasJson :=
  if bool_decide (mimeType c = "") then HasJsonEmptyString
  else HasJsonBool (includes "json" (mimeType c)).

Definition truthy (h : HasJson) : bool :=
  match h with
  | HasJsonEmptyString => false
  | HasJsonBool b => b
  end.

(** [text || '{}'] *)
Definition text_or_empty_object (t : option string) : string :=
  match t with
  | Some s => if bool_decide (s = "") then "{}" else s
  | None => "{}"
  end.

Section with_JSON.
(** [JSON.parse] and [JSON.stringify(_, null, 2)] *)
Variable JSON_parse : string -> exc json.
Variable JSON_stringify : json -> string.

(** [JSON.parse(body)] for [body : string | undefined]: [undefined] is
    converted to the text [undefined], which is not JSON. *)
Definition JSON_parse_arg (body : option string) : exc json :=
  match body with
  | Some s => JSON_parse s
  | None => Throw SyntaxError
  end.

(** [areBodiesSimilar(body1, body2)] *)
Definition areBodiesSimilar (body1 body2 : option string) : exc bool :=
  if falsy body1 && falsy body2 then Ok true
  else if falsy body1 || falsy body2 then Ok false
  else
    try_catch
      (json1 ← JSON_parse_arg body1;
       json2 ← JSON_parse_arg body2;
       areJsonStructuresSimilar json1 json2)
      (Ok (strict_eq body1 body2)).

(** [areRequestsSemanticallySimilar(sig1, sig2)] *)
Definition areRequestsSemanticallySimilar (sig1 sig2 : RequestSignature) : exc bool :=
  if negb (bool_decide (sig_method sig1 = sig_method sig2)) then Ok false
  else
    let url1 := normalizeUrl (sig_url sig1) in
    let url2 := normalizeUrl (sig_url sig2) in
    if negb (bool_decide (url1 = url2)) then Ok false
    else if negb (areQueryParamsSimilar (sig_queryParams sig1) (sig_queryParams sig2))
    then Ok false
    else
      bodiesSimilar ← areBodiesSimilar (sig_body sig1) (sig_body sig2);
      if negb bodiesSimilar then Ok false
      else if negb (areHeadersSimilar (sig_headers sig1) (sig_headers sig2)) then Ok false
      else Ok true.

(** [areResponsesSemanticallySimilar(entry1, entry2)] *)
Definition areResponsesSemanticallySimilar (entry1 entry2 : HAREntry) : exc bool :=
  let response1 := response entry1 in
  let response2 := response entry2 in
  if negb (bool_decide (status response1 = status response2)) then Ok false
  else
    let hasJson1 := hasJson (content response1) in
    let hasJson2 := hasJson (content response2) in
    if negb (bool_decide (hasJson1 = hasJson2)) then Ok false
    else if truthy hasJson1 && truthy hasJson2 then
      try_catch
        (json1 ← JSON_parse (text_or_empty_object (text (content response1)));
         json2 ← JSON_parse (text_or_empty_object (text (content response2)));
         let normalized1 := normalizeJsonStructure json1 in
         let normalized2 := normalizeJsonStructure json2 in
         areJsonStructuresSimilar normalized1 normalized2)
        (Ok (strict_eq (text (content response1)) (text (content response2))))
    else Ok (strict_eq (text (content response1)) (text (content response2))).

(** The inner loop of [deduplicateEntries]: the negation of [shouldAdd]
    once the loop over [deduplicated] has ended or hit its [break]. *)
Fixpoint has_similar (entry : HAREntry) (deduplicated : list HAREntry) : exc bool :=
  match deduplicated with
  | [] => Ok false
  | existingEntry :: rest =>
      requestsSimilar ←
        areRequestsSemanticallySimilar
          (createSemanticSignature entry) (createSemanticSignature existingEntry);
      responsesSimilar ← areResponsesSemanticallySimilar entry existingEntry;
      if requestsSimilar && responsesSimilar then Ok true
      else has_similar entry rest
  end.

(** The outer loop of [deduplicateEntries]. *)
Fixpoint deduplicateEntries_loop (entries deduplicated : list HAREntry)
  : exc (list HAREntry) :=
  match entries with
  | [] => Ok deduplicated
  | entry :: rest =>
      similar ← has_similar entry deduplicated;
      if similar : bool then deduplicateEntries_loop rest deduplicated
      else deduplicateEntries_loop rest (deduplicated ++ [entry])
  end.

(** [deduplicateEntries(entries)] *)
Definition deduplicateEntries (entries : list HAREntry) : exc (list HAREntry) :=
  deduplicateEntries_loop entries [].

(** [convertResponse(harResponse)]; the [catch] block is empty, so a body
    that does not parse stays as it was. *)
Definition convertResponse (harResponse : HARResponse) : LLMResponse :=
  let headers := collect_headers (response_headers harResponse) in
  let '(body, contentType) :=
    if negb (falsy (text (content harResponse))) then
      let body := text (content harResponse) in
      let contentType := mimeType (content harResponse) in
      if negb (bool_decide (contentType = "")) && includes "json" contentType then
        match JSON_parse_arg body with
        | Ok jsonBody =>
            let cleanedJson := normalizeJsonStructure jsonBody in
            (Some (JSON_stringify cleanedJson), Some contentType)
        | Throw _ => (body, Some contentType)
        end
      else (body, Some contentType)
    else (None, None) in
  {| llm_status := status harResponse;
     llm_statusText := statusText harResponse;
     llm_response_headers := headers;
     llm_response_body := body;
     llm_response_contentType := contentType |}.

(** [convertEntry(entry)] *)
Definition convertEntry (entry : HAREntry) : LLMConversation :=
  {| conv_request := convertRequest (request entry);
     conv_response := convertResponse (response entry);
     conv_timestamp := startedDateTime entry;
     conv_duration := time entry |}.
End with_JSON.

(** ** Summary *)

(** What a count object holds under a name: a number, or the string that
    [+ 1] makes of a value that is no number. *)
Inductive count : Type :=
  | CountNumber (n : nat)
  | CountText (text : string).

Record Summary : Type := {
  totalRequests : nat;
  methods : gmap string count;
  statusCodes : gmap string count;
  domains : gmap string count;
  averageDuration : PrimFloat.float;
  totalDuration : PrimFloat.float
}.

(** The function members of [Object.prototype], which every object made from
    [{}] inherits. *)
Definition Object_prototype_functions : list string :=
  [ "constructor"; "__defineGetter__"; "__defineSetter__"; "hasOwnProperty";
    "__lookupGetter__"; "__lookupSetter__"; "isPrototypeOf";
    "propertyIsEnumerable"; "toString"; "valueOf"; "toLocaleString" ].

(** The text [+] makes of the member an object made from [{}] inherits under
    [key], if any: the source text of a builtin function ([constructor] is
    the function [Object]), and for the accessor [__proto__] the text of the
    prototype object it returns. *)
Definition Object_prototype_text (key : string) : option string :=
  if bool_decide (key ∈ Object_prototype_functions) then
    Some ("function "
          ++ (if bool_decide (key = "constructor") then "Object" else key)
          ++ "() { [native code] }")%string
  else if bool_decide (key = "__proto__") then Some "[object Object]"
  else None.

(** [(counts[key] || 0) + 1]: the read finds an own count, or else an
    inherited member, which is truthy and which [+] turns into text. *)
Definition incremented (key : string) (counts : gmap string count) : count :=
  match counts !! key with
  | Some (CountNumber n) => CountNumber (n + 1)
  | Some (CountText text) =>
      if bool_decide (text = "") then CountNumber 1 else CountText (text ++ "1")%string
  | None =>
      match Object_prototype_text key with
      | Some text => CountText (text ++ "1")%string
      | None => CountNumber 1
      end
  end.

(** [counts[key] = (counts[key] || 0) + 1] *)
Definition count_one (key : string) (counts : gmap string count) : gmap string count :=
  assign key (incremented key counts) counts.

(** The four variables the [forEach] of [generateSummary] updates. *)
Record Tally : Type := {
  tally_methods : gmap string count;
  tally_statusCodes : gmap string count;
  tally_domains : gmap string count;
  tally_totalDuration : PrimFloat.float
}.

(** [entries.length] as a number; the length of an array is below [2^32]. *)
Definition number_of_length (n : nat) : PrimFloat.float :=
  PrimFloat.of_uint63 (Uint63.of_Z (Z.of_nat n)).

Section with_URL.
(** [new URL(url).hostname]; the constructor raises on a malformed URL. *)
Variable URL_hostname : string -> exc string.

(** The callback of [entries.forEach] in [generateSummary]. *)
Definition tally_entry (t : Tally) (entry : HAREntry) : exc Tally :=
  let method := method (request entry) in
  let methods := count_one method (tally_methods t) in
  let statusCode := pretty (status (response entry)) in
  let statusCodes := count_one statusCode (tally_statusCodes t) in
  domain ← URL_hostname (url (request entry));
  let domains := count_one domain (tally_domains t) in
  Ok {| tally_methods := methods;
        tally_statusCodes := statusCodes;
        tally_domains := domains;
        tally_totalDuration := PrimFloat.add (tally_totalDuration t) (time entry) |}.

Fixpoint tally_entries (t : Tally) (entries : list HAREntry) : exc Tally :=
  match entries with
  | [] => Ok t
  | entry :: rest => t' ← tally_entry t entry; tally_entries t' rest
  end.

(** [generateSummary(entries)] *)
Definition generateSummary (entries : list HAREntry) : exc Summary :=
  t ← tally_entries
        {| tally_methods := ∅; tally_statusCodes := ∅; tally_domains := ∅;
           tally_totalDuration := 0%float |}
        entries;
  Ok {| totalRequests := length entries;
        methods := tally_methods t;
        statusCodes := tally_statusCodes t;
        domains := tally_domains t;
        averageDuration :=
          if (0 <? length entries)%nat
          then PrimFloat.div (tally_totalDuration t) (number_of_length (length entries))
          else 0%float;
        totalDuration := tally_totalDuration t |}.
End with_URL.

(** ** Executable models of the builtins

    The sections above take [JSON.parse], [JSON.stringify] and the URL
    constructor as parameters, and the general theorems hold for any choice
    of them. The models below run the converter on concrete captures. Each
    covers a part of its builtin's input, on which it agrees with it:
    - [JSON_parse_model]: every JSON text in which no [\u] escape names a
      code unit of 256 or more (such a text raises here); a number is the
      exact value of its literal, which JavaScript rounds to binary64;
    - [JSON_stringify_model]: values whose numbers are integers of
      magnitude at most [2^53], or decimals of at most 15 significant
      digits with magnitude from [1e-6] up to [1e21], and whose objects keep
      their members in [Object.keys] order, as the values of
      [JSON_parse_model] and their normal forms do;
    - [URL_hostname_model]: URLs [scheme://authority] followed by nothing or
      by a path, query or fragment, where the scheme is [http], [https],
      [ws], [wss] or [ftp] in any case, the authority is a host with an
      optional user information in front and an optional port behind, the
      host is made of letters, digits, [-], [_] and [.], no label of it
      starts with [xn--] and its last label starts with a letter, and the
      URL has no tab or line break and no control character or space at
      either end; there the model raises exactly when the constructor does.
      On every other text the model raises, which the constructor need not
      do. *)

Definition dquote : ascii := "034"%char.
Definition backslash : ascii := "092"%char.
Definition newline : string := String "010"%char EmptyString.

(** A JSON string literal of the text [s] (no character of [s] needs an escape). *)
Definition quoted (s : string) : string :=
  String dquote (s ++ String dquote EmptyString).

Definition is_json_space (c : ascii) : bool :=
  bool_decide (c = " "%char) || bool_decide (c = "009"%char)
  || bool_decide (c = "010"%char) || bool_decide (c = "013"%char).

Fixpoint skip_space (s : string) : string :=
  match s with
  | String c s' => if is_json_space c then skip_space s' else s
  | EmptyString => s
  end.

(** The character a one-letter escape stands for. *)
Definition escaped (c : ascii) : option ascii :=
  if bool_decide (c = dquote) || bool_decide (c = backslash) || bool_decide (c = "/"%char)
  then Some c
  else if bool_decide (c = "b"%char) then Some "008"%char
  else if bool_decide (c = "f"%char) then Some "012"%char
  else if bool_decide (c = "n"%char) then Some "010"%char
  else if bool_decide (c = "r"%char) then Some "013"%char
  else if bool_decide (c = "t"%char) then Some "009"%char
  else None.

Definition hex_value (c : ascii) : option nat :=
  let n := nat_of_ascii c in
  if is_digit c then Some (n - 48)%nat
  else if (97 <=? n)%nat && (n <=? 102)%nat then Some (n - 87)%nat
  else if (65 <=? n)%nat && (n <=? 70)%nat then Some (n - 55)%nat
  else None.

(** The code unit of [\uXXXX], when it is below 256. *)
Definition code_unit (h1 h2 h3 h4 : ascii) : option ascii :=
  d1 ← hex_value h1; d2 ← hex_value h2; d3 ← hex_value h3; d4 ← hex_value h4;
  if (d1 =? 0)%nat && (d2 =? 0)%nat then Some (ascii_of_nat (16 * d3 + d4)) else None.

(** The characters of a string literal after its opening quote. *)
Fixpoint string_literal (s : string) : option (string * string) :=
  match s with
  | EmptyString => None
  | String c s1 =>
      if bool_decide (c = dquote) then Some (EmptyString, s1)
      else if bool_decide (c = backslash) then
        match s1 with
        | String e s2 =>
            match escaped e with
            | Some ch => '(str, rest) ← string_literal s2; Some (String ch str, rest)
            | None =>
                match s2 with
                | String h1 (String h2 (String h3 (String h4 s6))) =>
                    if negb (bool_decide (e = "u"%char)) then None
                    else
                      ch ← code_unit h1 h2 h3 h4;
                      '(str, rest) ← string_literal s6;
                      Some (String ch str, rest)
                | _ => None
                end
            end
        | EmptyString => None
        end
      else if (nat_of_ascii c <? 32)%nat then None
      else '(str, rest) ← string_literal s1; Some (String c str, rest)
  end.

(** The digits at the head of [s] appended to [acc]; how many there are. *)
Fixpoint digits (acc : Z) (s : string) : Z * nat * string :=
  match s with
  | String c s' =>
      if is_digit c then
        let '(n, count, rest) := digits (10 * acc + Z.of_nat (nat_of_ascii c - 48)) s' in
        (n, S count, rest)
      else (acc, O, s)
  | EmptyString => (acc, O, s)
  end.

(** [0 | [1-9][0-9]*], then an optional fraction [.[0-9]+] and an optional
    exponent [[eE][+-]?[0-9]+]: the value of the literal. *)
Definition number_literal (s : string) : option (Q * string) :=
  '(whole, rest) ←
    match s with
    | String c s' =>
        if negb (is_digit c) then None
        else if bool_decide (c = "0"%char) then Some (0%Z, s')
        else let '(n, _, rest) := digits 0 s in Some (n, rest)
    | EmptyString => None
    end;
  '(mantissa, scale, rest) ←
    match rest with
    | String "."%char fraction =>
        let '(n, count, rest') := digits whole fraction in
        if (count =? 0)%nat then None else Some (n, count, rest')
    | _ => Some (whole, O, rest)
    end;
  '(exponent, rest) ←
    match rest with
    | String e after =>
        if bool_decide (e = "e"%char) || bool_decide (e = "E"%char) then
          let '(negative, after') :=
            match after with
            | String "-"%char t => (true, t)
            | String "+"%char t => (false, t)
            | _ => (false, after)
            end in
          let '(n, count, rest') := digits 0 after' in
          if (count =? 0)%nat then None
          else Some (if negative : bool then (- n)%Z else n, rest')
        else Some (0%Z, rest)
    | EmptyString => Some (0%Z, rest)
    end;
  Some ((inject_Z mantissa * Qpower 10 (exponent - Z.of_nat scale))%Q, rest).

Definition expect (lit : string) (v : json) (s : string) : option (json * string) :=
  if String.prefix lit s
  then Some (v, String.substring (String.length lit) (String.length s - String.length lit) s)
  else None.

(** The array index a member name is, if it is one: the decimal text,
    without a leading zero, of an integer from 0 to [2^32 - 2]. *)
Definition array_index (key : string) : option Z :=
  match key with
  | EmptyString => None
  | String c rest =>
      if negb (all_chars is_digit key) then None
      else if bool_decide (c = "0"%char) && negb (bool_decide (rest = "")) then None
      else
        let '(n, _, _) := digits 0 key in
        if (n <=? 4294967294)%Z then Some n else None
  end.

(** The place of a new member whose name is the array index [n]: behind the
    index names below [n], in front of every other name. *)
Fixpoint insert_index (n : Z) (key : string) (value : json)
    (members : list (string * json)) : list (string * json) :=
  match members with
  | [] => [(key, value)]
  | (k, v) :: rest =>
      match array_index k with
      | Some m =>
          if (m <? n)%Z then (k, v) :: insert_index n key value rest
          else (key, value) :: members
      | None => (key, value) :: members
      end
  end.

(** The member [key] made or overwritten while an object is parsed. A
    member that exists keeps its place; a new one goes behind the others,
    unless its name is an array index: [Object.keys] lists the index names
    first, in ascending order. *)
Definition define_member (key : string) (value : json) (members : list (string * json))
  : list (string * json) :=
  match prop key members, array_index key with
  | None, Some n => insert_index n key value members
  | _, _ => set_prop key value members
  end.

Fixpoint parse_value (fuel : nat) (s : string) : option (json * string) :=
  match fuel with
  | O => None
  | S fuel' =>
      match skip_space s with
      | String "n"%char _ as t => expect "null" JNull t
      | String "t"%char _ as t => expect "true" (JBool true) t
      | String "f"%char _ as t => expect "false" (JBool false) t
      | String "-"%char t =>
          '(n, rest) ← number_literal t; Some (JNum (- n), rest)
      | String "["%char t =>
          match skip_space t with
          | String "]"%char rest => Some (JArr [], rest)
          | _ => '(items, rest) ← parse_elements fuel' t; Some (JArr items, rest)
          end
      | String "{"%char t =>
          match skip_space t with
          | String "}"%char rest => Some (JObj [], rest)
          | _ => '(members, rest) ← parse_members fuel' [] t; Some (JObj members, rest)
          end
      | String c t as whole =>
          if bool_decide (c = dquote) then
            '(str, rest) ← string_literal t; Some (JStr str, rest)
          else
            '(n, rest) ← number_literal whole; Some (JNum n, rest)
      | EmptyString => None
      end
  end
with parse_elements (fuel : nat) (s : string) : option (list json * string) :=
  match fuel with
  | O => None
  | S fuel' =>
      '(v, rest) ← parse_value fuel' s;
      match skip_space rest with
      | String ","%char rest' =>
          '(vs, rest'') ← parse_elements fuel' rest'; Some (v :: vs, rest'')
      | String "]"%char rest' => Some ([v], rest')
      | _ => None
      end
  end
with parse_members (fuel : nat) (acc : list (string * json)) (s : string)
  : option (list (string * json) * string) :=
  match fuel with
  | O => None
  | S fuel' =>
      match skip_space s with
      | String c t =>
          if negb (bool_decide (c = dquote)) then None
          else
            '(key, rest) ← string_literal t;
            match skip_space rest with
            | String ":"%char rest' =>
                '(v, rest'') ← parse_value fuel' rest';
                let acc' := define_member key v acc in
                match skip_space rest'' with
                | String ","%char more => parse_members fuel' acc' more
                | String "}"%char more => Some (acc', more)
                | _ => None
                end
            | _ => None
            end
      | EmptyString => None
      end
  end.

(** Model of [JSON.parse] *)
Definition JSON_parse_model (s : string) : exc json :=
  match parse_value (2 * String.length s + 2) s with
  | Some (v, rest) =>
      if bool_decide (skip_space rest = "") then Ok v else Throw SyntaxError
  | None => Throw SyntaxError
  end.

Fixpoint spaces (n : nat) : string :=
  match n with
  | O => EmptyString
  | S n' => String " "%char (spaces n')
  end.

Definition hex_digit (n : nat) : ascii :=
  if (n <? 10)%nat then ascii_of_nat (48 + n) else ascii_of_nat (87 + n).

(** A character of a string as [JSON.stringify] prints it. *)
Definition print_char (c : ascii) : string :=
  let n := nat_of_ascii c in
  if bool_decide (c = dquote) || bool_decide (c = backslash)
  then String backslash (String c EmptyString)
  else if (n =? 8)%nat then String backslash "b"
  else if (n =? 12)%nat then String backslash "f"
  else if (n =? 10)%nat then String backslash "n"
  else if (n =? 13)%nat then String backslash "r"
  else if (n =? 9)%nat then String backslash "t"
  else if (n <? 32)%nat then
    String backslash
      (String "u"%char
         (String "0"%char
            (String "0"%char
               (String (hex_digit (n / 16)) (String (hex_digit (n mod 16)) EmptyString)))))
  else String c EmptyString.

Fixpoint print_chars (s : string) : string :=
  match s with
  | EmptyString => EmptyString
  | String c s' => (print_char c ++ print_chars s')%string
  end.

(** A string as [JSON.stringify] prints it. *)
Definition print_string (s : string) : string :=
  String dquote (print_chars s ++ String dquote EmptyString).

(** The least [k], from [k] up to [k + fuel], for which [10^k] is a multiple
    of [d]. *)
Fixpoint decimal_places (fuel : nat) (k : nat) (d : Z) : option nat :=
  if (Z.pow 10 (Z.of_nat k) mod d =? 0)%Z then Some k
  else
    match fuel with
    | O => None
    | S fuel' => decimal_places fuel' (S k) d
    end.

(** [s] with zeros in front up to the width [width]. *)
Definition pad_zeros (width : nat) (s : string) : string :=
  (String.concat "" (repeat "0" (width - String.length s)) ++ s)%string.

(** A number as [JSON.stringify] prints it: an integer by its digits, a
    decimal by its digits around the point. *)
Definition print_number (q : Q) : string :=
  let q := Qred q in
  let n := Qnum q in
  let d := Z.pos (Qden q) in
  match decimal_places 30 0 d with
  | Some O => pretty n
  | Some k =>
      let scale := Z.pow 10 (Z.of_nat k) in
      let m := (Z.abs n * scale / d)%Z in
      ((if (n <? 0)%Z then "-" else "")
       ++ pretty (m / scale)%Z ++ "." ++ pad_zeros k (pretty (m mod scale)%Z))%string
  | None => (pretty n ++ "/" ++ pretty d)%string
  end.

(** Model of [JSON.stringify(v, null, 2)], at nesting depth [depth] *)
Fixpoint stringify_at (depth : nat) (v : json) : string :=
  match v with
  | JNull => "null"
  | JBool true => "true"
  | JBool false => "false"
  | JNum n => print_number n
  | JStr s => print_string s
  | JArr [] => "[]"
  | JArr items =>
      "[" ++ newline
        ++ join ("," ++ newline)
             (map (fun item => (spaces (2 * S depth) ++ stringify_at (S depth) item)%string) items)
        ++ newline ++ spaces (2 * depth) ++ "]"
  | JObj [] => "{}"
  | JObj members =>
      "{" ++ newline
        ++ join ("," ++ newline)
             (map (fun kv : string * json =>
                     let (k, item) := kv in
                     (spaces (2 * S depth) ++ print_string k ++ ": "
                      ++ stringify_at (S depth) item)%string)
                members)
        ++ newline ++ spaces (2 * depth) ++ "}"
  end.

Definition JSON_stringify_model (v : json) : string := stringify_at 0 v.

Definition is_letter (c : ascii) : bool :=
  let n := nat_of_ascii c in
  ((97 <=? n)%nat && (n <=? 122)%nat) || ((65 <=? n)%nat && (n <=? 90)%nat).

(** [s] cut at the first character that satisfies [stop]: what is in front
    of it, and the rest from that character on. *)
Fixpoint cut_at (stop : ascii -> bool) (s : string) : string * string :=
  match s with
  | String c s' =>
      if stop c then (EmptyString, s)
      else let (front, rest) := cut_at stop s' in (String c front, rest)
  | EmptyString => (EmptyString, EmptyString)
  end.

(** The text behind the last ['@'] of [s], or [s] itself. *)
Fixpoint after_last_at (s : string) : string :=
  match s with
  | String c s' =>
      if includes "@" s' then after_last_at s'
      else if bool_decide (c = "@"%char) then s'
      else s
  | EmptyString => EmptyString
  end.

(** [s.split('.')] *)
Fixpoint labels (s : string) : list string :=
  match s with
  | EmptyString => [EmptyString]
  | String c s' =>
      if bool_decide (c = "."%char) then EmptyString :: labels s'
      else
        match labels s' with
        | label :: rest => String c label :: rest
        | [] => [String c EmptyString]
        end
  end.

Definition is_host_char (c : ascii) : bool :=
  is_letter c || is_digit c || bool_decide (c = "-"%char) || bool_decide (c = "_"%char)
  || bool_decide (c = "."%char).

Definition starts_with_letter (label : string) : bool :=
  match label with
  | String c _ => is_letter c
  | EmptyString => false
  end.

(** The host is one the model covers: its characters, no [xn--] label, and
    a last label (a last empty one apart) that starts with a letter. *)
Definition covered_host (host : string) : bool :=
  all_chars is_host_char host
  && forallb (fun label => negb (String.prefix "xn--" (toLowerCase label))) (labels host)
  && match rev (labels host) with
     | EmptyString :: label :: _ => starts_with_letter label
     | label :: _ => starts_with_letter label
     | [] => false
     end.

Definition special_schemes : list string := ["http"; "https"; "ws"; "wss"; "ftp"].

Definition is_control_or_space (c : ascii) : bool := (nat_of_ascii c <=? 32)%nat.

(** The URL has no tab or line break, and no control character or space at
    its ends. *)
Definition trimmed (url : string) : bool :=
  negb (includes (String "009"%char EmptyString) url)
  && negb (includes (String "010"%char EmptyString) url)
  && negb (includes (String "013"%char EmptyString) url)
  && match url with
     | String c _ => negb (is_control_or_space c)
     | EmptyString => true
     end
  && match rev (list_ascii_of_string url) with
     | c :: _ => negb (is_control_or_space c)
     | [] => true
     end.

(** Model of [new URL(url).hostname] *)
Definition URL_hostname_model (url : string) : exc string :=
  let (scheme, rest) := cut_at (fun c => bool_decide (c = ":"%char)) url in
  if negb (trimmed url) then Throw TypeError
  else if negb (bool_decide (toLowerCase scheme ∈ special_schemes)) then Throw TypeError
  else
    match rest with
    | String _ (String "/"%char (String "/"%char behind)) =>
        let (authority, _) :=
          cut_at (fun c => bool_decide (c = "/"%char) || bool_decide (c = "?"%char)
                           || bool_decide (c = "#"%char) || bool_decide (c = backslash))
            behind in
        let (host, port) :=
          cut_at (fun c => bool_decide (c = ":"%char)) (after_last_at authority) in
        let port_ok :=
          match port with
          | String _ number =>
              all_chars is_digit number
              && (let '(n, _, _) := digits 0 number in (n <=? 65535)%Z)
          | EmptyString => true
          end in
        if covered_host host && port_ok then Ok (toLowerCase host) else Throw TypeError
    | _ => Throw TypeError
    end.


(** ** Definitions used to state the properties *)

(** The truth value of a comparison that may raise: raising is not holding. *)
Definition holds (m : exc bool) : bool :=
  match m with
  | Ok b => b
  | Throw _ => false
  end.

(** Both predicates of the structural deduplicator, on a new entry and an
    entry already kept. *)
Definition similar_pair (JSON_parse : string -> exc json)
    (entry existingEntry : HAREntry) : bool :=
  holds (areRequestsSemanticallySimilar JSON_parse
           (createSemanticSignature entry) (createSemanticSignature existingEntry))
  && holds (areResponsesSemanticallySimilar JSON_parse entry existingEntry).

(** The outer loop of [deduplicateEntries] without the monad. *)
Fixpoint kept_after (JSON_parse : string -> exc json)
    (entries deduplicated : list HAREntry) : list HAREntry :=
  match entries with
  | [] => deduplicated
  | entry :: rest =>
      if existsb (similar_pair JSON_parse entry) deduplicated
      then kept_after JSON_parse rest deduplicated
      else kept_after JSON_parse rest (deduplicated ++ [entry])
  end.

(** A list in which no element is similar to one before it. *)
Definition pairwise_distinct (JSON_parse : string -> exc json)
    (l : list HAREntry) : Prop :=
  forall front entry back,
    l = front ++ entry :: back -> existsb (similar_pair JSON_parse entry) front = false.

(** The loop [for (const key of keys1)] of [areJsonStructuresSimilar], over
    any comparison [similar] of the two values read under a key. *)
Fixpoint members_similar (similar : json -> json -> exc bool)
    (members1 members2 : list (string * json)) (keys : list string) : exc bool :=
  match keys with
  | [] => Ok true
  | key :: keys' =>
      r ← match prop key members1, prop key members2 with
          | Some v1, Some v2 => similar v1 v2
          | _, _ => Ok false
          end;
      if r : bool then members_similar similar members1 members2 keys' else Ok false
  end.

(** The request fields the similarity predicate looks at. *)
Definition request_body (entry : HAREntry) : option string :=
  postData_text <$> postData (request entry).

Definition query_names (entry : HAREntry) : gset string :=
  list_to_set (map name (queryString (request entry))).

Definition header_names (entry : HAREntry) : gset string :=
  list_to_set
    (filter (fun key => isUselessHeader key = false)
       (map (fun h => toLowerCase (name h)) (headers (request entry)))).

(** Body similarity as the specification words it: a body is absent when
    the request carries none. *)
Definition bodies_similar_as_stated (JSON_parse : string -> exc json)
    (body1 body2 : option string) : Prop :=
  match body1, body2 with
  | None, None => True
  | Some text1, Some text2 =>
      match JSON_parse text1, JSON_parse text2 with
      | Ok json1, Ok json2 => areJsonStructuresSimilar json1 json2 = Ok true
      | _, _ => text1 = text2
      end
  | _, _ => False
  end.

(** Body similarity with an empty body text counted as absent. *)
Definition bodies_similar (JSON_parse : string -> exc json)
    (body1 body2 : option string) : Prop :=
  match falsy body1, falsy body2 with
  | true, true => True
  | false, false =>
      match JSON_parse_arg JSON_parse body1, JSON_parse_arg JSON_parse body2 with
      | Ok json1, Ok json2 => areJsonStructuresSimilar json1 json2 = Ok true
      | _, _ => body1 = body2
      end
  | _, _ => False
  end.

(** A response has a JSON content type. *)
Definition is_json (c : HARContent) : bool := includes "json" (mimeType c).

Definition response_text (entry : HAREntry) : option string :=
  text (content (response entry)).

(** Response similarity as the specification words it: the body texts
    themselves are parsed. *)
Definition responses_similar_as_stated (JSON_parse : string -> exc json)
    (entry1 entry2 : HAREntry) : Prop :=
  status (response entry1) = status (response entry2)
  /\ is_json (content (response entry1)) = is_json (content (response entry2))
  /\ if is_json (content (response entry1)) && is_json (content (response entry2))
     then
       match JSON_parse_arg JSON_parse (response_text entry1),
             JSON_parse_arg JSON_parse (response_text entry2) with
       | Ok json1, Ok json2 =>
           areJsonStructuresSimilar
             (normalizeJsonStructure json1) (normalizeJsonStructure json2) = Ok true
       | _, _ => response_text entry1 = response_text entry2
       end
     else response_text entry1 = response_text entry2.

(** Response similarity with a missing or empty JSON body read as [{}]. *)
Definition responses_similar (JSON_parse : string -> exc json)
    (entry1 entry2 : HAREntry) : Prop :=
  status (response entry1) = status (response entry2)
  /\ is_json (content (response entry1)) = is_json (content (response entry2))
  /\ if is_json (content (response entry1)) && is_json (content (response entry2))
     then
       match JSON_parse (text_or_empty_object (response_text entry1)),
             JSON_parse (text_or_empty_object (response_text entry2)) with
       | Ok json1, Ok json2 =>
           areJsonStructuresSimilar
             (normalizeJsonStructure json1) (normalizeJsonStructure json2) = Ok true
       | _, _ => response_text entry1 = response_text entry2
       end
     else response_text entry1 = response_text entry2.

(** One content type is empty and the other is a non-empty type without
    [json]. *)
Definition empty_against_non_json (c1 c2 : HARContent) : bool :=
  (bool_decide (mimeType c1 = "") && negb (bool_decide (mimeType c2 = ""))
   && negb (is_json c2))
  || (bool_decide (mimeType c2 = "") && negb (bool_decide (mimeType c1 = ""))
      && negb (is_json c1)).

(** ** Example captures *)

Definition plain_request (m u : string) (body : option PostData) : HARRequest :=
  {| method := m; url := u; headers := []; queryString := []; postData := body |}.

Definition response_with (code : Z) (mime : string) (body : option string) : HARResponse :=
  {| status := code; statusText := "OK"; response_headers := [];
     content := {| mimeType := mime; text := body |} |}.

Definition exchange (req : HARRequest) (resp : HARResponse) : HAREntry :=
  {| startedDateTime := "2024-01-01T00:00:00.000Z"; time := 0%float;
     request := req; response := resp |}.

(** Request similarity as the specification words it. *)
Definition requests_similar_as_stated (JSON_parse : string -> exc json)
    (entry1 entry2 : HAREntry) : Prop :=
  method (request entry1) = method (request entry2)
  /\ normalizeUrl (url (request entry1)) = normalizeUrl (url (request entry2))
  /\ query_names entry1 = query_names entry2
  /\ bodies_similar_as_stated JSON_parse (request_body entry1) (request_body entry2)
  /\ header_names entry1 = header_names entry2.

(** A request posted with an empty body text, and the same request with no
    body at all. *)
Definition posted_empty : HAREntry :=
  exchange
    (plain_request "POST" "https://api.example.com/items"
       (Some {| postData_mimeType := "text/plain"; postData_text := "" |}))
    (response_with 200 "text/plain" (Some "ok")).

Definition posted_nothing : HAREntry :=
  exchange (plain_request "POST" "https://api.example.com/items" None)
    (response_with 200 "text/plain" (Some "ok")).

(** Two JSON responses, one with an empty body text and one with [{}]. *)
Definition answered_empty : HAREntry :=
  exchange (plain_request "GET" "https://api.example.com/items" None)
    (response_with 200 "application/json" (Some "")).

Definition answered_empty_object : HAREntry :=
  exchange (plain_request "GET" "https://api.example.com/items" None)
    (response_with 200 "application/json" (Some "{}")).

(** A JSON response whose body text is not JSON. *)
Definition answered_garbage : HAREntry :=
  exchange (plain_request "GET" "https://api.example.com/items" None)
    (response_with 200 "application/json" (Some "<html>")).

(** The outer loop of [removeExactDuplicates] over the kept entries alone. *)
Fixpoint exact_kept_after (entries deduplicated : list HAREntry) : list HAREntry :=
  match entries with
  | [] => deduplicated
  | entry :: rest =>
      if existsb
           (fun kept =>
              areRequestsEqual (createRequestSignature entry) (createRequestSignature kept))
           deduplicated
      then exact_kept_after rest deduplicated
      else exact_kept_after rest (deduplicated ++ [entry])
  end.

(** Two signatures are identical, field by field. *)
Definition identical_signatures (sig1 sig2 : RequestSignature) : Prop :=
  sig_method sig1 = sig_method sig2
  /\ sig_url sig1 = sig_url sig2
  /\ sig_queryParams sig1 = sig_queryParams sig2
  /\ getStaticHeaders (sig_headers sig1) = getStaticHeaders (sig_headers sig2)
  /\ sig_body sig1 = sig_body sig2.

(** The last element of [l] filed under [key] by [key_of], if any. *)
Definition last_under {A : Type} (key_of : A -> string) (key : string) (l : list A)
  : option A :=
  last (filter (fun x => key_of x = key) l).

(** The name of a header as [convertRequest] files it. *)
Definition header_key (header : NameValue) : string := toLowerCase (name header).

(** No query parameter and no header of the request has the name
    [__proto__], under which an assignment stores nothing. *)
Definition storable_names (entry : HAREntry) : bool :=
  negb (bool_decide ("__proto__" ∈ map name (queryString (request entry))))
  && negb (bool_decide ("__proto__" ∈ map header_key (headers (request entry)))).

(** A capture of one request, with a [date] and an [etag] header in front of
    its other headers. *)
Definition stamped (req : HARRequest) (resp : HARResponse) (date etag : string) : HAREntry :=
  exchange
    {| method := method req; url := url req;
       headers := {| name := "Date"; value := date |}
                  :: {| name := "ETag"; value := etag |} :: headers req;
       queryString := queryString req; postData := postData req |}
    resp.

(** The durations of a capture added up in floating point, one after the
    other in the order of the capture, from 0. *)
Definition sum_durations (entries : list HAREntry) : PrimFloat.float :=
  fold_left PrimFloat.add (map time entries) 0%float.

(** The name is not one of a member of [Object.prototype]. *)
Definition plain_key (key : string) : bool :=
  negb (bool_decide (key ∈ "__proto__" :: Object_prototype_functions)).

(** The hostname of an entry's URL, for a URL that parses. *)
Definition hostname_of (URL_hostname : string -> exc string) (entry : HAREntry) : string :=
  match URL_hostname (url (request entry)) with
  | Ok domain => domain
  | Throw _ => ""
  end.

(** The number of entries filed under [key] by [key_of]. *)
Definition occurrences (key_of : HAREntry -> string) (key : string)
    (entries : list HAREntry) : nat :=
  length (filter (fun entry => key_of entry = key) entries).

(** What a count object holds under a key that occurred [n] times: nothing
    for a key that never occurred. *)
Definition counted (n : nat) : option count :=
  match n with
  | O => None
  | S _ => Some (CountNumber n)
  end.

(** The counting loop for one of the three count objects. *)
Definition tally_by (key_of : HAREntry -> string) (entries : list HAREntry)
    (counts : gmap string count) : gmap string count :=
  fold_left (fun acc entry => count_one (key_of entry) acc) entries counts.

(** Three captures with the given durations. *)
Definition timed (duration : PrimFloat.float) : HAREntry :=
  {| startedDateTime := "2024-01-01T00:00:00.000Z"; time := duration;
     request := plain_request "GET" "https://api.example.com/items" None;
     response := response_with 200 "text/plain" (Some "ok") |}.

(** ** Segments of a URL *)

(** [s.split('/')] *)
Fixpoint split_slash (s : string) : list string :=
  match s with
  | EmptyString => [EmptyString]
  | String c s' =>
      if is_slash c then EmptyString :: split_slash s'
      else
        match split_slash s' with
        | seg :: rest => String c seg :: rest
        | [] => [String c EmptyString]
        end
  end.

(** The segments behind the first one, each behind its ['/']. *)
Fixpoint glue (segs : list string) : string :=
  match segs with
  | [] => EmptyString
  | seg :: rest => "/" ++ seg ++ glue rest
  end.

Definition slash_free (seg : string) : bool :=
  all_chars (fun c => negb (is_slash c)) seg.

(** The placeholder of a segment under the four rules in their order, or the
    segment itself. *)
Definition placeholder_for (seg : string) : string :=
  if numeric_run seg then "{id}"
  else if uuid_shape seg then "{uuid}"
  else if alnum_run 24 seg then "{objectId}"
  else if alnum_run 32 seg then "{hash}"
  else seg.

(** A segment one of the four rules matches. *)
Definition id_like (seg : string) : bool :=
  numeric_run seg || uuid_shape seg || alnum_run 24 seg || alnum_run 32 seg.

(** No two neighbours in [segs] both satisfy [p]. *)
Fixpoint no_adjacent (p : string -> bool) (segs : list string) : bool :=
  match segs with
  | a :: (b :: _) as rest => negb (p a && p b) && no_adjacent p rest
  | _ => true
  end.

(** The segment of a rule as the specification words the last two rules:
    [n] hexadecimal characters. *)
Definition hex_only (n : nat) (seg : string) : bool :=
  bool_decide (String.length seg = n) && all_chars is_hex seg.

(** A text at which a segment ends: the end of the input or a ['/']. *)
Definition at_boundary (t : string) : Prop :=
  t = "" \/ exists t', t = String "/" t'.

Definition placeholders : list string := ["{id}"; "{uuid}"; "{objectId}"; "{hash}"].

(** A rewriting of segments that leaves a segment as it is or puts a
    placeholder in its place. *)
Definition keeps_or_replaces (g : string -> string) : Prop :=
  forall seg, g seg = seg \/ g seg ∈ placeholders.

(** ** Arrays without repeated shapes *)

(** The loop over the elements of an array in [normalizeJsonStructure], on
    elements already normalised: an element stays iff its structure key is
    not in [seen] and is not the key of an element before it. *)
Fixpoint unique_structures (seen : gset string) (normalized : list json) : list json :=
  match normalized with
  | [] => []
  | element :: rest =>
      if bool_decide (getStructureKey element ∈ seen) then unique_structures seen rest
      else element :: unique_structures ({[getStructureKey element]} ∪ seen) rest
  end.

(** No object of the value has two members of one name, as in every value
    [JSON.parse] returns. *)
Fixpoint distinct_names (v : json) : Prop :=
  match v with
  | JArr items =>
      (fix all (l : list json) : Prop :=
         match l with
         | [] => True
         | x :: l' => distinct_names x /\ all l'
         end) items
  | JObj members =>
      NoDup (member_names members)
      /\ (fix all (l : list (string * json)) : Prop :=
            match l with
            | [] => True
            | (_, x) :: l' => distinct_names x /\ all l'
            end) members
  | _ => True
  end.

(** A JSON response that lists two objects of one shape. *)
Definition two_ids : string :=
  "[{" ++ quoted "id" ++ ":1},{" ++ quoted "id" ++ ":2}]".

Definition one_id_pretty : string :=
  "[" ++ newline ++ "  {" ++ newline ++ "    " ++ quoted "id" ++ ": 1" ++ newline
  ++ "  }" ++ newline ++ "]".

(** A response that is not JSON and has an empty body text. *)
Definition empty_plain : HARResponse := response_with 204 "text/plain" (Some "").

(** ** Structural similarity as the specification words it *)

Inductive json_type : Type :=
  | TNull | TBoolean | TNumber | TString | TArray | TObject.

Definition type_of (v : json) : json_type :=
  match v with
  | JNull => TNull
  | JBool _ => TBoolean
  | JNum _ => TNumber
  | JStr _ => TString
  | JArr _ => TArray
  | JObj _ => TObject
  end.

Definition primitive (v : json) : Prop :=
  match v with
  | JArr _ | JObj _ => False
  | _ => True
  end.

(** Two primitives of one type; two objects with the same sorted names
    whose values under each name are similar; two empty arrays; two
    non-empty arrays whose first elements are similar. *)
Inductive similar_as_stated : json -> json -> Prop :=
  | similar_primitives a b :
      primitive a -> primitive b -> type_of a = type_of b -> similar_as_stated a b
  | similar_objects members1 members2 :
      sort_strings (member_names members1) = sort_strings (member_names members2) ->
      (forall key v1 v2,
         prop key members1 = Some v1 -> prop key members2 = Some v2 ->
         similar_as_stated v1 v2) ->
      similar_as_stated (JObj members1) (JObj members2)
  | similar_empty_arrays : similar_as_stated (JArr []) (JArr [])
  | similar_first_elements first1 rest1 first2 rest2 :
      similar_as_stated first1 first2 ->
      similar_as_stated (JArr (first1 :: rest1)) (JArr (first2 :: rest2)).

(** The value holds no [null], at any depth. *)
Fixpoint null_free (v : json) : Prop :=
  match v with
  | JNull => False
  | JArr items =>
      (fix all (l : list json) : Prop :=
         match l with
         | [] => True
         | x :: l' => null_free x /\ all l'
         end) items
  | JObj members =>
      (fix all (l : list (string * json)) : Prop :=
         match l with
         | [] => True
         | (_, x) :: l' => null_free x /\ all l'
         end) members
  | _ => True
  end.

(** The two exchanges of the specification's structural scenario: the same
    call for user 1 and for user 2. *)
Definition user_json (id : string) (who : string) : string :=
  "{" ++ quoted "id" ++ ":" ++ id ++ "," ++ quoted "name" ++ ":" ++ quoted who ++ "}".

Definition user_exchange (id : string) (who : string) : HAREntry :=
  exchange
    (plain_request "GET" ("https://api.example.com/users/" ++ id)
       (Some {| postData_mimeType := "application/json";
                postData_text := user_json id who |}))
    (response_with 200 "application/json" (Some (user_json id who))).

(** The method and the hostname of the entry are no names of members of
    [Object.prototype]. *)
Definition plain_keys (URL_hostname : string -> exc string) (entry : HAREntry) : bool :=
  plain_key (method (request entry)) && plain_key (hostname_of URL_hostname entry).

(** The text starts with a digit or a minus sign. *)
Definition starts_numeric (s : string) : bool :=
  match s with
  | String c _ => is_digit c || bool_decide (c = "-"%char)
  | EmptyString => false
  end.

(** The members an object keeps when it is normalised: all but one named
    [__proto__], each with its value normalised. *)
Definition normalized_members (members : list (string * json)) : list (string * json) :=
  map (fun kv => (kv.1, normalizeJsonStructure kv.2))
    (filter (fun kv => kv.1 <> "__proto__") members).

(** No object of the value has a member named [__proto__]. *)
Fixpoint proto_free (v : json) : Prop :=
  match v with
  | JArr items =>
      (fix all (l : list json) : Prop :=
         match l with
         | [] => True
         | x :: l' => proto_free x /\ all l'
         end) items
  | JObj members =>
      ("__proto__" ∉ member_names members)
      /\ (fix all (l : list (string * json)) : Prop :=
            match l with
            | [] => True
            | (_, x) :: l' => proto_free x /\ all l'
            end) members
  | _ => True
  end.


(** ** Filtering ([filterEntries]) *)

(** A JavaScript [number] given as an option: a duration bound may be [NaN]
    (what [parseInt] returns on text that is no number). *)
Inductive number : Type :=
  | NaN
  | Num (q : Q).

(** [n] used as a condition: [NaN] and zero are falsy *)
Definition number_truthy (n : number) : bool :=
  match n with
  | NaN => false
  | Num q => negb (Qeq_bool q 0)
  end.

(** [a < b] *)
Definition Qltb (a b : Q) : bool := negb (Qle_bool b a).

(** The value of a binary64 number. *)
Inductive magnitude : Type :=
  | NotANumber
  | Infinite (negative : bool)
  | Finite (q : Q).

Definition magnitude_of (t : PrimFloat.float) : magnitude :=
  match FloatOps.Prim2SF t with
  | SpecFloat.S754_zero _ => Finite 0
  | SpecFloat.S754_infinity negative => Infinite negative
  | SpecFloat.S754_nan => NotANumber
  | SpecFloat.S754_finite negative m e =>
      Finite (inject_Z (if negative then Z.neg m else Z.pos m) * Qpower 2 e)
  end.

(** [t < n] and [t > n] for a duration [t]; a comparison with [NaN] is false *)
Definition below (t : PrimFloat.float) (n : number) : bool :=
  match n, magnitude_of t with
  | Num q, Finite v => Qltb v q
  | Num _, Infinite negative => negative
  | _, _ => false
  end.

Definition above (t : PrimFloat.float) (n : number) : bool :=
  match n, magnitude_of t with
  | Num q, Finite v => Qltb q v
  | Num _, Infinite negative => negb negative
  | _, _ => false
  end.

(** [codes.includes(status)] for an integer [status] *)
Definition includes_status (codes : list number) (code : Z) : bool :=
  existsb
    (fun n => match n with
              | NaN => false
              | Num q => Qeq_bool q (inject_Z code)
              end)
    codes.

(** The [options] object of [filterEntries]; [None] is a property left out. *)
Record FilterOptions : Type := {
  opt_methods : option (list string);
  opt_statusCodes : option (list number);
  opt_domains : option (list string);
  opt_excludeDomains : option (list string);
  opt_minDuration : option number;
  opt_maxDuration : option number;
  opt_deduplicate : option bool
}.

(** [{}] *)
Definition no_options : FilterOptions :=
  {| opt_methods := None; opt_statusCodes := None; opt_domains := None;
     opt_excludeDomains := None; opt_minDuration := None; opt_maxDuration := None;
     opt_deduplicate := None |}.

(** [xs.filter(callback)] for a callback that may raise *)
Fixpoint filter_exc {A} (callback : A -> exc bool) (xs : list A) : exc (list A) :=
  match xs with
  | [] => Ok []
  | x :: rest =>
      keep ← callback x;
      kept ← filter_exc callback rest;
      Ok (if keep : bool then x :: kept else kept)
  end.

Section with_JSON_and_URL.
Variable JSON_parse : string -> exc json.
Variable URL_hostname : string -> exc string.

(** The callback [filterEntries] hands to [filter]. *)
Definition filter_callback (options : FilterOptions) (entry : HAREntry) : exc bool :=
if match opt_methods options with
   | Some methods => negb (bool_decide (method (request entry) ∈ methods))
   | None => false
   end
then Ok false
else if match opt_statusCodes options with
        | Some statusCodes => negb (includes_status statusCodes (status (response entry)))
        | None => false
        end
then Ok false
else
  domain ← URL_hostname (url (request entry));
  if match opt_domains options with
     | Some domains => negb (existsb (fun d => includes d domain) domains)
     | None => false
     end
  then Ok false
  else if match opt_excludeDomains options with
          | Some excludeDomains => existsb (fun d => includes d domain) excludeDomains
          | None => false
          end
  then Ok false
  else if match opt_minDuration options with
          | Some minDuration => number_truthy minDuration && below (time entry) minDuration
          | None => false
          end
  then Ok false
  else if match opt_maxDuration options with
          | Some maxDuration => number_truthy maxDuration && above (time entry) maxDuration
          | None => false
          end
  then Ok false
  else Ok true.

(** [filterEntries(entries, options)] *)
Definition filterEntries (entries : list HAREntry) (options : FilterOptions)
: exc (list HAREntry) :=
filteredEntries ←
  (if negb (bool_decide (opt_deduplicate options = Some false))
   then deduplicateEntries JSON_parse entries
   else Ok entries);
filter_exc (filter_callback options) filteredEntries.

(** ** The filter chain of the command line

  The part of the [action] callback between reading the capture and
  printing: one call of [filterEntries] for each option given, then one
  more unless [--no-deduplicate] was given. An option of the record is
  [Some] when the command line gave it (a non-empty text) and holds what
  the code computes from the text before the call: the trimmed names, the
  results of [parseInt]. *)
Record CliOptions : Type := {
cli_methods : option (list string);
cli_status : option (list number);
cli_domains : option (list string);
cli_excludeDomains : option (list string);
cli_minDuration : option number;
cli_maxDuration : option number;
cli_deduplicate : bool
}.

(** [if (option) filteredEntries = filterEntries(filteredEntries, { .. })] *)
Definition cli_step {A} (given : option A) (options_of : A -> FilterOptions)
  (filteredEntries : list HAREntry) : exc (list HAREntry) :=
match given with
| Some a => filterEntries filteredEntries (options_of a)
| None => Ok filteredEntries
end.

Definition cli_filter (options : CliOptions) (entries : list HAREntry)
: exc (list HAREntry) :=
filteredEntries ←
  cli_step (cli_methods options)
    (fun methods =>
       {| opt_methods := Some methods; opt_statusCodes := None; opt_domains := None;
          opt_excludeDomains := None; opt_minDuration := None;
          opt_maxDuration := None; opt_deduplicate := None |})
    entries;
filteredEntries ←
  cli_step (cli_status options)
    (fun statusCodes =>
       {| opt_methods := None; opt_statusCodes := Some statusCodes;
          opt_domains := None; opt_excludeDomains := None; opt_minDuration := None;
          opt_maxDuration := None; opt_deduplicate := None |})
    filteredEntries;
filteredEntries ←
  cli_step (cli_domains options)
    (fun domains =>
       {| opt_methods := None; opt_statusCodes := None; opt_domains := Some domains;
          opt_excludeDomains := None; opt_minDuration := None;
          opt_maxDuration := None; opt_deduplicate := None |})
    filteredEntries;
filteredEntries ←
  cli_step (cli_excludeDomains options)
    (fun excludeDomains =>
       {| opt_methods := None; opt_statusCodes := None; opt_domains := None;
          opt_excludeDomains := Some excludeDomains; opt_minDuration := None;
          opt_maxDuration := None; opt_deduplicate := None |})
    filteredEntries;
filteredEntries ←
  cli_step (cli_minDuration options)
    (fun minDuration =>
       {| opt_methods := None; opt_statusCodes := None; opt_domains := None;
          opt_excludeDomains := None; opt_minDuration := Some minDuration;
          opt_maxDuration := None; opt_deduplicate := None |})
    filteredEntries;
filteredEntries ←
  cli_step (cli_maxDuration options)
    (fun maxDuration =>
       {| opt_methods := None; opt_statusCodes := None; opt_domains := None;
          opt_excludeDomains := None; opt_minDuration := None;
          opt_maxDuration := Some maxDuration; opt_deduplicate := None |})
    filteredEntries;
if cli_deduplicate options
then filterEntries filteredEntries
       {| opt_methods := None; opt_statusCodes := None; opt_domains := None;
          opt_excludeDomains := None; opt_minDuration := None;
          opt_maxDuration := None; opt_deduplicate := Some true |}
else Ok filteredEntries.
End with_JSON_and_URL.

(** ** Definitions used to state further properties *)

(** An option record with another upper or lower duration bound. *)
Definition with_maxDuration (options : FilterOptions) (bound : option number)
  : FilterOptions :=
  {| opt_methods := opt_methods options; opt_statusCodes := opt_statusCodes options;
     opt_domains := opt_domains options; opt_excludeDomains := opt_excludeDomains options;
     opt_minDuration := opt_minDuration options; opt_maxDuration := bound;
     opt_deduplicate := opt_deduplicate options |}.

Definition with_minDuration (options : FilterOptions) (bound : option number)
  : FilterOptions :=
  {| opt_methods := opt_methods options; opt_statusCodes := opt_statusCodes options;
     opt_domains := opt_domains options; opt_excludeDomains := opt_excludeDomains options;
     opt_minDuration := bound; opt_maxDuration := opt_maxDuration options;
     opt_deduplicate := opt_deduplicate options |}.

(** The entry gets past the method and the status test of the callback, so
    that its URL is parsed. *)
Definition reaches_URL (options : FilterOptions) (entry : HAREntry) : bool :=
  match opt_methods options with
  | Some methods => bool_decide (method (request entry) ∈ methods)
  | None => true
  end
  && match opt_statusCodes options with
     | Some statusCodes => includes_status statusCodes (status (response entry))
     | None => true
     end.

(** A list as a call of [filterEntries] that deduplicates leaves it: no
    entry similar to one before it, every URL accepted by the URL
    constructor. *)
Definition settled (JSON_parse : string -> exc json) (URL_hostname : string -> exc string)
    (entries : list HAREntry) : Prop :=
  pairwise_distinct JSON_parse entries
  /\ Forall (fun entry => returns (URL_hostname (url (request entry)))) entries.

(** Some filter option was given on the command line. *)
Definition some_filter_given (options : CliOptions) : Prop :=
  is_Some (cli_methods options) \/ is_Some (cli_status options)
  \/ is_Some (cli_domains options) \/ is_Some (cli_excludeDomains options)
  \/ is_Some (cli_minDuration options) \/ is_Some (cli_maxDuration options).

Definition with_deduplicate (options : CliOptions) (flag : bool) : CliOptions :=
  {| cli_methods := cli_methods options; cli_status := cli_status options;
     cli_domains := cli_domains options; cli_excludeDomains := cli_excludeDomains options;
     cli_minDuration := cli_minDuration options;
     cli_maxDuration := cli_maxDuration options; cli_deduplicate := flag |}.

(** A capture with a URL the URL model rejects. *)
Definition malformed : HAREntry :=
  exchange (plain_request "GET" "not a url" None)
    (response_with 200 "text/plain" (Some "ok")).

(** Option records used as examples. *)
Definition only_methods (methods : list string) : FilterOptions :=
  {| opt_methods := Some methods; opt_statusCodes := None; opt_domains := None;
     opt_excludeDomains := None; opt_minDuration := None; opt_maxDuration := None;
     opt_deduplicate := None |}.

Definition only_statusCodes (codes : list number) : FilterOptions :=
  {| opt_methods := None; opt_statusCodes := Some codes; opt_domains := None;
     opt_excludeDomains := None; opt_minDuration := None; opt_maxDuration := None;
     opt_deduplicate := None |}.

Definition without_deduplication : FilterOptions :=
  {| opt_methods := None; opt_statusCodes := None; opt_domains := None;
     opt_excludeDomains := None; opt_minDuration := None; opt_maxDuration := None;
     opt_deduplicate := Some false |}.

Definition cli_only_methods (methods : list string) : CliOptions :=
  {| cli_methods := Some methods; cli_status := None; cli_domains := None;
     cli_excludeDomains := None; cli_minDuration := None; cli_maxDuration := None;
     cli_deduplicate := true |}.

Definition two_users : list HAREntry := [user_exchange "1" "x"; user_exchange "2" "y"].

(** The five parts of a request that [areRequestsEqual] compares. *)
Definition signature_key (entry : HAREntry)
  : string * string * gmap string string * gmap string string * option string :=
  (method (request entry), url (request entry),
   collect_queryParams (queryString (request entry)),
   getStaticHeaders (collect_headers (headers (request entry))),
   request_body entry).

(** Two JSON responses that differ in one member: [null] in the first, an
    object in the second. *)
Definition user_missing : HAREntry :=
  exchange (plain_request "GET" "https://api.example.com/session" None)
    (response_with 200 "application/json" (Some ("{" ++ quoted "user" ++ ":null}")%string)).

Definition user_present : HAREntry :=
  exchange (plain_request "GET" "https://api.example.com/session" None)
    (response_with 200 "application/json"
       (Some ("{" ++ quoted "user" ++ ":{" ++ quoted "id" ++ ":1}}")%string)).

(** Every array of the value, at any depth, has elements of pairwise
    different structure keys. *)
Fixpoint arrays_distinct (v : json) : Prop :=
  match v with
  | JArr items =>
      NoDup (map getStructureKey items)
      /\ (fix all (l : list json) : Prop :=
            match l with
            | [] => True
            | x :: l' => arrays_distinct x /\ all l'
            end) items
  | JObj members =>
      (fix all (l : list (string * json)) : Prop :=
         match l with
         | [] => True
         | (_, x) :: l' => arrays_distinct x /\ all l'
         end) members
  | _ => True
  end.


(** A parsed listing: two records of one shape and a number. *)
Definition tagged_items : json :=
  JArr [JObj [("id", JNum 1); ("tags", JArr [JStr "a"; JStr "b"])];
        JObj [("id", JNum 2); ("tags", JArr [])];
        JNum 3].

(** The sum of the counts of a count object. *)
Definition total_count (counts : gmap string count) : nat :=
  map_fold (fun _ c acc => match c with
                           | CountNumber n => (n + acc)%nat
                           | CountText _ => acc
                           end) 0%nat counts.

(** The request carries an [Expires] header, in any case of the name. *)
Definition has_expires (entry : HAREntry) : bool :=
  bool_decide ("expires" ∈ map header_key (headers (request entry))).


(** * Properties *)

(** ** The error monad *)

Lemma returns_Ok {A} (a : A) : returns (Ok a).
Proof. by exists a. Qed.

Lemma try_catch_returns {A} (body handler : exc A) :
  returns handler -> returns (try_catch body handler).
Proof. destruct body; simpl; eauto using returns_Ok. Qed.

Lemma returns_holds (m : exc bool) : returns m -> m = Ok (holds m).
Proof. by intros [b ->]. Qed.

Create HintDb exc.
#[local] Hint Resolve returns_Ok try_catch_returns : exc.

(** ** The loops of the structural deduplicator *)

Section dedup_loops.
Variable JSON_parse : string -> exc json.

Lemma areBodiesSimilar_returns body1 body2 :
  returns (areBodiesSimilar JSON_parse body1 body2).
Proof.
  unfold areBodiesSimilar.
  destruct (falsy body1 && falsy body2); [auto with exc|].
  destruct (falsy body1 || falsy body2); auto with exc.
Qed.

Lemma areRequestsSemanticallySimilar_returns sig1 sig2 :
  returns (areRequestsSemanticallySimilar JSON_parse sig1 sig2).
Proof.
  unfold areRequestsSemanticallySimilar.
  destruct (areBodiesSimilar_returns (sig_body sig1) (sig_body sig2)) as [b ->].
  simpl. repeat case_match; auto with exc.
Qed.

Lemma areResponsesSemanticallySimilar_returns entry1 entry2 :
  returns (areResponsesSemanticallySimilar JSON_parse entry1 entry2).
Proof.
  unfold areResponsesSemanticallySimilar.
  repeat case_match; auto with exc.
Qed.

Lemma has_similar_existsb entry deduplicated :
  has_similar JSON_parse entry deduplicated
  = Ok (existsb (similar_pair JSON_parse entry) deduplicated).
Proof.
  induction deduplicated as [|existing rest IH]; [done|].
  simpl. unfold similar_pair at 1.
  rewrite (returns_holds _ (areRequestsSemanticallySimilar_returns _ _)).
  rewrite (returns_holds _ (areResponsesSemanticallySimilar_returns entry existing)).
  simpl. by case_match.
Qed.

Lemma deduplicateEntries_loop_kept_after entries deduplicated :
  deduplicateEntries_loop JSON_parse entries deduplicated
  = Ok (kept_after JSON_parse entries deduplicated).
Proof.
  revert deduplicated.
  induction entries as [|entry rest IH]; intros deduplicated; [done|].
  simpl. rewrite has_similar_existsb. simpl. by case_match.
Qed.

Lemma kept_after_app front back deduplicated :
  kept_after JSON_parse (front ++ back) deduplicated
  = kept_after JSON_parse back (kept_after JSON_parse front deduplicated).
Proof.
  revert deduplicated.
  induction front as [|entry front IH]; intros deduplicated; [done|].
  simpl. by case_match.
Qed.

Lemma kept_after_sublist entries deduplicated :
  exists added,
    kept_after JSON_parse entries deduplicated = deduplicated ++ added
    /\ added `sublist_of` entries.
Proof.
  revert deduplicated.
  induction entries as [|entry rest IH]; intros deduplicated; simpl.
  - exists []. by rewrite app_nil_r.
  - case_match.
    + destruct (IH deduplicated) as (added & -> & Hsub).
      exists added. split; [done|]. by apply sublist_cons.
    + destruct (IH (deduplicated ++ [entry])) as (added & -> & Hsub).
      exists (entry :: added). rewrite <-app_assoc. split; [done|].
      by apply sublist_skip.
Qed.

Lemma pairwise_distinct_snoc l entry :
  pairwise_distinct JSON_parse l ->
  existsb (similar_pair JSON_parse entry) l = false ->
  pairwise_distinct JSON_parse (l ++ [entry]).
Proof.
  intros Hl Hentry front e back Heq.
  destruct back as [|b back _] using rev_ind.
  - apply app_inj_tail in Heq as [-> ->]. done.
  - rewrite app_comm_cons, app_assoc in Heq.
    apply app_inj_tail in Heq as [-> _]. by eapply Hl.
Qed.

Lemma kept_after_distinct entries deduplicated :
  pairwise_distinct JSON_parse deduplicated ->
  pairwise_distinct JSON_parse (kept_after JSON_parse entries deduplicated).
Proof.
  revert deduplicated.
  induction entries as [|entry rest IH]; intros deduplicated Hd; [done|].
  simpl. case_match eqn:Hsim; [by apply IH|].
  apply IH. by apply pairwise_distinct_snoc.
Qed.

Lemma kept_after_fixed entries deduplicated :
  pairwise_distinct JSON_parse (deduplicated ++ entries) ->
  kept_after JSON_parse entries deduplicated = deduplicated ++ entries.
Proof.
  revert deduplicated.
  induction entries as [|entry rest IH]; intros deduplicated Hd; simpl.
  - by rewrite app_nil_r.
  - rewrite (Hd deduplicated entry rest eq_refl).
    rewrite IH; rewrite <-app_assoc; done.
Qed.

Lemma pairwise_distinct_nil : pairwise_distinct JSON_parse [].
Proof. intros [|??] ?? Heq; discriminate. Qed.
End dedup_loops.

(** C1. [deduplicateEntries] returns an ordered subsequence of its input in
    which an entry is kept exactly when no entry kept before it satisfies
    both the request and the response predicate: the empty capture gives the
    empty result, the result is a sublist of the input, and adding one entry
    at the end of the input keeps what was kept and appends the new entry
    iff none of the kept entries is similar to it. The input list itself is
    only read. *)
Theorem deduplicateEntries_first_seen_wins (JSON_parse : string -> exc json) :
  deduplicateEntries JSON_parse [] = Ok []
  /\ (forall entries, exists kept,
        deduplicateEntries JSON_parse entries = Ok kept
        /\ kept `sublist_of` entries)
  /\ (forall entries entry,
        deduplicateEntries JSON_parse (entries ++ [entry])
        = kept ← deduplicateEntries JSON_parse entries;
          Ok (if existsb (similar_pair JSON_parse entry) kept
              then kept else kept ++ [entry])).
Proof.
  unfold deduplicateEntries. split; [done|]. split.
  - intros entries. rewrite deduplicateEntries_loop_kept_after.
    destruct (kept_after_sublist JSON_parse entries []) as (added & Heq & Hsub).
    exists added. by rewrite Heq.
  - intros entries entry. rewrite !deduplicateEntries_loop_kept_after.
    rewrite kept_after_app. simpl. by case_match.
Qed.

(** C7. Running [deduplicateEntries] on its own result gives that result
    again. *)
Theorem deduplicateEntries_idempotent (JSON_parse : string -> exc json)
    (entries : list HAREntry) :
  (kept ← deduplicateEntries JSON_parse entries; deduplicateEntries JSON_parse kept)
  = deduplicateEntries JSON_parse entries.
Proof.
  unfold deduplicateEntries. rewrite deduplicateEntries_loop_kept_after. simpl.
  rewrite deduplicateEntries_loop_kept_after. f_equal.
  apply (kept_after_fixed JSON_parse _ []). simpl.
  apply kept_after_distinct, pairwise_distinct_nil.
Qed.


(** ** Unfolding [areJsonStructuresSimilar] *)

Lemma areJsonStructuresSimilar_objects members1 members2 :
  areJsonStructuresSimilar (JObj members1) (JObj members2)
  = let keys1 := sort_strings (member_names members1) in
    let keys2 := sort_strings (member_names members2) in
    if negb (bool_decide (length keys1 = length keys2)) then Ok false
    else if negb (keys_agree keys1 keys2) then Ok false
    else members_similar areJsonStructuresSimilar members1 members2 keys1.
Proof.
  cbn [areJsonStructuresSimilar typeof isArray]. cbv zeta.
  rewrite !bool_decide_eq_true_2 by done. cbn [negb].
  do 2 (case_match; [done|]).
  generalize (sort_strings (member_names members1)) as keys.
  induction keys as [|key keys IH]; [done|].
  cbn [members_similar]. rewrite <-IH. clear IH.
  f_equal.
  clear. induction members1 as [|[k v] ms IHms]; [done|].
  cbn [prop]. case_bool_decide; [done|]. apply IHms.
Qed.

Lemma areJsonStructuresSimilar_object_null members1 :
  areJsonStructuresSimilar (JObj members1) JNull = Throw TypeError.
Proof. done. Qed.

Lemma areJsonStructuresSimilar_null_object members2 :
  areJsonStructuresSimilar JNull (JObj members2) = Ok true.
Proof. done. Qed.

Lemma areJsonStructuresSimilar_arrays items1 items2 :
  areJsonStructuresSimilar (JArr items1) (JArr items2)
  = match items1, items2 with
    | [], [] => Ok true
    | first1 :: _, first2 :: _ => areJsonStructuresSimilar first1 first2
    | _, _ => Ok false
    end.
Proof. by destruct items1, items2. Qed.

(** ** Sorted key arrays *)

Lemma keys_agree_eq keys1 keys2 :
  length keys1 = length keys2 ->
  keys_agree keys1 keys2 = true <-> keys1 = keys2.
Proof.
  revert keys2.
  induction keys1 as [|k1 r1 IH]; intros [|k2 r2] Hlen; try discriminate; [done|].
  injection Hlen as Hlen. simpl.
  case_bool_decide as Hk.
  - subst k2. rewrite (IH r2 Hlen). split; [by intros ->|by intros [= ->]].
  - split; [done|]. by intros [= ? ?].
Qed.

(** The length test followed by the element-wise loop is equality of the two
    sorted arrays. *)
Lemma same_length_and_agree keys1 keys2 :
  (if negb (bool_decide (length keys1 = length keys2)) then false
   else keys_agree keys1 keys2) = bool_decide (keys1 = keys2).
Proof.
  case_bool_decide as Hlen; simpl.
  - apply eq_true_iff_eq.
    rewrite keys_agree_eq by done. by rewrite bool_decide_eq_true.
  - symmetry. apply bool_decide_eq_false. by intros ->.
Qed.

Lemma sort_strings_Permutation keys : sort_strings keys ≡ₚ keys.
Proof. apply merge_sort_Permutation. Qed.

Lemma sort_strings_unique keys1 keys2 :
  keys1 ≡ₚ keys2 -> sort_strings keys1 = sort_strings keys2.
Proof.
  intros Hperm. apply (Sorted_unique String.le).
  - apply Sorted_merge_sort, _.
  - apply Sorted_merge_sort, _.
  - by rewrite !sort_strings_Permutation.
Qed.

Lemma sort_strings_eq_iff keys1 keys2 :
  sort_strings keys1 = sort_strings keys2 <-> keys1 ≡ₚ keys2.
Proof.
  split; [|apply sort_strings_unique].
  intros Heq. by rewrite <-(sort_strings_Permutation keys1), Heq, sort_strings_Permutation.
Qed.

Lemma elem_of_map_to_list_keys (m : gmap string string) k :
  k ∈ map fst (map_to_list m) <-> k ∈ dom m.
Proof.
  change (map fst (map_to_list m)) with ((map_to_list m).*1).
  rewrite elem_of_dom, list_elem_of_fmap. split.
  - intros [[k' v] [-> Hin]]. apply elem_of_map_to_list in Hin. by exists v.
  - intros [v Hv]. exists (k, v). split; [done|]. by apply elem_of_map_to_list.
Qed.

Lemma sorted_keys_eq_dom (m1 m2 : gmap string string) :
  sorted_keys m1 = sorted_keys m2 <-> dom m1 = dom m2.
Proof.
  unfold sorted_keys. rewrite sort_strings_eq_iff. split.
  - intros Hperm. apply set_eq. intros k.
    by rewrite <-!elem_of_map_to_list_keys, Hperm.
  - intros Hdom. apply NoDup_Permutation.
    + apply (NoDup_fst_map_to_list m1).
    + apply (NoDup_fst_map_to_list m2).
    + intros k. by rewrite !elem_of_map_to_list_keys, Hdom.
Qed.

Lemma sorted_keys_length (m : gmap string string) :
  length (sorted_keys m) = size m.
Proof.
  unfold sorted_keys. rewrite sort_strings_Permutation.
  by rewrite length_map, length_map_to_list.
Qed.

Lemma elem_of_sorted_keys (m : gmap string string) k :
  k ∈ sorted_keys m <-> is_Some (m !! k).
Proof.
  unfold sorted_keys.
  by rewrite sort_strings_Permutation, elem_of_map_to_list_keys, elem_of_dom.
Qed.

Lemma areQueryParamsSimilar_dom params1 params2 :
  areQueryParamsSimilar params1 params2 = true <-> dom params1 = dom params2.
Proof.
  unfold areQueryParamsSimilar. cbv zeta.
  by rewrite same_length_and_agree, bool_decide_eq_true, sorted_keys_eq_dom.
Qed.

Lemma areHeadersSimilar_dom headers1 headers2 :
  areHeadersSimilar headers1 headers2 = true <-> dom headers1 = dom headers2.
Proof.
  unfold areHeadersSimilar. cbv zeta.
  by rewrite same_length_and_agree, bool_decide_eq_true, sorted_keys_eq_dom.
Qed.

(** The names collected from a header list and from a query string. *)
Lemma dom_assign (key value : string) (o : gmap string string) :
  dom (assign key value o)
  = if bool_decide (key = "__proto__") then dom o else {[key]} ∪ dom o.
Proof. unfold assign. case_bool_decide; [done|]. by rewrite dom_insert_L. Qed.

Lemma assign_lookup {A} (key : string) (value : A) (o : gmap string A) k :
  assign key value o !! k
  = if bool_decide (k = key /\ k <> "__proto__") then Some value else o !! k.
Proof.
  unfold assign. case_bool_decide as Hproto.
  - rewrite bool_decide_eq_false_2; [done|]. intros [-> ?]. done.
  - destruct (decide (k = key)) as [->|Hk].
    + rewrite lookup_insert_eq. by rewrite bool_decide_eq_true_2.
    + rewrite lookup_insert_ne by done. rewrite bool_decide_eq_false_2; [done|].
      by intros [? _].
Qed.

Lemma dom_collect_queryParams ps :
  dom (collect_queryParams ps)
  = list_to_set (filter (fun key => key <> "__proto__") (map name ps)).
Proof.
  unfold collect_queryParams.
  assert (forall acc : gmap string string,
    dom (fold_left (fun acc param => assign (name param) (value param) acc) ps acc)
    = list_to_set (filter (fun key => key <> "__proto__") (map name ps)) ∪ dom acc)
    as Hgen.
  { induction ps as [|p ps IH]; intros acc; simpl.
    - set_solver.
    - rewrite IH, dom_assign. case_bool_decide as Hproto.
      + rewrite filter_cons_False by (by intros ?). done.
      + rewrite filter_cons_True by done. set_solver. }
  rewrite Hgen, dom_empty_L. set_solver.
Qed.

Lemma dom_collect_headers hs :
  dom (collect_headers hs)
  = list_to_set
      (filter (fun key => isUselessHeader key = false /\ key <> "__proto__")
         (map header_key hs)).
Proof.
  unfold collect_headers.
  assert (forall acc : gmap string string,
    dom (fold_left
           (fun acc header =>
              let key := toLowerCase (name header) in
              if isUselessHeader key then acc else assign key (value header) acc)
           hs acc)
    = list_to_set
        (filter (fun key => isUselessHeader key = false /\ key <> "__proto__")
           (map header_key hs)) ∪ dom acc) as Hgen.
  { induction hs as [|h hs IH]; intros acc; simpl.
    - set_solver.
    - rewrite IH. unfold header_key at 2.
      destruct (isUselessHeader (toLowerCase (name h))) eqn:Hu.
      + rewrite filter_cons_False by (rewrite Hu; by intros [? _]). done.
      + rewrite dom_assign. case_bool_decide as Hproto.
        * rewrite filter_cons_False by (by intros [_ ?]). done.
        * rewrite filter_cons_True by done. set_solver. }
  rewrite Hgen, dom_empty_L. set_solver.
Qed.

Lemma filter_storable (P : string -> Prop) `{!forall key, Decision (P key)}
    (names : list string) :
  "__proto__" ∉ names ->
  filter (fun key => P key /\ key <> "__proto__") names = filter P names.
Proof.
  intros Hproto. induction names as [|key names IH]; [done|].
  apply not_elem_of_cons in Hproto as [Hkey Hproto].
  destruct (decide (P key)) as [HP|HP].
  - rewrite !filter_cons_True by done. by rewrite IH.
  - rewrite !filter_cons_False by tauto. by apply IH.
Qed.

Lemma filter_no_proto (names : list string) :
  "__proto__" ∉ names -> filter (fun key => key <> "__proto__") names = names.
Proof.
  intros Hproto. induction names as [|key names IH]; [done|].
  apply not_elem_of_cons in Hproto as [Hkey Hproto].
  rewrite filter_cons_True by done. by rewrite IH.
Qed.

(** ** A value is similar to itself *)

Lemma prop_member_names key members :
  key ∈ member_names members ->
  exists v, prop key members = Some v /\ (key, v) ∈ members.
Proof.
  induction members as [|[k v] ms IH]; simpl; [by intros ?%elem_of_nil|].
  intros Hin. case_bool_decide as Hk.
  - subst k. exists v. split; [done|]. apply list_elem_of_here.
  - apply elem_of_cons in Hin as [->|Hin]; [done|].
    destruct (IH Hin) as (w & Hw & Hmem). exists w. split; [done|].
    by apply list_elem_of_further.
Qed.

Lemma keys_agree_refl keys : keys_agree keys keys = true.
Proof. apply keys_agree_eq; done. Qed.

Lemma members_similar_refl members keys :
  Forall (fun kv => areJsonStructuresSimilar kv.2 kv.2 = Ok true) members ->
  Forall (fun key => key ∈ member_names members) keys ->
  members_similar areJsonStructuresSimilar members members keys = Ok true.
Proof.
  intros Hvalues. induction 1 as [|key keys Hkey _ IH]; [done|].
  simpl. destruct (prop_member_names _ _ Hkey) as (v & -> & Hmem).
  rewrite Forall_forall in Hvalues. specialize (Hvalues _ Hmem). simpl in Hvalues.
  rewrite Hvalues. simpl. apply IH.
Qed.

Lemma areJsonStructuresSimilar_refl v : areJsonStructuresSimilar v v = Ok true.
Proof.
  induction v as [| | | |items IH|members IH] using json_nested_ind; try done.
  - rewrite areJsonStructuresSimilar_arrays.
    destruct items as [|first rest]; [done|]. by inversion IH.
  - rewrite areJsonStructuresSimilar_objects. cbv zeta.
    rewrite bool_decide_eq_true_2 by done. rewrite keys_agree_refl. simpl.
    apply members_similar_refl; [done|].
    apply Forall_forall. intros key Hkey.
    by rewrite sort_strings_Permutation in Hkey.
Qed.

Lemma areJsonStructuresSimilar_raises_differ v1 v2 e :
  areJsonStructuresSimilar v1 v2 = Throw e -> v1 <> v2.
Proof. intros Hthrow ->. by rewrite areJsonStructuresSimilar_refl in Hthrow. Qed.


(** ** [areJsonStructuresSimilar] against the specification's wording *)

Lemma null_free_array items :
  null_free (JArr items) <-> Forall null_free items.
Proof.
  induction items as [|x items IH]; [by split; [constructor|]|].
  rewrite Forall_cons. cbn in *. by rewrite IH.
Qed.

Lemma null_free_object members :
  null_free (JObj members) <-> Forall (fun kv => null_free kv.2) members.
Proof.
  induction members as [|[k x] members IH]; [by split; [constructor|]|].
  rewrite Forall_cons. cbn in *. by rewrite IH.
Qed.

Lemma prop_Some_elem key members v :
  prop key members = Some v -> (key, v) ∈ members.
Proof.
  induction members as [|[k w] members IH]; [done|].
  cbn [prop]. case_bool_decide as Hk.
  - intros [= ->]. subst k. apply list_elem_of_here.
  - intros Hv. apply list_elem_of_further. by apply IH.
Qed.

Lemma prop_is_Some key members :
  is_Some (prop key members) <-> key ∈ member_names members.
Proof.
  split.
  - intros [v Hv]. apply prop_Some_elem in Hv.
    unfold member_names. apply list_elem_of_In, in_map_iff. exists (key, v).
    split; [done|]. by apply list_elem_of_In.
  - intros Hin. destruct (prop_member_names _ _ Hin) as (v & Hv & _). by exists v.
Qed.

Lemma members_similar_true similar members1 members2 keys :
  members_similar similar members1 members2 keys = Ok true
  <-> forall key, key ∈ keys ->
        exists v1 v2,
          prop key members1 = Some v1 /\ prop key members2 = Some v2
          /\ similar v1 v2 = Ok true.
Proof.
  induction keys as [|key keys IH].
  - split; [|done]. by intros _ key ?%elem_of_nil.
  - cbn [members_similar]. split.
    + intros Hall k Hk.
      destruct (prop key members1) as [v1|] eqn:H1; [|done].
      destruct (prop key members2) as [v2|] eqn:H2; [|done].
      destruct (similar v1 v2) as [[|]|e] eqn:Hsim; cbn in Hall; try done.
      apply elem_of_cons in Hk as [->|Hk].
      * exists v1, v2. done.
      * by apply IH.
    + intros Hall.
      destruct (Hall key) as (v1 & v2 & -> & -> & ->); [apply list_elem_of_here|].
      cbn. apply IH. intros k Hk. apply Hall. by apply list_elem_of_further.
Qed.

Lemma areJsonStructuresSimilar_as_stated a b :
  null_free a ->
  areJsonStructuresSimilar a b = Ok true <-> similar_as_stated a b.
Proof.
  revert b.
  induction a as [|x|n|s|items IH|members IH] using json_nested_ind;
    intros b Hfree; try done.
  - destruct b; (split; [try done; intros _; by constructor|]);
      inversion 1; simplify_eq/=; done.
  - destruct b; (split; [try done; intros _; by constructor|]);
      inversion 1; simplify_eq/=; done.
  - destruct b; (split; [try done; intros _; by constructor|]);
      inversion 1; simplify_eq/=; done.
  - apply null_free_array in Hfree.
    destruct b as [| | | |items2|members2];
      try (split; [done|]; inversion 1; simplify_eq/=; done).
    rewrite areJsonStructuresSimilar_arrays.
    destruct items as [|first1 rest1], items2 as [|first2 rest2].
    + split; [intros _; apply similar_empty_arrays|done].
    + split; [done|]. inversion 1; simplify_eq/=; done.
    + split; [done|]. inversion 1; simplify_eq/=; done.
    + apply Forall_cons in IH as [IHfirst _]. apply Forall_cons in Hfree as [Hfirst _].
      rewrite (IHfirst first2 Hfirst). split.
      * by apply similar_first_elements.
      * inversion 1; simplify_eq/=; done.
  - apply null_free_object in Hfree.
    destruct b as [| | | |items2|members2];
      try (split; [done|]; inversion 1; simplify_eq/=; done).
    rewrite areJsonStructuresSimilar_objects. cbv zeta.
    pose proof (same_length_and_agree
                  (sort_strings (member_names members))
                  (sort_strings (member_names members2))) as Hkeys.
    destruct (negb (bool_decide (length (sort_strings (member_names members))
                                 = length (sort_strings (member_names members2))))).
    { symmetry in Hkeys. apply bool_decide_eq_false in Hkeys.
      split; [done|]. inversion 1; simplify_eq/=; done. }
    destruct (keys_agree _ _); cbn [negb].
    2:{ symmetry in Hkeys. apply bool_decide_eq_false in Hkeys.
        split; [done|]. inversion 1; simplify_eq/=; done. }
    symmetry in Hkeys. apply bool_decide_eq_true in Hkeys.
    rewrite members_similar_true.
    assert (forall key v1 v2,
              prop key members = Some v1 ->
              areJsonStructuresSimilar v1 v2 = Ok true <-> similar_as_stated v1 v2)
      as Hvalues.
    { intros key v1 v2 Hv1. apply prop_Some_elem in Hv1.
      rewrite Forall_forall in IH, Hfree.
      apply (IH _ Hv1). apply (Hfree _ Hv1). }
    split.
    + intros Hall. apply similar_objects; [done|].
      intros key v1 v2 Hv1 Hv2.
      destruct (Hall key) as (w1 & w2 & Hw1 & Hw2 & Hsim).
      { rewrite sort_strings_Permutation. apply prop_is_Some. by exists v1. }
      rewrite Hv1 in Hw1. rewrite Hv2 in Hw2. simplify_eq.
      by apply (Hvalues key).
    + inversion 1 as [? ? Hp|? ? _ Hall| |]; simplify_eq/=; [done|].
      intros key Hkey.
      assert (is_Some (prop key members)) as [v1 Hv1].
      { apply prop_is_Some. by rewrite sort_strings_Permutation in Hkey. }
      assert (is_Some (prop key members2)) as [v2 Hv2].
      { apply prop_is_Some. rewrite Hkeys in Hkey.
        by rewrite sort_strings_Permutation in Hkey. }
      exists v1, v2. split; [done|]. split; [done|].
      apply (Hvalues key); [done|]. by apply (Hall key).
Qed.


(** C4. The code departs from the stated rule where [null] meets an object.
    With [null] first and an object second [areJsonStructuresSimilar]
    answers true, although the two are not similar as stated (they are
    neither two primitives nor two objects with the same names); with the
    object first it raises a [TypeError]; and the same happens under a
    shared member name. Whenever the first value holds no [null], the code
    answers true exactly when the two values are similar as stated; the
    four object examples of the statement come out as stated. *)
Theorem areJsonStructuresSimilar_null_against_object :
  areJsonStructuresSimilar JNull (JObj [("a", JNum 1)]) = Ok true
  /\ ~ similar_as_stated JNull (JObj [("a", JNum 1)])
  /\ areJsonStructuresSimilar (JObj [("a", JNum 1)]) JNull = Throw TypeError
  /\ areJsonStructuresSimilar
       (JObj [("user", JNull)]) (JObj [("user", JObj [("id", JNum 1)])]) = Ok true
  /\ areJsonStructuresSimilar
       (JObj [("user", JObj [("id", JNum 1)])]) (JObj [("user", JNull)]) = Throw TypeError
  /\ (forall a b,
        null_free a ->
        areJsonStructuresSimilar a b = Ok true <-> similar_as_stated a b)
  /\ areJsonStructuresSimilar
       (JObj [("a", JNum 1)]) (JObj [("a", JNum 1); ("b", JNum 2)]) = Ok false
  /\ areJsonStructuresSimilar (JObj [("a", JNum 1)]) (JObj [("b", JNum 1)]) = Ok false
  /\ areJsonStructuresSimilar (JObj [("a", JNum 1)]) (JObj [("a", JNum 2)]) = Ok true
  /\ areJsonStructuresSimilar (JObj [("a", JNum 1)]) (JObj [("a", JStr "x")]) = Ok false.
Proof.
  split; [done|]. split.
  { inversion 1; simplify_eq/=; done. }
  split; [done|]. split; [by vm_compute|]. split; [by vm_compute|].
  split; [exact areJsonStructuresSimilar_as_stated|].
  repeat split; by vm_compute.
Qed.


(** ** Request similarity *)

Section request_similarity.
Variable JSON_parse : string -> exc json.

Lemma strict_eq_true a b : strict_eq a b = true <-> a = b.
Proof. apply bool_decide_eq_true. Qed.

Lemma areBodiesSimilar_iff body1 body2 :
  holds (areBodiesSimilar JSON_parse body1 body2) = true
  <-> bodies_similar JSON_parse body1 body2.
Proof.
  unfold areBodiesSimilar, bodies_similar.
  destruct (falsy body1), (falsy body2); simpl; try done.
  destruct (JSON_parse_arg JSON_parse body1) as [json1|e1] eqn:H1; simpl;
    [|apply strict_eq_true].
  destruct (JSON_parse_arg JSON_parse body2) as [json2|e2] eqn:H2; simpl;
    [|apply strict_eq_true].
  destruct (areJsonStructuresSimilar json1 json2) as [r|e] eqn:Hsim; simpl.
  - split; congruence.
  - rewrite strict_eq_true. split; [|done].
    intros ->. rewrite H1 in H2. injection H2 as ->.
    by rewrite areJsonStructuresSimilar_refl in Hsim.
Qed.

Lemma storable_names_spec entry :
  storable_names entry = true
  <-> ("__proto__" ∉ map name (queryString (request entry)))
      /\ ("__proto__" ∉ map header_key (headers (request entry))).
Proof.
  unfold storable_names.
  rewrite andb_true_iff, !negb_true_iff, !bool_decide_eq_false. done.
Qed.

Lemma dom_queryParams_storable entry :
  storable_names entry = true ->
  dom (collect_queryParams (queryString (request entry))) = query_names entry.
Proof.
  intros [Hquery _]%storable_names_spec.
  by rewrite dom_collect_queryParams, filter_no_proto.
Qed.

Lemma dom_headers_storable entry :
  storable_names entry = true ->
  dom (collect_headers (headers (request entry))) = header_names entry.
Proof.
  intros [_ Hheaders]%storable_names_spec.
  by rewrite dom_collect_headers, filter_storable.
Qed.

Lemma areRequestsSemanticallySimilar_iff entry1 entry2 :
  storable_names entry1 = true -> storable_names entry2 = true ->
  holds (areRequestsSemanticallySimilar JSON_parse
           (createSemanticSignature entry1) (createSemanticSignature entry2)) = true
  <-> method (request entry1) = method (request entry2)
      /\ normalizeUrl (url (request entry1)) = normalizeUrl (url (request entry2))
      /\ query_names entry1 = query_names entry2
      /\ bodies_similar JSON_parse (request_body entry1) (request_body entry2)
      /\ header_names entry1 = header_names entry2.
Proof.
  intros Hstorable1 Hstorable2.
  unfold areRequestsSemanticallySimilar, createSemanticSignature. simpl.
  fold (request_body entry1) (request_body entry2).
  pose proof (areBodiesSimilar_iff (request_body entry1) (request_body entry2)) as Hb.
  destruct (areBodiesSimilar_returns JSON_parse (request_body entry1) (request_body entry2))
    as [b Hret].
  rewrite Hret in Hb |- *. simpl in Hb.
  pose proof (areQueryParamsSimilar_dom
                (collect_queryParams (queryString (request entry1)))
                (collect_queryParams (queryString (request entry2)))) as Hq.
  pose proof (areHeadersSimilar_dom
                (collect_headers (headers (request entry1)))
                (collect_headers (headers (request entry2)))) as Hh.
  rewrite !dom_queryParams_storable in Hq by done.
  rewrite !dom_headers_storable in Hh by done.
  repeat case_bool_decide; simpl; [|naive_solver..].
  destruct (areQueryParamsSimilar _ _); simpl; [|naive_solver].
  destruct b; simpl; [|naive_solver].
  destruct (areHeadersSimilar _ _); simpl; naive_solver.
Qed.
End request_similarity.

(** ** Response similarity *)

Section response_similarity.
Variable JSON_parse : string -> exc json.

Lemma hasJson_eq_iff c1 c2 :
  empty_against_non_json c1 c2 = false ->
  hasJson c1 = hasJson c2 <-> is_json c1 = is_json c2.
Proof.
  unfold empty_against_non_json, hasJson, is_json.
  repeat case_bool_decide; simpl.
  - intros _. replace (mimeType c1) with (mimeType c2) by congruence. done.
  - destruct (includes "json" (mimeType c2)) eqn:H2; simpl; [|done].
    intros _. replace (mimeType c1) with "" by done. done.
  - destruct (includes "json" (mimeType c1)) eqn:H1; simpl; [|done].
    intros _. replace (mimeType c2) with "" by done. done.
  - intros _. split; congruence.
Qed.

Lemma truthy_hasJson c : truthy (hasJson c) = is_json c.
Proof.
  unfold hasJson, is_json. case_bool_decide as Hm; [|done].
  by rewrite Hm.
Qed.

Lemma text_or_empty_object_eq t1 t2 :
  t1 = t2 -> text_or_empty_object t1 = text_or_empty_object t2.
Proof. by intros ->. Qed.

Lemma areResponsesSemanticallySimilar_iff entry1 entry2 :
  empty_against_non_json (content (response entry1)) (content (response entry2)) = false ->
  holds (areResponsesSemanticallySimilar JSON_parse entry1 entry2) = true
  <-> responses_similar JSON_parse entry1 entry2.
Proof.
  intros Hslip.
  unfold areResponsesSemanticallySimilar, responses_similar, response_text.
  pose proof (hasJson_eq_iff _ _ Hslip) as Hjson.
  rewrite !truthy_hasJson.
  case_bool_decide as Hstatus; simpl; [|naive_solver].
  case_bool_decide as Hhas; simpl; [|naive_solver].
  apply Hjson in Hhas. 
  destruct (is_json (content (response entry1)) && is_json (content (response entry2)));
    simpl; [|rewrite strict_eq_true; naive_solver].
  destruct (JSON_parse (text_or_empty_object (text (content (response entry1)))))
    as [json1|e1] eqn:H1; simpl; [|rewrite strict_eq_true; naive_solver].
  destruct (JSON_parse (text_or_empty_object (text (content (response entry2)))))
    as [json2|e2] eqn:H2; simpl; [|rewrite strict_eq_true; naive_solver].
  destruct (areJsonStructuresSimilar _ _) as [r|e] eqn:Hsim; simpl.
  - naive_solver.
  - rewrite strict_eq_true. split; [|naive_solver].
    intros Heq. apply text_or_empty_object_eq in Heq.
    rewrite Heq, H2 in H1. injection H1 as ->.
    by rewrite areJsonStructuresSimilar_refl in Hsim.
Qed.

(** In the case left out above the comparison is never reached. *)
Lemma empty_against_non_json_differ entry1 entry2 :
  empty_against_non_json (content (response entry1)) (content (response entry2)) = true ->
  areResponsesSemanticallySimilar JSON_parse entry1 entry2 = Ok false.
Proof.
  unfold empty_against_non_json, areResponsesSemanticallySimilar, hasJson, is_json.
  intros Hslip.
  destruct (bool_decide (status (response entry1) = status (response entry2)));
    simpl; [|done].
  destruct (bool_decide (mimeType (content (response entry1)) = ""));
    destruct (bool_decide (mimeType (content (response entry2)) = ""));
    simpl in *; done.
Qed.
End response_similarity.


(** ** The two predicates of the structural deduplicator *)

(** C2, as stated, fails: a request whose body text is present but empty and
    a request without a body are similar for the code, although exactly one
    of the two bodies is absent. *)
Lemma request_similarity_counterexample :
  holds (areRequestsSemanticallySimilar JSON_parse_model
           (createSemanticSignature posted_empty)
           (createSemanticSignature posted_nothing)) = true
  /\ request_body posted_empty = Some ""
  /\ request_body posted_nothing = None
  /\ ~ requests_similar_as_stated JSON_parse_model posted_empty posted_nothing.
Proof.
  split; [by vm_compute|]. split; [done|]. split; [done|].
  by intros (_ & _ & _ & Hbodies & _).
Qed.

(** C2, amended. Two exchanges none of whose query parameters and headers
    is named [__proto__] satisfy the request predicate of
    [deduplicateEntries] iff their methods are equal, their normalised URLs
    are equal as strings, the sets of their query parameter names are equal,
    the sets of their lower-cased header names outside the useless-header
    list are equal, and their bodies are similar, where a body is absent
    when it is missing or empty: both absent is similar, exactly one absent
    is not, and two present bodies are compared by
    [areJsonStructuresSimilar] when both parse and by string equality
    otherwise. *)
Theorem request_similarity (JSON_parse : string -> exc json)
    (entry1 entry2 : HAREntry) :
  storable_names entry1 = true ->
  storable_names entry2 = true ->
  holds (areRequestsSemanticallySimilar JSON_parse
           (createSemanticSignature entry1) (createSemanticSignature entry2)) = true
  <-> method (request entry1) = method (request entry2)
      /\ normalizeUrl (url (request entry1)) = normalizeUrl (url (request entry2))
      /\ query_names entry1 = query_names entry2
      /\ bodies_similar JSON_parse (request_body entry1) (request_body entry2)
      /\ header_names entry1 = header_names entry2.
Proof.
  intros Hstorable1 Hstorable2. split.
  - intros Hcode. by apply areRequestsSemanticallySimilar_iff.
  - intros Hspec. by apply areRequestsSemanticallySimilar_iff.
Qed.

Lemma request_similarity_witness :
  storable_names (user_exchange "1" "x") = true
  /\ storable_names (user_exchange "2" "y") = true
  /\ normalizeUrl (url (request (user_exchange "1" "x")))
     = normalizeUrl (url (request (user_exchange "2" "y")))
  /\ bodies_similar JSON_parse_model
       (request_body (user_exchange "1" "x")) (request_body (user_exchange "2" "y")).
Proof.
  split; [reflexivity|]. split; [reflexivity|].
  assert (holds (areRequestsSemanticallySimilar JSON_parse_model
                   (createSemanticSignature (user_exchange "1" "x"))
                   (createSemanticSignature (user_exchange "2" "y"))) = true) as Hcode.
  { vm_compute. reflexivity. }
  apply (request_similarity JSON_parse_model) in Hcode as (_ & Hurl & _ & Hbodies & _);
    [|reflexivity..].
  split; [exact Hurl|exact Hbodies].
Defined.

(** C3, as stated, fails: two JSON responses with equal status, one with an
    empty body text and one with the text [{}], are similar for the code;
    the empty text does not parse and the two raw texts differ. *)
Lemma response_similarity_counterexample :
  holds (areResponsesSemanticallySimilar JSON_parse_model
           answered_empty answered_empty_object) = true
  /\ JSON_parse_model "" = Throw SyntaxError
  /\ ~ responses_similar_as_stated JSON_parse_model answered_empty answered_empty_object.
Proof.
  split; [by vm_compute|]. split; [by vm_compute|].
  intros (_ & _ & Hbody). vm_compute in Hbody. discriminate.
Qed.

(** C3, amended. Two exchanges whose content types are not an empty one
    against a non-empty one without [json] satisfy the response predicate of
    [deduplicateEntries] iff their status codes are equal, both or neither
    content type contains [json], and: when both do, each body text, read
    as [{}] when it is missing or empty, is parsed, and if both parse the
    normalised values are compared by [areJsonStructuresSimilar], while if
    one does not parse the raw texts are compared for equality; when neither
    does, the raw texts are compared for equality, two missing texts being
    equal. *)
Theorem response_similarity (JSON_parse : string -> exc json)
    (entry1 entry2 : HAREntry) :
  empty_against_non_json (content (response entry1)) (content (response entry2)) = false ->
  holds (areResponsesSemanticallySimilar JSON_parse entry1 entry2) = true
  <-> responses_similar JSON_parse entry1 entry2.
Proof.
  intros Hslip. split.
  - intros Hcode. by apply areResponsesSemanticallySimilar_iff.
  - intros Hspec. by apply areResponsesSemanticallySimilar_iff.
Qed.

Lemma response_similarity_witness :
  empty_against_non_json
    (content (response answered_empty)) (content (response answered_empty_object)) = false
  /\ (holds (areResponsesSemanticallySimilar JSON_parse_model
               answered_empty answered_empty_object) = true
      <-> responses_similar JSON_parse_model answered_empty answered_empty_object).
Proof.
  split; [reflexivity|].
  apply (response_similarity JSON_parse_model answered_empty answered_empty_object).
  reflexivity.
Defined.

(** C8. [deduplicateEntries] and its two comparison paths return for every
    input and every behaviour of [JSON.parse]: nothing they raise escapes.
    When both responses have a JSON content type and one body does not
    parse, the result is the equality of the raw texts; when both request
    bodies are present and one does not parse, or both parse and the second
    yields [null] against an object, the result is the equality of the two
    body texts. *)
Theorem deduplicateEntries_never_raises (JSON_parse : string -> exc json) :
  (forall entries, returns (deduplicateEntries JSON_parse entries))
  /\ (forall body1 body2, returns (areBodiesSimilar JSON_parse body1 body2))
  /\ (forall entry1 entry2,
        returns (areResponsesSemanticallySimilar JSON_parse entry1 entry2))
  /\ (forall entry1 entry2,
        status (response entry1) = status (response entry2) ->
        is_json (content (response entry1)) = true ->
        is_json (content (response entry2)) = true ->
        ~ returns (JSON_parse (text_or_empty_object (response_text entry1)))
        \/ ~ returns (JSON_parse (text_or_empty_object (response_text entry2))) ->
        areResponsesSemanticallySimilar JSON_parse entry1 entry2
        = Ok (strict_eq (response_text entry1) (response_text entry2)))
  /\ (forall body1 body2,
        falsy body1 = false -> falsy body2 = false ->
        ~ returns (JSON_parse_arg JSON_parse body1)
        \/ ~ returns (JSON_parse_arg JSON_parse body2) ->
        areBodiesSimilar JSON_parse body1 body2 = Ok (strict_eq body1 body2))
  /\ (forall body1 body2 members,
        falsy body1 = false -> falsy body2 = false ->
        JSON_parse_arg JSON_parse body1 = Ok (JObj members) ->
        JSON_parse_arg JSON_parse body2 = Ok JNull ->
        areBodiesSimilar JSON_parse body1 body2 = Ok (strict_eq body1 body2)).
Proof.
  split; [|split; [|split; [|split; [|split]]]].
  - intros entries. unfold deduplicateEntries.
    rewrite deduplicateEntries_loop_kept_after. apply returns_Ok.
  - apply areBodiesSimilar_returns.
  - apply areResponsesSemanticallySimilar_returns.
  - intros entry1 entry2 Hstatus Hjson1 Hjson2 Hfail.
    unfold areResponsesSemanticallySimilar, response_text in *.
    rewrite bool_decide_eq_true_2 by done. simpl.
    assert (hasJson (content (response entry1)) = HasJsonBool true) as ->.
    { unfold hasJson, is_json in *. case_bool_decide as Hm; [|by rewrite Hjson1].
      rewrite Hm in Hjson1. discriminate. }
    assert (hasJson (content (response entry2)) = HasJsonBool true) as ->.
    { unfold hasJson, is_json in *. case_bool_decide as Hm; [|by rewrite Hjson2].
      rewrite Hm in Hjson2. discriminate. }
    simpl.
    destruct (JSON_parse (text_or_empty_object (text (content (response entry1)))))
      as [json1|e1]; simpl; [|done].
    destruct (JSON_parse (text_or_empty_object (text (content (response entry2)))))
      as [json2|e2]; simpl; [|done].
    destruct Hfail as [Hfail|Hfail]; destruct Hfail; apply returns_Ok.
  - intros body1 body2 Hbody1 Hbody2 Hfail. unfold areBodiesSimilar.
    rewrite Hbody1, Hbody2. simpl.
    destruct (JSON_parse_arg JSON_parse body1) as [json1|e1]; simpl; [|done].
    destruct (JSON_parse_arg JSON_parse body2) as [json2|e2]; simpl; [|done].
    destruct Hfail as [Hfail|Hfail]; destruct Hfail; apply returns_Ok.
  - intros body1 body2 members Hbody1 Hbody2 Hparse1 Hparse2. unfold areBodiesSimilar.
    rewrite Hbody1, Hbody2, Hparse1, Hparse2. done.
Qed.

Lemma deduplicateEntries_never_raises_witness :
  ~ returns (JSON_parse_model (text_or_empty_object (response_text answered_garbage)))
  /\ areResponsesSemanticallySimilar JSON_parse_model answered_garbage answered_empty_object
     = Ok false.
Proof.
  assert (~ returns
            (JSON_parse_model (text_or_empty_object (response_text answered_garbage))))
    as Hfail.
  { intros [v Hv]. vm_compute in Hv. discriminate. }
  split; [exact Hfail|].
  destruct (deduplicateEntries_never_raises JSON_parse_model) as (_ & _ & _ & Hfallback & _).
  apply (Hfallback answered_garbage answered_empty_object);
    [reflexivity|reflexivity|reflexivity|].
  left. exact Hfail.
Defined.


(** ** The exact deduplicator *)

Lemma values_agree_subseteq (m1 m2 : gmap string string) :
  values_agree (sorted_keys m1) m1 m2 = true <-> m1 ⊆ m2.
Proof.
  unfold values_agree. rewrite forallb_forall, map_subseteq_spec. split.
  - intros Hall k v Hk.
    assert (In k (sorted_keys m1)) as Hin.
    { apply list_elem_of_In, elem_of_sorted_keys. by exists v. }
    apply Hall in Hin. apply bool_decide_eq_true in Hin. congruence.
  - intros Hsub k Hin. apply bool_decide_eq_true.
    apply list_elem_of_In, elem_of_sorted_keys in Hin as [v Hv].
    rewrite Hv. symmetry. by apply Hsub.
Qed.

(** The length test followed by the value loop is equality of the maps. *)
Lemma same_size_and_values (m1 m2 : gmap string string) (then_ : bool) :
  (if negb (bool_decide (length (sorted_keys m1) = length (sorted_keys m2))) then false
   else if negb (values_agree (sorted_keys m1) m1 m2) then false else then_)
  = bool_decide (m1 = m2) && then_.
Proof.
  rewrite !sorted_keys_length.
  destruct (bool_decide (size m1 = size m2)) eqn:Hsize; simpl.
  - apply bool_decide_eq_true in Hsize.
    destruct (values_agree (sorted_keys m1) m1 m2) eqn:Hvalues; simpl.
    + apply values_agree_subseteq in Hvalues.
      rewrite bool_decide_eq_true_2; [done|].
      apply map_subseteq_size_eq; [done|lia].
    + rewrite bool_decide_eq_false_2; [done|].
      intros ->. rewrite (proj2 (values_agree_subseteq m2 m2)) in Hvalues; done.
  - apply bool_decide_eq_false in Hsize.
    rewrite bool_decide_eq_false_2; [done|]. by intros ->.
Qed.

Lemma areRequestsEqual_iff sig1 sig2 :
  areRequestsEqual sig1 sig2 = true <-> identical_signatures sig1 sig2.
Proof.
  unfold areRequestsEqual, identical_signatures, strict_eq. cbv zeta.
  rewrite !same_size_and_values.
  repeat case_bool_decide; simpl; naive_solver.
Qed.

Lemma existsb_over_map {A B} (f : B -> bool) (g : A -> B) (l : list A) :
  existsb f (map g l) = existsb (fun x => f (g x)) l.
Proof. induction l as [|x l IH]; [done|]. simpl. by rewrite IH. Qed.

Lemma removeExactDuplicates_loop_kept entries deduplicated :
  removeExactDuplicates_loop entries (map createRequestSignature deduplicated) deduplicated
  = exact_kept_after entries deduplicated.
Proof.
  revert deduplicated.
  induction entries as [|entry rest IH]; intros deduplicated; [done|].
  simpl. rewrite existsb_over_map. case_match; [apply IH|].
  rewrite <-IH. by rewrite map_app.
Qed.

Lemma removeExactDuplicates_kept entries :
  removeExactDuplicates entries = exact_kept_after entries [].
Proof. exact (removeExactDuplicates_loop_kept entries []). Qed.


Lemma exact_kept_after_sublist entries deduplicated :
  exists added,
    exact_kept_after entries deduplicated = deduplicated ++ added
    /\ added `sublist_of` entries.
Proof.
  revert deduplicated.
  induction entries as [|entry rest IH]; intros deduplicated; simpl.
  - exists []. by rewrite app_nil_r.
  - case_match.
    + destruct (IH deduplicated) as (added & -> & Hsub).
      exists added. split; [done|]. by apply sublist_cons.
    + destruct (IH (deduplicated ++ [entry])) as (added & -> & Hsub).
      exists (entry :: added). rewrite <-app_assoc. split; [done|].
      by apply sublist_skip.
Qed.

(** What the two collected maps hold under a key. *)
Lemma collect_queryParams_snoc ps p :
  collect_queryParams (ps ++ [p]) = assign (name p) (value p) (collect_queryParams ps).
Proof. unfold collect_queryParams. by rewrite fold_left_app. Qed.

Lemma collect_headers_snoc hs h :
  collect_headers (hs ++ [h])
  = if isUselessHeader (header_key h) then collect_headers hs
    else assign (header_key h) (value h) (collect_headers hs).
Proof. unfold collect_headers. by rewrite fold_left_app. Qed.

Lemma last_under_snoc {A} (key_of : A -> string) key (l : list A) x :
  last_under key_of key (l ++ [x])
  = if bool_decide (key_of x = key) then Some x else last_under key_of key l.
Proof.
  unfold last_under. rewrite filter_app, filter_cons, filter_nil.
  case_bool_decide as Hx.
  - rewrite decide_True by done. apply last_snoc.
  - rewrite decide_False by done. by rewrite app_nil_r.
Qed.

Lemma collect_queryParams_lookup ps key :
  collect_queryParams ps !! key
  = if bool_decide (key = "__proto__") then None
    else value <$> last_under name key ps.
Proof.
  induction ps as [|p ps IH] using rev_ind; [by case_bool_decide|].
  rewrite collect_queryParams_snoc, assign_lookup, last_under_snoc, IH.
  repeat case_bool_decide; try done; naive_solver.
Qed.

Lemma collect_headers_lookup hs key :
  collect_headers hs !! key
  = if isUselessHeader key || bool_decide (key = "__proto__") then None
    else value <$> last_under header_key key hs.
Proof.
  induction hs as [|h hs IH] using rev_ind.
  { unfold collect_headers. cbn [fold_left]. rewrite lookup_empty. by case_match. }
  rewrite collect_headers_snoc, last_under_snoc.
  destruct (isUselessHeader (header_key h)) eqn:Hu.
  - rewrite IH. destruct (decide (header_key h = key)) as [<-|Hkey].
    + by rewrite Hu.
    + by rewrite (bool_decide_eq_false_2 (header_key h = key)).
  - rewrite assign_lookup, IH.
    destruct (isUselessHeader key) eqn:Hukey; cbn [orb].
    + rewrite bool_decide_eq_false_2; [done|]. intros [-> _]. congruence.
    + repeat case_bool_decide; try done; naive_solver.
Qed.

Lemma lower_ascii_idemp c : lower_ascii (lower_ascii c) = lower_ascii c.
Proof. by destruct c as [[] [] [] [] [] [] [] []]. Qed.

Lemma toLowerCase_idemp s : toLowerCase (toLowerCase s) = toLowerCase s.
Proof.
  induction s as [|c s IH]; [done|]. simpl. by rewrite lower_ascii_idemp, IH.
Qed.

(** Every key of a header map is a lower-cased name. *)
Lemma collect_headers_keys hs key v :
  collect_headers hs !! key = Some v -> toLowerCase key = key.
Proof.
  rewrite collect_headers_lookup. case_match; [done|].
  unfold last_under. destruct (last _) as [header|] eqn:Hlast; [|done].
  intros _. apply last_Some_elem_of, list_elem_of_filter in Hlast as [<- _].
  apply toLowerCase_idemp.
Qed.

(** The static header map of a signature: the last value of each lower-cased
    header name that is in neither table. *)
Lemma static_headers_lookup hs key :
  getStaticHeaders (collect_headers hs) !! key
  = if bool_decide (key ∈ uselessHeaders) || bool_decide (key ∈ dynamicHeaders)
       || bool_decide (key = "__proto__")
    then None else value <$> last_under header_key key hs.
Proof.
  unfold getStaticHeaders.
  pose proof (collect_headers_lookup hs key) as Hlookup.
  unfold isUselessHeader in Hlookup.
  destruct (collect_headers hs !! key) as [v|] eqn:Hkey.
  - pose proof (collect_headers_keys _ _ _ Hkey) as Hlower.
    destruct (bool_decide (key ∈ uselessHeaders)); [done|].
    destruct (bool_decide (key = "__proto__")) eqn:Hproto; [done|].
    apply bool_decide_eq_false in Hproto. cbn [orb] in *. rewrite orb_false_r.
    case_bool_decide as Hdynamic.
    + apply map_lookup_filter_None. right. intros w _ [Hd _]. cbn [fst] in Hd.
      by rewrite Hlower in Hd.
    + rewrite <-Hlookup. apply map_lookup_filter_Some. split; [done|]. cbn [fst].
      split; [by rewrite Hlower|done].
  - rewrite map_lookup_filter_None_2 by (by left).
    destruct (bool_decide (key ∈ uselessHeaders)); [done|].
    destruct (bool_decide (key = "__proto__")); [by rewrite orb_true_r|].
    cbn [orb] in *. rewrite orb_false_r. by case_match.
Qed.



(** ** The summary *)

Lemma plain_key_spec key :
  plain_key key = true -> Object_prototype_text key = None /\ key <> "__proto__".
Proof.
  unfold plain_key, Object_prototype_text.
  rewrite negb_true_iff, bool_decide_eq_false, not_elem_of_cons.
  intros [Hproto Hfunction].
  by rewrite (bool_decide_eq_false_2 _ Hfunction), (bool_decide_eq_false_2 _ Hproto).
Qed.

Lemma starts_numeric_plain s : starts_numeric s = true -> plain_key s = true.
Proof.
  intros Hs. unfold plain_key. apply negb_true_iff, bool_decide_eq_false.
  unfold Object_prototype_functions. rewrite !elem_of_cons, elem_of_nil.
  intros Hin. repeat destruct Hin as [->|Hin]; done.
Qed.

Lemma pretty_N_char_digit x : is_digit (pretty_N_char x) = true.
Proof. unfold pretty_N_char. by repeat case_match. Qed.

Lemma pretty_N_go_numeric x s :
  starts_numeric s = true -> starts_numeric (pretty_N_go x s) = true.
Proof.
  revert s. induction (N.lt_wf_0 x) as [x _ IH]; intros s Hs.
  destruct (decide (x = 0)%N) as [->|Hx]; [by rewrite pretty_N_go_0|].
  rewrite pretty_N_go_step by lia. apply IH.
  - apply N.div_lt; lia.
  - cbn [starts_numeric]. by rewrite pretty_N_char_digit.
Qed.

Lemma pretty_N_numeric (x : N) : starts_numeric (pretty x) = true.
Proof.
  unfold pretty, pretty_N. case_decide as Hx; [done|].
  rewrite pretty_N_go_step by lia. apply pretty_N_go_numeric.
  cbn [starts_numeric]. by rewrite pretty_N_char_digit.
Qed.

(** The decimal text of a status code is no name of a member of
    [Object.prototype]. *)
Lemma pretty_Z_plain (code : Z) : plain_key (pretty code) = true.
Proof.
  apply starts_numeric_plain. destruct code as [|p|p]; [done| |done].
  apply (pretty_N_numeric (N.pos p)).
Qed.

Lemma count_one_lookup key counts k :
  plain_key key = true ->
  count_one key counts !! k
  = if decide (key = k) then Some (incremented key counts) else counts !! k.
Proof.
  intros [_ Hproto]%plain_key_spec. unfold count_one. rewrite assign_lookup.
  case_decide as Hk.
  - subst k. by rewrite bool_decide_eq_true_2.
  - rewrite bool_decide_eq_false_2; [done|]. by intros [-> _].
Qed.

Lemma tally_by_snoc key_of entries entry counts :
  tally_by key_of (entries ++ [entry]) counts
  = count_one (key_of entry) (tally_by key_of entries counts).
Proof. unfold tally_by. by rewrite fold_left_app. Qed.

Lemma occurrences_snoc key_of key entries entry :
  occurrences key_of key (entries ++ [entry])
  = (occurrences key_of key entries + if decide (key_of entry = key) then 1 else 0)%nat.
Proof.
  unfold occurrences. rewrite filter_app, length_app, filter_cons, filter_nil.
  by case_decide.
Qed.

Lemma tally_by_empty key_of entries k :
  Forall (fun entry => plain_key (key_of entry) = true) entries ->
  tally_by key_of entries ∅ !! k = counted (occurrences key_of k entries).
Proof.
  induction entries as [|entry entries IH] using rev_ind; intros Hplain; [done|].
  apply Forall_app in Hplain as [Hentries [Hentry _]%Forall_cons].
  specialize (IH Hentries).
  rewrite tally_by_snoc, occurrences_snoc, count_one_lookup by done.
  case_decide as Hk.
  - subst k. unfold incremented. rewrite IH.
    destruct (occurrences key_of (key_of entry) entries) as [|n]; cbn [counted].
    + by destruct (plain_key_spec _ Hentry) as [-> _].
    + rewrite Nat.add_1_r. done.
  - by rewrite IH, Nat.add_0_r.
Qed.

Lemma fold_durations entries (total : PrimFloat.float) :
  fold_left (fun acc entry => PrimFloat.add acc (time entry)) entries total
  = fold_left PrimFloat.add (map time entries) total.
Proof.
  revert total. induction entries as [|entry rest IH]; intros total; [done|]. apply IH.
Qed.

Section summary.
Variable URL_hostname : string -> exc string.

Lemma tally_entries_ok entries t :
  Forall (fun entry => returns (URL_hostname (url (request entry)))) entries ->
  tally_entries URL_hostname t entries
  = Ok {| tally_methods :=
            tally_by (fun entry => method (request entry)) entries (tally_methods t);
          tally_statusCodes :=
            tally_by (fun entry => pretty (status (response entry))) entries
              (tally_statusCodes t);
          tally_domains :=
            tally_by (hostname_of URL_hostname) entries (tally_domains t);
          tally_totalDuration :=
            fold_left (fun acc entry => PrimFloat.add acc (time entry)) entries
              (tally_totalDuration t) |}.
Proof.
  intros Hall. revert t.
  induction Hall as [|entry rest [domain Hdomain] _ IH]; intros t; [by destruct t|].
  cbn [tally_entries]. unfold tally_entry. rewrite Hdomain. cbn [mbind exc_bind].
  rewrite IH. unfold tally_by, hostname_of. cbn [fold_left]. by rewrite Hdomain.
Qed.

Lemma tally_entries_raises entries t front entry back e :
  entries = front ++ entry :: back ->
  Forall (fun entry => returns (URL_hostname (url (request entry)))) front ->
  URL_hostname (url (request entry)) = Throw e ->
  tally_entries URL_hostname t entries = Throw e.
Proof.
  intros -> Hfront Hentry. revert t.
  induction Hfront as [|x front [domain Hdomain] _ IH]; intros t.
  - simpl. unfold tally_entry. by rewrite Hentry.
  - simpl. unfold tally_entry at 1. rewrite Hdomain. simpl. apply IH.
Qed.

Lemma generateSummary_ok entries :
  Forall (fun entry => returns (URL_hostname (url (request entry)))) entries ->
  generateSummary URL_hostname entries
  = Ok {| totalRequests := length entries;
          methods := tally_by (fun entry => method (request entry)) entries ∅;
          statusCodes :=
            tally_by (fun entry => pretty (status (response entry))) entries ∅;
          domains := tally_by (hostname_of URL_hostname) entries ∅;
          averageDuration :=
            if (0 <? length entries)%nat
            then PrimFloat.div (sum_durations entries)
                   (number_of_length (length entries))
            else 0%float;
          totalDuration := sum_durations entries |}.
Proof.
  intros Hall. unfold generateSummary.
  rewrite (tally_entries_ok entries _ Hall). cbn [mbind exc_bind].
  cbn [tally_methods tally_statusCodes tally_domains tally_totalDuration].
  by rewrite fold_durations.
Qed.
End summary.

Lemma occurrences_status code entries :
  occurrences (fun entry => pretty (status (response entry))) (pretty code) entries
  = length (filter (fun entry => status (response entry) = code) entries).
Proof.
  unfold occurrences. induction entries as [|entry rest IH]; [done|].
  destruct (decide (status (response entry) = code)) as [Hc|Hc].
  - rewrite !filter_cons_True by (by rewrite ?Hc). simpl. by rewrite IH.
  - rewrite !filter_cons_False; [done|done|].
    intros Heq. by apply (inj pretty) in Heq.
Qed.

(** C9, as stated, fails: [generateSummary] does not return a summary for
    every capture. A request URL that the URL constructor rejects makes it
    raise. *)
Lemma generateSummary_counterexample :
  URL_hostname_model (url (request malformed)) = Throw TypeError
  /\ generateSummary URL_hostname_model [timed 100; malformed] = Throw TypeError.
Proof. split; by vm_compute. Qed.

(** C9, amended. On the empty capture [generateSummary] returns zero
    requests, three empty count objects, total duration 0 and, by its guard,
    average duration 0. On a capture whose request URLs all parse and none
    of whose methods and hostnames is the name of a member of
    [Object.prototype], it returns the number of entries, the sum of their
    durations (added in floating point in the order of the capture), that
    sum divided by the number of entries, and for each method, each status
    code (filed under its decimal text) and each hostname the number of
    entries that have it, a key that never occurs being absent. For three
    entries with durations 100, 200 and 300 whose URLs parse the total is
    600 and the average 200. A URL that does not parse makes the call raise
    what the URL constructor raised. *)
Theorem generateSummary_counts (URL_hostname : string -> exc string) :
  generateSummary URL_hostname []
  = Ok {| totalRequests := 0; methods := ∅; statusCodes := ∅; domains := ∅;
          averageDuration := 0; totalDuration := 0 |}
  /\ (forall entries,
        Forall (fun entry => returns (URL_hostname (url (request entry)))) entries ->
        Forall (fun entry => plain_keys URL_hostname entry = true) entries ->
        exists summary,
          generateSummary URL_hostname entries = Ok summary
          /\ totalRequests summary = length entries
          /\ totalDuration summary = sum_durations entries
          /\ averageDuration summary
             = match entries with
               | [] => 0%float
               | _ :: _ =>
                   PrimFloat.div (totalDuration summary)
                     (number_of_length (length entries))
               end
          /\ (forall m,
                methods summary !! m
                = counted (occurrences (fun entry => method (request entry)) m entries))
          /\ (forall key,
                statusCodes summary !! key
                = counted (occurrences (fun entry => pretty (status (response entry)))
                             key entries))
          /\ (forall code : Z,
                statusCodes summary !! pretty code
                = counted (length (filter (fun entry => status (response entry) = code)
                                     entries)))
          /\ (forall domain,
                domains summary !! domain
                = counted (occurrences (hostname_of URL_hostname) domain entries)))
  /\ (forall entry1 entry2 entry3,
        time entry1 = 100%float -> time entry2 = 200%float -> time entry3 = 300%float ->
        Forall (fun entry => returns (URL_hostname (url (request entry))))
          [entry1; entry2; entry3] ->
        exists summary,
          generateSummary URL_hostname [entry1; entry2; entry3] = Ok summary
          /\ totalRequests summary = 3%nat
          /\ totalDuration summary = 600%float
          /\ averageDuration summary = 200%float)
  /\ (forall front entry back e,
        Forall (fun entry => returns (URL_hostname (url (request entry)))) front ->
        URL_hostname (url (request entry)) = Throw e ->
        generateSummary URL_hostname (front ++ entry :: back) = Throw e).
Proof.
  split; [done|]. split; [|split].
  - intros entries Hall Hplain.
    rewrite (generateSummary_ok URL_hostname entries Hall).
    eexists. split; [reflexivity|].
    cbn [totalRequests totalDuration averageDuration methods statusCodes domains].
    assert (forall key,
              tally_by (fun entry => pretty (status (response entry))) entries ∅ !! key
              = counted (occurrences (fun entry => pretty (status (response entry)))
                           key entries)) as Hstatus.
    { intros key. apply tally_by_empty. apply Forall_forall. intros entry _.
      apply pretty_Z_plain. }
    split; [done|]. split; [done|]. split; [by destruct entries|].
    split; [|split; [exact Hstatus|split]].
    + intros m. apply tally_by_empty.
      eapply Forall_impl; [exact Hplain|]. intros entry.
      unfold plain_keys. by intros [? _]%andb_true_iff.
    + intros code. by rewrite Hstatus, occurrences_status.
    + intros domain. apply tally_by_empty.
      eapply Forall_impl; [exact Hplain|]. intros entry.
      unfold plain_keys. by intros [_ ?]%andb_true_iff.
  - intros entry1 entry2 entry3 H1 H2 H3 Hall.
    rewrite (generateSummary_ok URL_hostname _ Hall).
    eexists. split; [reflexivity|].
    cbn [totalRequests totalDuration averageDuration length Nat.ltb Nat.leb].
    unfold sum_durations. cbn [map fold_left]. rewrite H1, H2, H3.
    split; [done|]. split; by vm_compute.
  - intros front entry back e Hfront Hentry. unfold generateSummary.
    by rewrite (tally_entries_raises URL_hostname _ _ front entry back e eq_refl Hfront Hentry).
Qed.

Lemma generateSummary_counts_witness :
  Forall (fun entry => returns (URL_hostname_model (url (request entry))))
    [timed 100; timed 200; timed 300]
  /\ Forall (fun entry => plain_keys URL_hostname_model entry = true)
       [timed 100; timed 200; timed 300]
  /\ exists summary,
       generateSummary URL_hostname_model [timed 100; timed 200; timed 300] = Ok summary
       /\ totalDuration summary = 600%float
       /\ averageDuration summary = 200%float
       /\ methods summary !! "GET" = Some (CountNumber 3)
       /\ statusCodes summary !! "200" = Some (CountNumber 3)
       /\ domains summary !! "api.example.com" = Some (CountNumber 3).
Proof.
  assert (Forall (fun entry => returns (URL_hostname_model (url (request entry))))
            [timed 100; timed 200; timed 300]) as Hall.
  { repeat constructor; by eexists; vm_compute. }
  assert (Forall (fun entry => plain_keys URL_hostname_model entry = true)
            [timed 100; timed 200; timed 300]) as Hplain.
  { repeat constructor; by vm_compute. }
  split; [exact Hall|]. split; [exact Hplain|].
  destruct (generateSummary_counts URL_hostname_model) as (_ & Hgeneral & _ & _).
  destruct (Hgeneral _ Hall Hplain)
    as (summary & Hsummary & _ & Htotal & Havg & Hm & Hs & _ & Hd).
  exists summary. split; [exact Hsummary|].
  split; [by rewrite Htotal; vm_compute|].
  split; [by rewrite Havg, Htotal; vm_compute|].
  split; [by rewrite Hm; vm_compute|].
  split; [by rewrite Hs; vm_compute|].
  by rewrite Hd; vm_compute.
Defined.


(** ** URL normalisation *)

Local Open Scope string_scope.

Lemma string_app_assoc (a b c : string) : (a ++ b) ++ c = a ++ (b ++ c).
Proof.
  induction a as [|x a IH]; [done|].
  change (String x ((a ++ b) ++ c) = String x (a ++ (b ++ c))). by rewrite IH.
Qed.

Lemma string_app_nil_r (a : string) : a ++ "" = a.
Proof.
  induction a as [|x a IH]; [done|].
  change (String x (a ++ "") = String x a). by rewrite IH.
Qed.

Lemma string_app_cons (x : ascii) (a b : string) : String x a ++ b = String x (a ++ b).
Proof. done. Qed.

Lemma join_cons sep first rest :
  join sep (first :: rest)
  = first ++ match rest with [] => "" | _ :: _ => sep ++ join sep rest end.
Proof. destruct rest; [by rewrite string_app_nil_r|done]. Qed.

Lemma join_slash first rest : join "/" (first :: rest) = first ++ glue rest.
Proof.
  revert first. induction rest as [|seg rest IH]; intros first.
  - simpl. by rewrite string_app_nil_r.
  - rewrite join_cons, IH. done.
Qed.

Lemma split_slash_nonempty s : split_slash s <> [].
Proof.
  destruct s as [|c s]; [done|]. simpl.
  destruct (is_slash c); [done|]. by destruct (split_slash s).
Qed.

Lemma join_split_slash s : join "/" (split_slash s) = s.
Proof.
  induction s as [|c s IH]; [done|]. simpl.
  destruct (is_slash c) eqn:Hc.
  - apply bool_decide_eq_true in Hc as ->.
    rewrite join_cons. pose proof (split_slash_nonempty s).
    destruct (split_slash s); [done|]. by rewrite IH.
  - pose proof (split_slash_nonempty s).
    destruct (split_slash s) as [|seg rest]; [done|].
    rewrite join_slash in IH |- *. by rewrite string_app_cons, IH.
Qed.

Lemma split_slash_slash_free s : Forall (fun seg => slash_free seg = true) (split_slash s).
Proof.
  induction s as [|c s IH]; simpl; [by repeat constructor|].
  destruct (is_slash c) eqn:Hc; [by constructor|].
  pose proof (split_slash_nonempty s).
  destruct (split_slash s) as [|seg rest]; [done|].
  inversion IH; subst. constructor; [|done].
  unfold slash_free in *. simpl. by rewrite Hc.
Qed.

Lemma glue_cons seg rest : glue (seg :: rest) = String "/" (seg ++ glue rest).
Proof. done. Qed.

Lemma glue_at_boundary segs : at_boundary (glue segs).
Proof. destruct segs; [by left|right; by eexists]. Qed.

Section one_rule.
Variable body : string -> bool.
Variable placeholder : string.

Lemma segment_at_segment seg t :
  slash_free seg = true -> at_boundary t -> segment_at (seg ++ t) = (seg, t).
Proof.
  intros Hseg Ht. induction seg as [|c seg IH].
  - destruct Ht as [->|[t' ->]]; done.
  - unfold slash_free in Hseg. simpl in Hseg.
    apply andb_true_iff in Hseg as [Hc Hseg].
    rewrite string_app_cons. simpl.
    destruct (is_slash c); [done|]. by rewrite IH.
Qed.

Lemma replace_segments_through seg t :
  slash_free seg = true ->
  replace_segments body placeholder 0 (seg ++ t)
  = seg ++ replace_segments body placeholder 0 t.
Proof.
  intros Hseg. induction seg as [|c seg IH]; [done|].
  unfold slash_free in Hseg. simpl in Hseg.
  apply andb_true_iff in Hseg as [Hc Hseg].
  rewrite !string_app_cons. simpl.
  destruct (segment_at (seg ++ t)) as [seg' rest'].
  destruct (is_slash c); [done|]. simpl. by rewrite IH.
Qed.

Lemma replace_segments_skip seg n t :
  replace_segments body placeholder (String.length seg + n) (seg ++ t)
  = replace_segments body placeholder n t.
Proof. induction seg as [|c seg IH]; [done|]. rewrite string_app_cons. simpl. apply IH. Qed.

Lemma replace_segments_slash seg t :
  slash_free seg = true -> at_boundary t ->
  replace_segments body placeholder 0 (String "/" (seg ++ t))
  = if body seg then
      match t with
      | EmptyString => "/" ++ placeholder
      | String _ t' => "/" ++ placeholder ++ "/" ++ replace_segments body placeholder 0 t'
      end
    else "/" ++ seg ++ replace_segments body placeholder 0 t.
Proof.
  intros Hseg Ht. cbn [replace_segments].
  rewrite (segment_at_segment seg t Hseg Ht).
  change (is_slash "/") with true. cbn [andb].
  destruct (body seg).
  - destruct Ht as [->|[t' ->]]; [done|].
    do 3 f_equal.
    replace (S (String.length seg)) with (String.length seg + 1)%nat by lia.
    by rewrite replace_segments_skip.
  - by rewrite replace_segments_through.
Qed.

Lemma replace_segments_glue segs :
  Forall (fun seg => slash_free seg = true) segs ->
  no_adjacent body segs = true ->
  replace_segments body placeholder 0 (glue segs)
  = glue (map (fun seg => if body seg then placeholder else seg) segs).
Proof.
  remember (length segs) as n eqn:Hn. revert segs Hn.
  induction n as [n IH] using lt_wf_ind. intros segs Hn Hfree Hadj.
  destruct segs as [|seg1 rest]; [done|].
  inversion Hfree as [|? ? Hseg1 Hrest]; subst.
  cbn [map]. rewrite !glue_cons.
  rewrite (replace_segments_slash seg1 (glue rest) Hseg1 (glue_at_boundary rest)).
  destruct (body seg1) eqn:Hbody1.
  - destruct rest as [|seg2 rest'].
    { cbn [glue map]. by rewrite string_app_nil_r. }
    inversion Hrest as [|? ? Hseg2 Hrest']; subst.
    cbn [no_adjacent] in Hadj. rewrite Hbody1 in Hadj.
    apply andb_true_iff in Hadj as [Hbody2 Hadj].
    apply negb_true_iff in Hbody2. cbn [andb] in Hbody2.
    cbn [map]. rewrite !glue_cons. rewrite Hbody2.
    rewrite replace_segments_through by done.
    rewrite (IH (length rest')); [done|simpl in *; lia|done|done|].
    destruct rest'; [done|]. cbn [no_adjacent] in Hadj.
    by apply andb_true_iff in Hadj as [_ ?].
  - change ("/" ++ seg1 ++ replace_segments body placeholder 0 (glue rest))
      with (String "/" (seg1 ++ replace_segments body placeholder 0 (glue rest))).
    do 2 f_equal. apply (IH (length rest)); [simpl in *; lia|done|done|].
    destruct rest; [done|]. cbn [no_adjacent] in Hadj.
    by apply andb_true_iff in Hadj as [_ ?].
Qed.
End one_rule.

Lemma placeholders_plain p :
  p ∈ placeholders -> slash_free p = true /\ id_like p = false.
Proof.
  unfold placeholders. rewrite !elem_of_cons, elem_of_nil.
  intros [->|[->|[->|[->|[]]]]]; by vm_compute.
Qed.

Lemma id_like_rules seg :
  (numeric_run seg = true -> id_like seg = true)
  /\ (uuid_shape seg = true -> id_like seg = true)
  /\ (alnum_run 24 seg = true -> id_like seg = true)
  /\ (alnum_run 32 seg = true -> id_like seg = true).
Proof.
  unfold id_like. repeat split; intros ->; rewrite ?orb_true_r; done.
Qed.

Lemma no_adjacent_map body g segs :
  keeps_or_replaces g ->
  (forall seg, body seg = true -> id_like seg = true) ->
  no_adjacent id_like segs = true ->
  no_adjacent body (map g segs) = true.
Proof.
  intros Hg Hbody.
  assert (forall seg, body (g seg) = true -> id_like seg = true) as Hsrc.
  { intros seg Hb. destruct (Hg seg) as [Heq|Hph].
    - rewrite Heq in Hb. by apply Hbody.
    - apply Hbody in Hb. apply placeholders_plain in Hph as [_ Hph]. congruence. }
  induction segs as [|a [|b rest] IH]; [done..|].
  cbn [no_adjacent map]. intros Hadj.
  apply andb_true_iff in Hadj as [Hab Hadj].
  apply andb_true_iff. split; [|by apply IH].
  apply negb_true_iff, andb_false_iff.
  apply negb_true_iff, andb_false_iff in Hab as [Ha|Hb].
  - left. destruct (body (g a)) eqn:Hba; [|done]. apply Hsrc in Hba. congruence.
  - right. destruct (body (g b)) eqn:Hbb; [|done]. apply Hsrc in Hbb. congruence.
Qed.

Lemma slash_free_map g segs :
  keeps_or_replaces g ->
  Forall (fun seg => slash_free seg = true) segs ->
  Forall (fun seg => slash_free seg = true) (map g segs).
Proof.
  intros Hg Hfree. induction Hfree as [|seg rest Hseg _ IH]; [by constructor|].
  cbn [map]. constructor; [|done].
  destruct (Hg seg) as [->|Hph]; [done|]. by apply placeholders_plain in Hph as [? _].
Qed.

Lemma keeps_or_replaces_rule (body : string -> bool) (placeholder : string)
    (g : string -> string) :
  placeholder ∈ placeholders ->
  keeps_or_replaces g ->
  keeps_or_replaces (fun seg => if body (g seg) then placeholder else g seg).
Proof.
  intros Hph Hg seg. destruct (body (g seg)); [by right|apply Hg].
Qed.

(** One rule of [normalizeUrl], applied behind the rewriting [g] of the
    rules before it. *)
Lemma replace_segments_rule body placeholder g first rest :
  slash_free first = true ->
  Forall (fun seg => slash_free seg = true) rest ->
  no_adjacent id_like rest = true ->
  keeps_or_replaces g ->
  (forall seg, body seg = true -> id_like seg = true) ->
  replace_segments body placeholder 0 (first ++ glue (map g rest))
  = first ++ glue (map (fun seg => if body (g seg) then placeholder else g seg) rest).
Proof.
  intros Hfirst Hrest Hadj Hg Hbody.
  rewrite replace_segments_through by done.
  rewrite replace_segments_glue.
  - by rewrite map_map.
  - by apply slash_free_map.
  - by apply no_adjacent_map.
Qed.

Lemma placeholder_for_rules seg :
  (let g1 := fun seg => if numeric_run seg then "{id}" else seg in
   let g2 := fun seg => if uuid_shape (g1 seg) then "{uuid}" else g1 seg in
   let g3 := fun seg => if alnum_run 24 (g2 seg) then "{objectId}" else g2 seg in
   if alnum_run 32 (g3 seg) then "{hash}" else g3 seg)
  = placeholder_for seg.
Proof.
  cbv zeta. unfold placeholder_for.
  destruct (numeric_run seg); [by vm_compute|].
  destruct (uuid_shape seg); [by vm_compute|].
  destruct (alnum_run 24 seg); [by vm_compute|].
  done.
Qed.

Lemma normalizeUrl_segments first rest :
  slash_free first = true ->
  Forall (fun seg => slash_free seg = true) rest ->
  no_adjacent id_like rest = true ->
  normalizeUrl (first ++ glue rest) = first ++ glue (map placeholder_for rest).
Proof.
  intros Hfirst Hrest Hadj. unfold normalizeUrl. cbv zeta.
  pose proof (fun seg => proj1 (id_like_rules seg)) as H1.
  pose proof (fun seg => proj1 (proj2 (id_like_rules seg))) as H2.
  pose proof (fun seg => proj1 (proj2 (proj2 (id_like_rules seg)))) as H3.
  pose proof (fun seg => proj2 (proj2 (proj2 (id_like_rules seg)))) as H4.
  assert (keeps_or_replaces (fun seg => seg)) as Hg0 by (by left).
  rewrite <-(map_id rest) at 1.
  rewrite (replace_segments_rule numeric_run "{id}" _ _ _ Hfirst Hrest Hadj Hg0 H1).
  pose proof (keeps_or_replaces_rule numeric_run "{id}" _
                ltac:(unfold placeholders; set_solver) Hg0) as Hg1.
  rewrite (replace_segments_rule uuid_shape "{uuid}" _ _ _ Hfirst Hrest Hadj Hg1 H2).
  pose proof (keeps_or_replaces_rule uuid_shape "{uuid}" _
                ltac:(unfold placeholders; set_solver) Hg1) as Hg2.
  rewrite (replace_segments_rule (alnum_run 24) "{objectId}" _ _ _
             Hfirst Hrest Hadj Hg2 H3).
  pose proof (keeps_or_replaces_rule (alnum_run 24) "{objectId}" _
                ltac:(unfold placeholders; set_solver) Hg2) as Hg3.
  rewrite (replace_segments_rule (alnum_run 32) "{hash}" _ _ _
             Hfirst Hrest Hadj Hg3 H4).
  do 2 f_equal. apply map_ext. intros seg. apply placeholder_for_rules.
Qed.

Local Open Scope list_scope.


Lemma normalizeUrl_split url :
  no_adjacent id_like (tail (split_slash url)) = true ->
  normalizeUrl url
  = join "/" (hd "" (split_slash url) :: map placeholder_for (tail (split_slash url))).
Proof.
  intros Hadj.
  pose proof (join_split_slash url) as Hjoin.
  pose proof (split_slash_slash_free url) as Hfree.
  pose proof (split_slash_nonempty url).
  destruct (split_slash url) as [|first rest]; [done|].
  apply Forall_cons in Hfree as [Hfirst Hrest]. cbn [hd tail] in *.
  rewrite join_slash in Hjoin |- *. rewrite <-Hjoin at 1.
  by apply normalizeUrl_segments.
Qed.

(** C5, as stated, fails: the last segment of [/docs/GettingStartedWithTheApi]
    is not a run of digits, not a UUID, and not 24 or 32 hexadecimal
    characters, and yet it is replaced: the third and fourth rule accept any
    24 or 32 letters and digits. *)
Lemma normalizeUrl_counterexample :
  numeric_run "GettingStartedWithTheApi" = false
  /\ uuid_shape "GettingStartedWithTheApi" = false
  /\ hex_only 24 "GettingStartedWithTheApi" = false
  /\ hex_only 32 "GettingStartedWithTheApi" = false
  /\ normalizeUrl "/docs/GettingStartedWithTheApi" = "/docs/{objectId}".
Proof. repeat split; by vm_compute. Qed.

(** C5, amended. Split a URL at its ['/'] characters. If no two neighbouring
    segments behind the first are both matched by a rule, [normalizeUrl]
    leaves the first segment as it is and replaces each later segment that
    is wholly, in this order of priority, a run of digits, a UUID
    (8-4-4-4-12 hexadecimal characters, either case), 24 letters or digits,
    or 32 letters or digits, by [{id}], [{uuid}], [{objectId}] or [{hash}];
    every other segment, an empty last segment behind a trailing slash
    included, stays as it is. In particular [/users/12345/orders] becomes
    [/users/{id}/orders] and a UUID segment becomes [{uuid}]. *)
Theorem normalizeUrl_placeholders :
  (forall url,
     no_adjacent id_like (tail (split_slash url)) = true ->
     normalizeUrl url
     = join "/" (hd "" (split_slash url)
                 :: map placeholder_for (tail (split_slash url))))
  /\ (forall seg,
        placeholder_for seg
        = if numeric_run seg then "{id}"
          else if uuid_shape seg then "{uuid}"
          else if alnum_run 24 seg then "{objectId}"
          else if alnum_run 32 seg then "{hash}"
          else seg)
  /\ normalizeUrl "/users/12345/orders" = "/users/{id}/orders"
  /\ normalizeUrl "/users/550e8400-e29b-41d4-a716-446655440000" = "/users/{uuid}"
  /\ normalizeUrl "/users/12345/" = "/users/{id}/".
Proof.
  split; [exact normalizeUrl_split|]. split; [done|].
  repeat split; by vm_compute.
Qed.

Lemma normalizeUrl_placeholders_witness :
  no_adjacent id_like
    (tail (split_slash "https://api.example.com/users/12345/orders/")) = true
  /\ normalizeUrl "https://api.example.com/users/12345/orders/"
     = "https://api.example.com/users/{id}/orders/".
Proof.
  split; [by vm_compute|].
  rewrite (proj1 normalizeUrl_placeholders
             "https://api.example.com/users/12345/orders/"); by vm_compute.
Defined.


(** ** Response bodies rewritten by [convertResponse] *)

Lemma normalizeJsonStructure_array items :
  normalizeJsonStructure (JArr items)
  = JArr (unique_structures ∅ (map normalizeJsonStructure items)).
Proof.
  destruct items as [|first rest]; [done|].
  cbn [normalizeJsonStructure]. f_equal.
  lazymatch goal with
  | |- context [?loop rest ∅] =>
      assert (forall elements seen,
                loop elements seen
                = unique_structures seen (map normalizeJsonStructure elements)) as Hloop
  end.
  { induction elements as [|element elements IH]; intros seen; [done|].
    cbn [map unique_structures]. by rewrite !IH. }
  cbn [map unique_structures]. by rewrite !Hloop.
Qed.

Ltac solve_membership :=
  repeat case_bool_decide; try done; exfalso;
  repeat match goal with
    | H : context [_ ∈ _ :: _] |- _ => rewrite elem_of_cons in H
    | H : context [_ ∈ []] |- _ => rewrite elem_of_nil in H
    | H : context [_ ∈ _ ∪ _] |- _ => rewrite elem_of_union in H
    | H : context [_ ∈ {[ _ ]}] |- _ => rewrite elem_of_singleton in H
    end;
  intuition congruence.

Lemma unique_structures_snoc seen normalized element :
  unique_structures seen (normalized ++ [element])
  = unique_structures seen normalized
    ++ (if bool_decide (getStructureKey element ∈ seen
                        \/ getStructureKey element ∈ map getStructureKey normalized)
        then [] else [element]).
Proof.
  revert seen.
  induction normalized as [|x normalized IH]; intros seen.
  - cbn [app unique_structures map].
    solve_membership.
  - cbn [app unique_structures map]. case_bool_decide as Hx; rewrite IH.
    + f_equal. solve_membership.
    + cbn [app]. do 2 f_equal.
      solve_membership.
Qed.

Lemma unique_structures_sublist seen normalized :
  unique_structures seen normalized `sublist_of` normalized.
Proof.
  revert seen.
  induction normalized as [|x normalized IH]; intros seen; [done|].
  cbn [unique_structures]. case_bool_decide.
  - by apply sublist_cons.
  - by apply sublist_skip.
Qed.

Lemma set_prop_fresh key v members :
  key ∉ member_names members -> set_prop key v members = members ++ [(key, v)].
Proof.
  induction members as [|[k w] members IH]; [done|].
  cbn [member_names map fst set_prop app]. rewrite not_elem_of_cons.
  intros [Hk Hrest]. rewrite bool_decide_eq_false_2 by done.
  f_equal. by apply IH.
Qed.

Lemma normalizeJsonStructure_object members :
  NoDup (member_names members) ->
  normalizeJsonStructure (JObj members) = JObj (normalized_members members).
Proof.
  intros Hnodup. cbn [normalizeJsonStructure]. f_equal. unfold normalized_members.
  change (map (fun kv => (kv.1, normalizeJsonStructure kv.2))
            (filter (fun kv => kv.1 <> "__proto__") members))
    with ([] ++ map (fun kv => (kv.1, normalizeJsonStructure kv.2))
                  (filter (fun kv => kv.1 <> "__proto__") members)).
  assert (NoDup (member_names [] ++ member_names members)) as Hall by done.
  revert Hall. generalize (@nil (string * json)) as normalized. clear Hnodup.
  induction members as [|[key value] members IH]; intros normalized Hall.
  - by rewrite app_nil_r.
  - assert (key ∉ member_names normalized) as Hfresh.
    { apply NoDup_app in Hall as (_ & Hdisjoint & _).
      intros Hin. apply (Hdisjoint key Hin). apply list_elem_of_here. }
    cbv zeta. case_bool_decide as Hproto.
    + rewrite filter_cons_False by (by intros ?). apply IH.
      cbn [member_names map fst] in Hall. apply NoDup_app in Hall as (H1 & H2 & H3).
      apply NoDup_cons in H3 as [_ H3]. apply NoDup_app. split; [done|]. split; [|done].
      intros x Hx Hin. apply (H2 x Hx). by apply list_elem_of_further.
    + rewrite filter_cons_True by done. cbn [map fst snd]. rewrite IH.
      * rewrite set_prop_fresh by done. by rewrite <-app_assoc.
      * rewrite set_prop_fresh by done.
        unfold member_names in *. rewrite map_app. cbn [map fst].
        rewrite <-app_assoc. done.
Qed.

Lemma proto_free_array items :
  proto_free (JArr items) <-> Forall proto_free items.
Proof.
  induction items as [|x items IH]; [by split; [constructor|]|].
  rewrite Forall_cons. cbn in *. by rewrite IH.
Qed.

Lemma proto_free_object members :
  proto_free (JObj members)
  <-> ("__proto__" ∉ member_names members)
      /\ Forall (fun kv => proto_free kv.2) members.
Proof.
  cbn [proto_free]. apply and_iff_compat_l.
  induction members as [|[k x] members IH]; [by split; [constructor|]|].
  rewrite Forall_cons. cbn in *. by rewrite IH.
Qed.

Lemma normalized_members_storable members :
  "__proto__" ∉ member_names members ->
  normalized_members members
  = map (fun kv => (kv.1, normalizeJsonStructure kv.2)) members.
Proof.
  intros Hproto. unfold normalized_members. f_equal.
  induction members as [|[k v] members IH]; [done|].
  cbn [member_names map fst] in Hproto. apply not_elem_of_cons in Hproto as [Hk Hrest].
  rewrite filter_cons_True by done. by rewrite IH.
Qed.

Lemma getStructureKey_normalized v :
  distinct_names v -> proto_free v ->
  getStructureKey (normalizeJsonStructure v) = getStructureKey v.
Proof.
  induction v as [| | | |items IH|members IH] using json_nested_ind; try done.
  - destruct items as [|first rest]; [done|].
    intros [Hfirst _] [Hproto _]. rewrite normalizeJsonStructure_array.
    cbn [map unique_structures].
    rewrite bool_decide_eq_false_2 by set_solver.
    cbn [getStructureKey]. apply Forall_cons in IH as [IHfirst _]. by rewrite IHfirst.
  - intros [Hnodup _] [Hproto _]%proto_free_object.
    rewrite normalizeJsonStructure_object by done.
    rewrite normalized_members_storable by done.
    cbn [getStructureKey]. do 3 f_equal.
    unfold member_names. rewrite map_map. done.
Qed.

Lemma includes_json_empty : includes "json" "" = false.
Proof. done. Qed.

Lemma convertResponse_body JSON_parse JSON_stringify harResponse :
  let body := llm_response_body (convertResponse JSON_parse JSON_stringify harResponse) in
  match text (content harResponse) with
  | None => body = None
  | Some t =>
      if bool_decide (t = "") then body = None
      else if includes "json" (mimeType (content harResponse)) then
        match JSON_parse t with
        | Ok v => body = Some (JSON_stringify (normalizeJsonStructure v))
        | Throw _ => body = Some t
        end
      else body = Some t
  end.
Proof.
  unfold convertResponse. cbv zeta.
  destruct (text (content harResponse)) as [t|]; [|done].
  cbn [falsy]. case_bool_decide as Ht; [done|]. cbn [negb].
  case_bool_decide as Hmime.
  - rewrite Hmime, includes_json_empty. done.
  - cbn [negb andb].
    destruct (includes "json" (mimeType (content harResponse))); [|done].
    cbn [JSON_parse_arg]. by destruct (JSON_parse t).
Qed.

Lemma convertResponse_contentType JSON_parse JSON_stringify harResponse :
  llm_response_contentType (convertResponse JSON_parse JSON_stringify harResponse)
  = match text (content harResponse) with
    | None => None
    | Some t =>
        if bool_decide (t = "") then None else Some (mimeType (content harResponse))
    end.
Proof.
  unfold convertResponse. cbv zeta.
  destruct (text (content harResponse)) as [t|]; [|done].
  cbn [falsy]. case_bool_decide as Ht; [done|]. cbn [negb].
  destruct (negb (bool_decide (mimeType (content harResponse) = ""))
            && includes "json" (mimeType (content harResponse))); [|done].
  by destruct (JSON_parse_arg JSON_parse (Some t)).
Qed.

(** C10, as stated, fails: a response that is not JSON and whose body text
    is present but empty comes back without a body; the text is not kept. *)
Lemma convertEntry_counterexample :
  is_json (content empty_plain) = false
  /\ text (content empty_plain) = Some ""
  /\ llm_response_body (convertResponse JSON_parse_model JSON_stringify_model empty_plain)
     = None.
Proof. by vm_compute. Qed.

(** C10, amended. The response body [convertEntry] returns is not the
    captured one: when the body text is non-empty, the content type contains
    [json] and the text parses, it is the parsed value, normalised and
    printed again with two spaces of indentation. Normalising replaces an
    array by its normalised elements without those whose structure key is
    the key of an earlier element, at every depth, the first of each key
    staying in place, and an object none of whose members is named
    [__proto__] by the object of its normalised members; for a parsed value
    without such a member the key of an element is the same before and after
    it is normalised. So elements are lost: the body [[{"id":1},{"id":2}]]
    comes back with one element. A non-empty text that does not parse, or
    whose content type is not JSON, is kept as it is; the content type that
    comes back with a non-empty text is the captured one; a missing or empty
    text gives no body and no content type. *)
Theorem convertEntry_rewrites_json_bodies :
  (forall JSON_parse JSON_stringify entry,
     let body :=
       llm_response_body (conv_response (convertEntry JSON_parse JSON_stringify entry)) in
     match response_text entry with
     | None => body = None
     | Some t =>
         if bool_decide (t = "") then body = None
         else if is_json (content (response entry)) then
           match JSON_parse t with
           | Ok v => body = Some (JSON_stringify (normalizeJsonStructure v))
           | Throw _ => body = Some t
           end
         else body = Some t
     end)
  /\ (forall JSON_parse JSON_stringify entry,
        llm_response_contentType
          (conv_response (convertEntry JSON_parse JSON_stringify entry))
        = match response_text entry with
          | None => None
          | Some t =>
              if bool_decide (t = "") then None
              else Some (mimeType (content (response entry)))
          end)
  /\ (forall items,
        normalizeJsonStructure (JArr items)
        = JArr (unique_structures ∅ (map normalizeJsonStructure items)))
  /\ (forall normalized element,
        unique_structures ∅ (normalized ++ [element])
        = unique_structures ∅ normalized
          ++ (if bool_decide (getStructureKey element ∈ map getStructureKey normalized)
              then [] else [element]))
  /\ (forall normalized, unique_structures ∅ normalized `sublist_of` normalized)
  /\ (forall members,
        NoDup (member_names members) ->
        "__proto__" ∉ member_names members ->
        normalizeJsonStructure (JObj members)
        = JObj (map (fun kv => (kv.1, normalizeJsonStructure kv.2)) members))
  /\ (forall v,
        distinct_names v -> proto_free v ->
        getStructureKey (normalizeJsonStructure v) = getStructureKey v)
  /\ (forall v, isArray v = false -> (forall members, v <> JObj members) ->
        normalizeJsonStructure v = v)
  /\ JSON_parse_model two_ids
     = Ok (JArr [JObj [("id", JNum 1)]; JObj [("id", JNum 2)]])
  /\ llm_response_body
       (convertResponse JSON_parse_model JSON_stringify_model
          (response_with 200 "application/json" (Some two_ids)))
     = Some one_id_pretty.
Proof.
  split; [|split; [|split; [|split; [|split; [|split; [|split; [|split; [|split]]]]]]]].
  - intros JSON_parse JSON_stringify entry.
    exact (convertResponse_body JSON_parse JSON_stringify (response entry)).
  - intros JSON_parse JSON_stringify entry.
    exact (convertResponse_contentType JSON_parse JSON_stringify (response entry)).
  - exact normalizeJsonStructure_array.
  - intros normalized element. rewrite unique_structures_snoc. f_equal.
    destruct (decide (getStructureKey element ∈ map getStructureKey normalized))
      as [Hin|Hnot].
    + rewrite (bool_decide_eq_true_2 _ Hin). rewrite bool_decide_eq_true_2; [done|by right].
    + rewrite (bool_decide_eq_false_2 _ Hnot). rewrite bool_decide_eq_false_2; [done|].
      intros [Hempty|Hin]; [by apply not_elem_of_empty in Hempty|done].
  - apply unique_structures_sublist.
  - intros members Hnodup Hproto.
    rewrite normalizeJsonStructure_object by done.
    by rewrite normalized_members_storable.
  - exact getStructureKey_normalized.
  - intros v Harray Hobject. destruct v; try done. by destruct (Hobject members).
  - by vm_compute.
  - by vm_compute.
Qed.

Lemma convertEntry_rewrites_json_bodies_witness :
  distinct_names (JArr [JObj [("id", JNum 1)]; JObj [("id", JNum 2)]])
  /\ proto_free (JArr [JObj [("id", JNum 1)]; JObj [("id", JNum 2)]])
  /\ getStructureKey
       (normalizeJsonStructure (JArr [JObj [("id", JNum 1)]; JObj [("id", JNum 2)]]))
     = getStructureKey (JArr [JObj [("id", JNum 1)]; JObj [("id", JNum 2)]]).
Proof.
  assert (distinct_names (JArr [JObj [("id", JNum 1)]; JObj [("id", JNum 2)]])) as Hnames.
  { simpl. repeat split; apply NoDup_singleton. }
  assert (proto_free (JArr [JObj [("id", JNum 1)]; JObj [("id", JNum 2)]])) as Hproto.
  { simpl. repeat split; by apply (bool_decide_unpack _); vm_compute. }
  split; [exact Hnames|]. split; [exact Hproto|].
  destruct convertEntry_rewrites_json_bodies as (_ & _ & _ & _ & _ & _ & Hkey & _).
  exact (Hkey _ Hnames Hproto).
Defined.


(** ** The structural scenario of the specification *)

Example deduplicateEntries_users :
  deduplicateEntries JSON_parse_model [user_exchange "1" "x"; user_exchange "2" "y"]
  = Ok [user_exchange "1" "x"].
Proof. by vm_compute. Qed.

Example removeExactDuplicates_users :
  removeExactDuplicates [user_exchange "1" "x"; user_exchange "2" "y"; user_exchange "1" "x"]
  = [user_exchange "1" "x"; user_exchange "2" "y"].
Proof. by vm_compute. Qed.


(** * Further properties *)

(** ** [filterEntries] *)

Lemma filter_exc_sublist {A} (callback : A -> exc bool) xs kept :
  filter_exc callback xs = Ok kept -> kept `sublist_of` xs.
Proof.
  revert kept. induction xs as [|x rest IH]; intros kept; simpl.
  - by intros [= <-].
  - destruct (callback x) as [keep|e]; [|done]. simpl.
    destruct (filter_exc callback rest) as [kept'|e]; [|done]. simpl.
    intros [= <-]. destruct keep.
    + by apply sublist_skip, IH.
    + by apply sublist_cons, IH.
Qed.

Lemma filter_exc_total {A} (callback : A -> exc bool) xs :
  Forall (fun x => returns (callback x)) xs ->
  filter_exc callback xs = Ok (List.filter (fun x => holds (callback x)) xs).
Proof.
  induction 1 as [|x rest [keep Hkeep] _ IH]; [done|].
  simpl. rewrite Hkeep, IH. simpl. by destruct keep.
Qed.

Lemma filter_exc_raises {A} (callback : A -> exc bool) front x back e :
  Forall (fun x => returns (callback x)) front ->
  callback x = Throw e ->
  filter_exc callback (front ++ x :: back) = Throw e.
Proof.
  intros Hfront Hx. induction Hfront as [|y front [keep Hkeep] _ IH]; simpl.
  - by rewrite Hx.
  - by rewrite Hkeep, IH.
Qed.

Lemma deduplicateEntries_kept JSON_parse entries :
  deduplicateEntries JSON_parse entries = Ok (kept_after JSON_parse entries []).
Proof. apply deduplicateEntries_loop_kept_after. Qed.

Lemma kept_after_sublist_nil JSON_parse entries :
  kept_after JSON_parse entries [] `sublist_of` entries.
Proof. by destruct (kept_after_sublist JSON_parse entries []) as (added & -> & Hsub). Qed.

Section filtering.
Variable JSON_parse : string -> exc json.
Variable URL_hostname : string -> exc string.

Lemma filter_callback_returns options entry :
returns (URL_hostname (url (request entry))) ->
returns (filter_callback URL_hostname options entry).
Proof.
intros [domain Hdomain]. unfold filter_callback. rewrite Hdomain. simpl.
repeat case_match; apply returns_Ok.
Qed.

Lemma filter_callback_stopped options entry :
reaches_URL options entry = false ->
filter_callback URL_hostname options entry = Ok false.
Proof.
unfold reaches_URL, filter_callback. intros Hstop.
destruct (opt_methods options) as [methods|].
- destruct (bool_decide (method (request entry) ∈ methods)); simpl in *; [|done].
  destruct (opt_statusCodes options) as [codes|]; [|done].
  by destruct (includes_status codes (status (response entry))).
- simpl in *. destruct (opt_statusCodes options) as [codes|]; [|done].
  by destruct (includes_status codes (status (response entry))).
Qed.

Lemma filter_callback_raises options entry e :
reaches_URL options entry = true ->
URL_hostname (url (request entry)) = Throw e ->
filter_callback URL_hostname options entry = Throw e.
Proof.
unfold reaches_URL, filter_callback. intros Hreach Hurl.
apply andb_true_iff in Hreach as [Hm Hs].
destruct (opt_methods options) as [methods|];
  destruct (opt_statusCodes options) as [codes|];
  rewrite ?Hm, ?Hs; simpl; by rewrite Hurl.
Qed.

(** X1. What [filterEntries] returns is a sublist of its input: entries are
  only dropped, never added, changed or reordered. *)
Theorem filterEntries_sublist entries options kept :
filterEntries JSON_parse URL_hostname entries options = Ok kept ->
kept `sublist_of` entries.
Proof.
unfold filterEntries. case_bool_decide as Hdedup; simpl.
- intros Hkept. by apply filter_exc_sublist in Hkept.
- rewrite deduplicateEntries_kept. simpl. intros Hkept.
  apply filter_exc_sublist in Hkept.
  etrans; [exact Hkept|]. apply kept_after_sublist_nil.
Qed.

(** X2. A duration bound that is zero or [NaN] is no bound: the call
  returns what it returns without the bound. *)
Theorem filterEntries_falsy_bound entries options bound :
number_truthy bound = false ->
filterEntries JSON_parse URL_hostname entries (with_maxDuration options (Some bound))
= filterEntries JSON_parse URL_hostname entries (with_maxDuration options None)
/\ filterEntries JSON_parse URL_hostname entries (with_minDuration options (Some bound))
   = filterEntries JSON_parse URL_hostname entries (with_minDuration options None).
Proof.
intros Hfalsy. unfold filterEntries, filter_callback.
cbn [with_maxDuration with_minDuration opt_methods opt_statusCodes opt_domains
     opt_excludeDomains opt_minDuration opt_maxDuration opt_deduplicate].
by rewrite Hfalsy.
Qed.

(** X3. With an empty list of methods, or an empty list of status codes,
  the result is empty, and the call does not raise whatever the URLs of
  the capture are: no URL is parsed. *)
Theorem filterEntries_empty_allow_list entries options :
opt_methods options = Some [] \/ opt_statusCodes options = Some [] ->
filterEntries JSON_parse URL_hostname entries options = Ok [].
Proof.
intros Hempty.
assert (forall l, filter_exc (filter_callback URL_hostname options) l = Ok []) as Hall.
{ induction l as [|entry rest IH]; [done|]. simpl.
  rewrite filter_callback_stopped, IH; [done|].
  unfold reaches_URL. destruct Hempty as [-> | ->]; [done|].
  simpl. apply andb_false_r. }
unfold filterEntries. case_bool_decide; simpl; [apply Hall|].
rewrite deduplicateEntries_kept. apply Hall.
Qed.

(** X4. The URL of every entry that gets past the method and the status
  test is parsed, whether or not a domain option is given: without
  deduplication, the first such entry with a URL the constructor rejects
  makes the call raise. *)
Theorem filterEntries_raises_on_malformed_url options front entry back e :
opt_deduplicate options = Some false ->
Forall (fun x => returns (URL_hostname (url (request x)))) front ->
reaches_URL options entry = true ->
URL_hostname (url (request entry)) = Throw e ->
filterEntries JSON_parse URL_hostname (front ++ entry :: back) options = Throw e.
Proof.
intros Hdedup Hfront Hreach Hurl. unfold filterEntries.
rewrite Hdedup, bool_decide_eq_true_2 by done. simpl.
apply filter_exc_raises.
- eapply Forall_impl; [exact Hfront|]. intros x. apply filter_callback_returns.
- by apply filter_callback_raises.
Qed.
End filtering.

Lemma existsb_sublist {A} (f : A -> bool) l1 l2 :
  l1 `sublist_of` l2 -> existsb f l2 = false -> existsb f l1 = false.
Proof.
  induction 1 as [|x l1 l2 _ IH|x l1 l2 _ IH]; simpl; [done|..].
  - intros [-> Hrest]%orb_false_iff. by rewrite IH.
  - intros [_ Hrest]%orb_false_iff. by apply IH.
Qed.

Lemma pairwise_distinct_sublist JSON_parse l1 l2 :
  l1 `sublist_of` l2 ->
  pairwise_distinct JSON_parse l2 -> pairwise_distinct JSON_parse l1.
Proof.
  intros Hsub Hl2 front entry back ->.
  apply sublist_app_l in Hsub as (k1 & k2 & -> & Hfront & Hrest).
  apply sublist_cons_l in Hrest as (k21 & k22 & -> & _).
  apply (existsb_sublist _ front (k1 ++ k21)).
  - by apply sublist_inserts_r.
  - apply (Hl2 (k1 ++ k21) entry k22). by rewrite <-app_assoc.
Qed.

Lemma filter_exc_kept {A} (callback : A -> exc bool) xs kept :
  filter_exc callback xs = Ok kept -> Forall (fun x => callback x = Ok true) kept.
Proof.
  revert kept. induction xs as [|x rest IH]; intros kept; simpl.
  - intros [= <-]. constructor.
  - destruct (callback x) as [keep|e] eqn:Hx; [|done]. simpl.
    destruct (filter_exc callback rest) as [kept'|e]; [|done]. simpl.
    intros [= <-]. destruct keep; [constructor; [done|]|]; by apply IH.
Qed.

Lemma filter_true {A} (f : A -> bool) l :
  Forall (fun x => f x = true) l -> List.filter f l = l.
Proof. induction 1 as [|x l Hx _ IH]; [done|]. simpl. by rewrite Hx, IH. Qed.

Lemma filter_filter_andb {A} (f g : A -> bool) l :
  List.filter g (List.filter f l) = List.filter (fun x => f x && g x) l.
Proof.
  induction l as [|x l IH]; [done|]. simpl.
  destruct (f x); simpl; [destruct (g x)|]; by rewrite IH.
Qed.

Lemma filter_sublist {A} (f : A -> bool) l : List.filter f l `sublist_of` l.
Proof.
  induction l as [|x l IH]; [done|]. simpl.
  destruct (f x); [by apply sublist_skip|by apply sublist_cons].
Qed.

Lemma Forall_on_sublist {A} (P : A -> Prop) l1 l2 :
  l1 `sublist_of` l2 -> Forall P l2 -> Forall P l1.
Proof.
  intros Hsub Hall. apply Forall_forall. intros x Hx.
  rewrite Forall_forall in Hall. apply Hall. by eapply elem_of_sublist.
Qed.

Section filter_chain.
Variable JSON_parse : string -> exc json.
Variable URL_hostname : string -> exc string.

Lemma filter_callback_true_parsed options entry :
filter_callback URL_hostname options entry = Ok true ->
returns (URL_hostname (url (request entry))).
Proof.
unfold filter_callback.
destruct (URL_hostname (url (request entry))) as [domain|e]; [intros _; apply returns_Ok|].
repeat case_match; done.
Qed.

Lemma settled_sublist l1 l2 :
l1 `sublist_of` l2 ->
settled JSON_parse URL_hostname l2 -> settled JSON_parse URL_hostname l1.
Proof.
intros Hsub [Hdistinct Hparsed]. split.
- by eapply pairwise_distinct_sublist.
- by eapply Forall_on_sublist.
Qed.

Lemma deduplicateEntries_distinct entries :
pairwise_distinct JSON_parse entries ->
deduplicateEntries JSON_parse entries = Ok entries.
Proof.
intros Hdistinct. rewrite deduplicateEntries_kept. f_equal.
by apply (kept_after_fixed JSON_parse entries []).
Qed.

Lemma filterEntries_on_settled entries options :
settled JSON_parse URL_hostname entries ->
filterEntries JSON_parse URL_hostname entries options
= Ok (List.filter (fun entry => holds (filter_callback URL_hostname options entry))
        entries).
Proof.
intros [Hdistinct Hparsed]. unfold filterEntries.
assert (filter_exc (filter_callback URL_hostname options) entries
        = Ok (List.filter
                (fun entry => holds (filter_callback URL_hostname options entry))
                entries)) as Hfilter.
{ apply filter_exc_total. eapply Forall_impl; [exact Hparsed|].
  intros x. apply filter_callback_returns. }
case_bool_decide; simpl; [exact Hfilter|].
by rewrite deduplicateEntries_distinct.
Qed.

Lemma filterEntries_settled entries options kept :
opt_deduplicate options <> Some false ->
filterEntries JSON_parse URL_hostname entries options = Ok kept ->
settled JSON_parse URL_hostname kept.
Proof.
intros Hdedup. unfold filterEntries.
rewrite bool_decide_eq_false_2 by done. simpl.
rewrite deduplicateEntries_kept. simpl. intros Hkept. split.
- apply (pairwise_distinct_sublist _ _ (kept_after JSON_parse entries [])).
  + by apply filter_exc_sublist in Hkept.
  + apply kept_after_distinct, pairwise_distinct_nil.
- apply filter_exc_kept in Hkept.
  eapply Forall_impl; [exact Hkept|]. intros x. apply filter_callback_true_parsed.
Qed.

(** X5. Filtering in two calls is filtering once by both option records:
  when the first call deduplicates and every URL of the capture parses,
  the second call, whether it deduplicates again or not, returns the
  deduplicated capture filtered by the two callbacks together. *)
Theorem filterEntries_twice entries options1 options2 :
opt_deduplicate options1 <> Some false ->
Forall (fun entry => returns (URL_hostname (url (request entry)))) entries ->
(kept ← filterEntries JSON_parse URL_hostname entries options1;
 filterEntries JSON_parse URL_hostname kept options2)
= (kept ← deduplicateEntries JSON_parse entries;
   Ok (List.filter
         (fun entry =>
            holds (filter_callback URL_hostname options1 entry)
            && holds (filter_callback URL_hostname options2 entry))
         kept)).
Proof.
intros Hdedup Hparsed.
assert (settled JSON_parse URL_hostname (kept_after JSON_parse entries [])) as Hsettled.
{ split; [apply kept_after_distinct, pairwise_distinct_nil|].
  eapply Forall_on_sublist; [apply kept_after_sublist_nil|done]. }
assert (filterEntries JSON_parse URL_hostname entries options1
        = Ok (List.filter
                (fun entry => holds (filter_callback URL_hostname options1 entry))
                (kept_after JSON_parse entries []))) as ->.
{ unfold filterEntries. rewrite bool_decide_eq_false_2 by done. cbn [negb].
  rewrite deduplicateEntries_kept. cbn [mbind exc_bind].
  apply filter_exc_total. destruct Hsettled as [_ Hp].
  eapply Forall_impl; [exact Hp|]. intros x. apply filter_callback_returns. }
rewrite deduplicateEntries_kept. cbn [mbind exc_bind].
rewrite filterEntries_on_settled.
- by rewrite filter_filter_andb.
- eapply settled_sublist; [apply filter_sublist|done].
Qed.

Lemma cli_step_settled {A} (given : option A) options_of entries kept :
(forall a, opt_deduplicate (options_of a) <> Some false) ->
cli_step JSON_parse URL_hostname given options_of entries = Ok kept ->
(is_Some given \/ settled JSON_parse URL_hostname entries ->
 settled JSON_parse URL_hostname kept)
/\ (given = None -> kept = entries).
Proof.
intros Hdedup. destruct given as [a|]; simpl.
- intros Hkept. split; [|done]. intros _. by eapply filterEntries_settled.
- intros [= <-]. split; [|done]. intros [[? [=]]|?]; done.
Qed.

Lemma filterEntries_settled_unchanged entries :
settled JSON_parse URL_hostname entries ->
filterEntries JSON_parse URL_hostname entries
  {| opt_methods := None; opt_statusCodes := None; opt_domains := None;
     opt_excludeDomains := None; opt_minDuration := None; opt_maxDuration := None;
     opt_deduplicate := Some true |}
= Ok entries.
Proof.
intros Hsettled. rewrite filterEntries_on_settled by done. f_equal.
apply filter_true. destruct Hsettled as [_ Hparsed].
eapply Forall_impl; [exact Hparsed|]. intros x [domain Hdomain].
unfold filter_callback. simpl. by rewrite Hdomain.
Qed.

(** X6. On the command line [--no-deduplicate] changes nothing as soon as
  one filter option is given: each option is applied by a call of
  [filterEntries] that leaves [deduplicate] out and therefore
  deduplicates, and the closing call that the flag suppresses returns its
  input. *)
Theorem cli_filter_no_deduplicate_ignored options entries :
some_filter_given options ->
cli_filter JSON_parse URL_hostname (with_deduplicate options false) entries
= cli_filter JSON_parse URL_hostname (with_deduplicate options true) entries.
Proof.
intros Hgiven. unfold cli_filter, some_filter_given in *.
cbn [with_deduplicate cli_methods cli_status cli_domains cli_excludeDomains
     cli_minDuration cli_maxDuration cli_deduplicate].
destruct (cli_step _ _ (cli_methods options) _ entries) as [l1|e] eqn:H1; [|done].
apply cli_step_settled in H1 as [S1 E1]; [|done]. cbn [mbind exc_bind].
destruct (cli_step _ _ (cli_status options) _ l1) as [l2|e] eqn:H2; [|done].
apply cli_step_settled in H2 as [S2 E2]; [|done]. cbn [mbind exc_bind].
destruct (cli_step _ _ (cli_domains options) _ l2) as [l3|e] eqn:H3; [|done].
apply cli_step_settled in H3 as [S3 E3]; [|done]. cbn [mbind exc_bind].
destruct (cli_step _ _ (cli_excludeDomains options) _ l3) as [l4|e] eqn:H4; [|done].
apply cli_step_settled in H4 as [S4 E4]; [|done]. cbn [mbind exc_bind].
destruct (cli_step _ _ (cli_minDuration options) _ l4) as [l5|e] eqn:H5; [|done].
apply cli_step_settled in H5 as [S5 E5]; [|done]. cbn [mbind exc_bind].
destruct (cli_step _ _ (cli_maxDuration options) _ l5) as [l6|e] eqn:H6; [|done].
apply cli_step_settled in H6 as [S6 E6]; [|done]. cbn [mbind exc_bind].
symmetry. apply filterEntries_settled_unchanged.
clear E1 E2 E3 E4 E5 E6. tauto.
Qed.
End filter_chain.

Lemma filterEntries_sublist_witness :
  filterEntries JSON_parse_model URL_hostname_model two_users no_options
  = Ok [user_exchange "1" "x"]
  /\ [user_exchange "1" "x"] `sublist_of` two_users.
Proof.
  assert (filterEntries JSON_parse_model URL_hostname_model two_users no_options
          = Ok [user_exchange "1" "x"]) as Hrun by (by vm_compute).
  split; [exact Hrun|].
  exact (filterEntries_sublist JSON_parse_model URL_hostname_model _ _ _ Hrun).
Defined.

Lemma filterEntries_falsy_bound_witness :
  number_truthy (Num 0) = false
  /\ filterEntries JSON_parse_model URL_hostname_model two_users
       (with_maxDuration no_options (Some (Num 0)))
     = filterEntries JSON_parse_model URL_hostname_model two_users
         (with_maxDuration no_options None).
Proof.
  split; [reflexivity|].
  apply (filterEntries_falsy_bound JSON_parse_model URL_hostname_model
           two_users no_options (Num 0)).
  reflexivity.
Defined.

Lemma filterEntries_empty_allow_list_witness :
  opt_methods (only_methods []) = Some []
  /\ filterEntries JSON_parse_model URL_hostname_model (malformed :: two_users)
       (only_methods [])
     = Ok [].
Proof.
  split; [reflexivity|].
  apply (filterEntries_empty_allow_list JSON_parse_model URL_hostname_model).
  left. reflexivity.
Defined.

Lemma filterEntries_raises_on_malformed_url_witness :
  URL_hostname_model (url (request malformed)) = Throw TypeError
  /\ filterEntries JSON_parse_model URL_hostname_model
       ([user_exchange "1" "x"] ++ malformed :: [user_exchange "2" "y"])
       without_deduplication
     = Throw TypeError.
Proof.
  split; [reflexivity|].
  apply (filterEntries_raises_on_malformed_url JSON_parse_model URL_hostname_model);
    [reflexivity| |reflexivity|reflexivity].
  repeat constructor. by eexists; vm_compute.
Defined.

Lemma filterEntries_twice_witness :
  (kept ← filterEntries JSON_parse_model URL_hostname_model two_users
            (only_methods ["GET"]);
   filterEntries JSON_parse_model URL_hostname_model kept (only_statusCodes [Num 200]))
  = (kept ← deduplicateEntries JSON_parse_model two_users;
     Ok (List.filter
           (fun entry =>
              holds (filter_callback URL_hostname_model (only_methods ["GET"]) entry)
              && holds (filter_callback URL_hostname_model
                          (only_statusCodes [Num 200]) entry))
           kept)).
Proof.
  apply (filterEntries_twice JSON_parse_model URL_hostname_model).
  - discriminate.
  - repeat constructor; by eexists; vm_compute.
Defined.

Lemma cli_filter_no_deduplicate_ignored_witness :
  some_filter_given (cli_only_methods ["GET"])
  /\ cli_filter JSON_parse_model URL_hostname_model
       (with_deduplicate (cli_only_methods ["GET"]) false) two_users
     = cli_filter JSON_parse_model URL_hostname_model
         (with_deduplicate (cli_only_methods ["GET"]) true) two_users.
Proof.
  assert (some_filter_given (cli_only_methods ["GET"])) as Hgiven.
  { left. by eexists. }
  split; [exact Hgiven|].
  exact (cli_filter_no_deduplicate_ignored JSON_parse_model URL_hostname_model
           _ two_users Hgiven).
Defined.


(** ** The deduplicators *)

Section dedup_invariants.
Variable JSON_parse : string -> exc json.

Lemma areBodiesSimilar_refl body : areBodiesSimilar JSON_parse body body = Ok true.
Proof.
unfold areBodiesSimilar. destruct (falsy body); [done|]. simpl.
destruct (JSON_parse_arg JSON_parse body) as [v|e]; simpl.
- by rewrite areJsonStructuresSimilar_refl.
- unfold strict_eq. by rewrite bool_decide_eq_true_2.
Qed.

Lemma areRequestsSemanticallySimilar_refl sig :
areRequestsSemanticallySimilar JSON_parse sig sig = Ok true.
Proof.
unfold areRequestsSemanticallySimilar, areQueryParamsSimilar, areHeadersSimilar.
cbv zeta. rewrite !same_length_and_agree, areBodiesSimilar_refl.
by rewrite !bool_decide_eq_true_2.
Qed.

Lemma areResponsesSemanticallySimilar_refl entry :
areResponsesSemanticallySimilar JSON_parse entry entry = Ok true.
Proof.
unfold areResponsesSemanticallySimilar, strict_eq.
rewrite !bool_decide_eq_true_2 by done. simpl.
destruct (truthy (hasJson (content (response entry)))); simpl; [|done].
destruct (JSON_parse _) as [v|e]; simpl; [|done].
by rewrite areJsonStructuresSimilar_refl.
Qed.

Lemma similar_pair_refl entry : similar_pair JSON_parse entry entry = true.
Proof.
unfold similar_pair.
by rewrite areRequestsSemanticallySimilar_refl, areResponsesSemanticallySimilar_refl.
Qed.

Lemma kept_after_grows f entries deduplicated :
existsb f deduplicated = true ->
existsb f (kept_after JSON_parse entries deduplicated) = true.
Proof.
intros Hin.
destruct (kept_after_sublist JSON_parse entries deduplicated) as (added & -> & _).
rewrite existsb_app, Hin. done.
Qed.

Lemma kept_after_covers entries deduplicated entry :
entry ∈ entries ->
existsb (similar_pair JSON_parse entry) (kept_after JSON_parse entries deduplicated)
= true.
Proof.
revert deduplicated.
induction entries as [|x rest IH]; intros deduplicated; [by intros ?%elem_of_nil|].
intros [->|Hin]%elem_of_cons; simpl.
- destruct (existsb (similar_pair JSON_parse x) deduplicated) eqn:Hx.
  + by apply kept_after_grows.
  + apply kept_after_grows. rewrite existsb_app. simpl.
    rewrite similar_pair_refl. by rewrite orb_true_r.
- case_match; by apply IH.
Qed.

Lemma pairwise_distinct_NoDup l : pairwise_distinct JSON_parse l -> NoDup l.
Proof.
induction l as [|entry l IH] using rev_ind; [constructor|].
intros Hdistinct. apply NoDup_app. split; [|split].
- apply IH. intros front e back ->. apply (Hdistinct front e (back ++ [entry])).
  by rewrite <-app_assoc.
- intros x Hx ->%list_elem_of_singleton.
  pose proof (Hdistinct l entry [] eq_refl) as Hnone.
  assert (existsb (similar_pair JSON_parse entry) l = true) as Hsome.
  { apply existsb_exists. exists entry. split; [by apply list_elem_of_In|].
    apply similar_pair_refl. }
  congruence.
- apply NoDup_singleton.
Qed.

(** X7. What [deduplicateEntries] keeps covers its input: every entry of the
  input satisfies both predicates against some kept entry. No kept entry
  satisfies them against a kept entry before it, no entry is kept twice,
  and the first entry of the input is the first kept. *)
Theorem deduplicateEntries_covers_input entries :
exists kept,
  deduplicateEntries JSON_parse entries = Ok kept
  /\ (forall entry, entry ∈ entries ->
        existsb (similar_pair JSON_parse entry) kept = true)
  /\ pairwise_distinct JSON_parse kept
  /\ NoDup kept
  /\ head kept = head entries.
Proof.
exists (kept_after JSON_parse entries []).
assert (pairwise_distinct JSON_parse (kept_after JSON_parse entries [])) as Hdistinct.
{ apply kept_after_distinct, pairwise_distinct_nil. }
split; [apply deduplicateEntries_kept|]. split; [|split; [|split]].
- intros entry. apply kept_after_covers.
- exact Hdistinct.
- by apply pairwise_distinct_NoDup.
- destruct entries as [|x rest]; [done|]. simpl.
  by destruct (kept_after_sublist JSON_parse rest [x]) as (added & -> & _).
Qed.

End dedup_invariants.

(** X8. The two predicates of the structural deduplicator are reflexive for
    every behaviour of [JSON.parse], but the pair is not symmetric, so the
    result depends on the order of the capture: a response with a [null]
    member is similar to one with an object in its place and not the other
    way round (the second comparison raises and falls back to the texts),
    and of the two exchanges one or both are kept according to which comes
    first. *)
Theorem similarity_reflexive_not_symmetric :
  (forall JSON_parse entry, similar_pair JSON_parse entry entry = true)
  /\ similar_pair JSON_parse_model user_missing user_present = true
  /\ similar_pair JSON_parse_model user_present user_missing = false
  /\ deduplicateEntries JSON_parse_model [user_missing; user_present]
     = Ok [user_missing; user_present]
  /\ deduplicateEntries JSON_parse_model [user_present; user_missing]
     = Ok [user_present].
Proof.
  split; [exact similar_pair_refl|]. repeat split; by vm_compute.
Qed.


(** ** The exact deduplicator, by signature key *)

Lemma areRequestsEqual_signature_key entry1 entry2 :
  areRequestsEqual (createRequestSignature entry1) (createRequestSignature entry2) = true
  <-> signature_key entry1 = signature_key entry2.
Proof.
  rewrite areRequestsEqual_iff.
  unfold identical_signatures, signature_key, createRequestSignature, convertRequest,
    request_body.
  simpl. split.
  - by intros (-> & -> & -> & -> & ->).
  - by intros [= -> -> -> -> ->].
Qed.

Lemma seen_signature_key entry deduplicated :
  existsb
    (fun kept =>
       areRequestsEqual (createRequestSignature entry) (createRequestSignature kept))
    deduplicated
  = bool_decide (signature_key entry ∈ map signature_key deduplicated).
Proof.
  apply eq_true_iff_eq. rewrite existsb_exists, bool_decide_eq_true. split.
  - intros (k & Hk & Heq). apply areRequestsEqual_signature_key in Heq.
    rewrite Heq. apply list_elem_of_In, in_map. done.
  - intros Hin. apply list_elem_of_In, in_map_iff in Hin as (k & Heq & Hk).
    exists k. split; [done|]. by apply areRequestsEqual_signature_key.
Qed.

Lemma exact_kept_after_keys entries deduplicated :
  NoDup (map signature_key deduplicated) ->
  NoDup (map signature_key (exact_kept_after entries deduplicated)).
Proof.
  revert deduplicated.
  induction entries as [|entry rest IH]; intros deduplicated Hnodup; [done|].
  simpl. rewrite seen_signature_key. case_bool_decide as Hseen; [by apply IH|].
  apply IH. rewrite map_app. simpl. apply NoDup_app. split; [done|].
  split; [|apply NoDup_singleton].
  intros key Hkey ->%list_elem_of_singleton. done.
Qed.

Lemma exact_kept_after_fixed entries deduplicated :
  NoDup (map signature_key (deduplicated ++ entries)) ->
  exact_kept_after entries deduplicated = deduplicated ++ entries.
Proof.
  revert deduplicated.
  induction entries as [|entry rest IH]; intros deduplicated Hnodup; simpl.
  - by rewrite app_nil_r.
  - rewrite seen_signature_key. rewrite bool_decide_eq_false_2.
    + rewrite IH; rewrite <-app_assoc; done.
    + rewrite map_app in Hnodup. simpl in Hnodup.
      apply NoDup_app in Hnodup as (_ & Hdisjoint & _).
      intros Hin. apply (Hdisjoint _ Hin). apply list_elem_of_here.
Qed.

Lemma exact_kept_after_covers entries deduplicated entry :
  entry ∈ entries ->
  signature_key entry ∈ map signature_key (exact_kept_after entries deduplicated).
Proof.
  assert (forall l acc key,
            key ∈ map signature_key acc ->
            key ∈ map signature_key (exact_kept_after l acc)) as Hgrows.
  { intros l acc key Hkey.
    destruct (exact_kept_after_sublist l acc) as (added & -> & _).
    rewrite map_app. apply elem_of_app. by left. }
  revert deduplicated.
  induction entries as [|x rest IH]; intros deduplicated; [by intros ?%elem_of_nil|].
  intros [->|Hin]%elem_of_cons; simpl.
  - rewrite seen_signature_key. case_bool_decide as Hseen.
    + by apply Hgrows.
    + apply Hgrows. rewrite map_app. apply elem_of_app. right. apply list_elem_of_here.
  - case_match; by apply IH.
Qed.

(** X9. [removeExactDuplicates] keeps the first entry of each signature,
    where the signature of an entry is its method, its raw URL, its query
    parameter map, its static header map and its body text: the kept
    entries form a sublist of the input, no two have the same signature,
    every signature of the input is the signature of a kept entry, and a
    second run changes nothing. The response plays no part. *)
Theorem removeExactDuplicates_one_per_signature entries :
  removeExactDuplicates entries `sublist_of` entries
  /\ NoDup (map signature_key (removeExactDuplicates entries))
  /\ (forall entry, entry ∈ entries ->
        signature_key entry ∈ map signature_key (removeExactDuplicates entries))
  /\ removeExactDuplicates (removeExactDuplicates entries) = removeExactDuplicates entries
  /\ (forall entry1 entry2,
        request entry1 = request entry2 ->
        removeExactDuplicates [entry1; entry2] = [entry1]).
Proof.
  rewrite !removeExactDuplicates_kept.
  assert (NoDup (map signature_key (exact_kept_after entries []))) as Hkeys.
  { apply exact_kept_after_keys. constructor. }
  split; [|split; [|split; [|split]]].
  - by destruct (exact_kept_after_sublist entries []) as (added & -> & Hsub).
  - exact Hkeys.
  - intros entry. apply exact_kept_after_covers.
  - by apply (exact_kept_after_fixed _ []).
  - intros entry1 entry2 Hrequest. rewrite removeExactDuplicates_kept. simpl.
    replace (areRequestsEqual _ _) with true; [done|].
    symmetry. apply areRequestsEqual_signature_key.
    unfold signature_key, request_body. by rewrite Hrequest.
Qed.

(** ** Header and query parameter maps *)

Lemma dynamicHeaders_beyond_useless key :
  key ∈ dynamicHeaders -> key ∈ uselessHeaders \/ key = "expires".
Proof.
  unfold dynamicHeaders. rewrite !elem_of_cons, elem_of_nil.
  intros [->|[->|[->|[->|[->|[->|[->|[->|[->|[->|[->|[->|[]]]]]]]]]]]]];
    first [by right | left; by apply (bool_decide_unpack _); vm_compute].
Qed.

Lemma getStaticHeaders_expires hs :
  getStaticHeaders (collect_headers hs) = delete "expires" (collect_headers hs).
Proof.
  apply map_eq. intros key.
  rewrite static_headers_lookup, lookup_delete, collect_headers_lookup.
  unfold isUselessHeader.
  destruct (decide ("expires" = key)) as [<-|Hkey].
  - by vm_compute.
  - case_bool_decide as Hu; [done|]. cbn [orb].
    case_bool_decide as Hd; [|done].
    apply dynamicHeaders_beyond_useless in Hd as [?|?]; done.
Qed.

(** X10. On the headers of a converted request [getStaticHeaders] removes
    [expires] and nothing else: the other eleven dynamic names are useless
    headers, which [convertRequest] has dropped already. So the static
    headers of a request signature are its headers without [expires], and
    an [Expires] header is the only header kept by [convertRequest] that
    [areRequestsEqual] does not compare. *)
Theorem getStaticHeaders_only_expires harRequest :
  getStaticHeaders (llm_headers (convertRequest harRequest))
  = delete "expires" (llm_headers (convertRequest harRequest))
  /\ (forall key,
        key ∈ dynamicHeaders -> key <> "expires" ->
        llm_headers (convertRequest harRequest) !! key = None).
Proof.
  cbn [convertRequest llm_headers]. split; [apply getStaticHeaders_expires|].
  intros key [Huseless|Hexpires]%dynamicHeaders_beyond_useless Hkey; [|done].
  rewrite collect_headers_lookup. unfold isUselessHeader.
  by rewrite bool_decide_eq_true_2.
Qed.


(** ** Later headers and parameters override earlier ones *)

(** X11. The header and query parameter objects of a converted request.
    Under a key the header object holds the value of the last header whose
    lower-cased name is that key, and nothing when the key is a useless
    header, when it is [__proto__], or when no header has that name: names
    are compared without case and a later header overrides an earlier one.
    Every key of the object is in lower case. The query parameter object
    holds under a name the value of the last parameter of exactly that
    name, and nothing under [__proto__]. *)
Theorem convertRequest_last_wins harRequest :
  (forall key,
     llm_headers (convertRequest harRequest) !! key
     = if isUselessHeader key || bool_decide (key = "__proto__") then None
       else value <$> last_under header_key key (headers harRequest))
  /\ (forall key,
        is_Some (llm_headers (convertRequest harRequest) !! key) ->
        toLowerCase key = key)
  /\ (forall key,
        llm_queryParams (convertRequest harRequest) !! key
        = if bool_decide (key = "__proto__") then None
          else value <$> last_under name key (queryString harRequest)).
Proof.
  cbn [convertRequest llm_headers llm_queryParams].
  split; [intros key; apply collect_headers_lookup|]. split.
  - intros key [v Hv]. by apply (collect_headers_keys _ _ _ Hv).
  - intros key. apply collect_queryParams_lookup.
Qed.


(** ** Structural similarity and structure keys *)

Lemma similar_as_stated_key a b :
  similar_as_stated a b -> getStructureKey a = getStructureKey b.
Proof.
  induction 1 as [a b Ha Hb Htype|members1 members2 Hnames _ _| |? ? ? ? _ IH].
  - destruct a, b; done.
  - cbn [getStructureKey]. by rewrite Hnames.
  - done.
  - cbn [getStructureKey]. by rewrite IH.
Qed.

Lemma similar_as_stated_sym a b : similar_as_stated a b -> similar_as_stated b a.
Proof.
  induction 1 as [a b Ha Hb Htype|members1 members2 Hnames _ IH| |? ? ? ? _ IH].
  - by apply similar_primitives.
  - apply similar_objects; [done|]. intros key v2 v1 Hv2 Hv1. by apply (IH key).
  - apply similar_empty_arrays.
  - by apply similar_first_elements.
Qed.

Lemma similar_as_stated_trans a b c :
  similar_as_stated a b -> similar_as_stated b c -> similar_as_stated a c.
Proof.
  intros Hab. revert c.
  induction Hab as [a b Ha Hb Htype|members1 members2 Hnames _ IH| |? ? ? ? _ IH];
    intros c Hbc.
  - inversion Hbc; simplify_eq/=; try done.
    apply similar_primitives; [done..|congruence].
  - inversion Hbc as [| ? members3 Hnames' Hvalues | |]; simplify_eq/=; [done|].
    apply similar_objects; [congruence|].
    intros key v1 v3 Hv1 Hv3.
    assert (is_Some (prop key members2)) as [v2 Hv2].
    { apply prop_is_Some. rewrite <-sort_strings_Permutation, <-Hnames.
      rewrite sort_strings_Permutation. apply prop_is_Some. by exists v1. }
    apply (IH key v1 v2 Hv1 Hv2). by apply (Hvalues key).
  - inversion Hbc; simplify_eq/=; [done|]. apply similar_empty_arrays.
  - inversion Hbc; simplify_eq/=; [done|]. apply similar_first_elements. by apply IH.
Qed.

Lemma members_similar_returns similar members1 members2 keys :
  (forall key v1 v2,
     prop key members1 = Some v1 -> prop key members2 = Some v2 ->
     returns (similar v1 v2)) ->
  returns (members_similar similar members1 members2 keys).
Proof.
  intros Hvalues. induction keys as [|key keys IH]; [by eexists|].
  cbn [members_similar].
  destruct (prop key members1) as [v1|] eqn:H1; [|by eexists].
  destruct (prop key members2) as [v2|] eqn:H2; [|by eexists].
  destruct (Hvalues key v1 v2 H1 H2) as [[|] ->]; [exact IH|by eexists].
Qed.

Lemma areJsonStructuresSimilar_returns a b :
  null_free b -> returns (areJsonStructuresSimilar a b).
Proof.
  revert b.
  induction a as [|x|n|s|items IH|members IH] using json_nested_ind; intros b Hfree;
    try (destruct b; first [by destruct Hfree | by eexists]).
  - destruct b as [| | | |items2|members2];
      try first [by destruct Hfree | by eexists].
    rewrite areJsonStructuresSimilar_arrays.
    destruct items as [|first1 rest1], items2 as [|first2 rest2]; try by eexists.
    apply Forall_cons in IH as [IHfirst _]. apply IHfirst.
    apply null_free_array, Forall_cons in Hfree as [Hfirst _]. done.
  - destruct b as [| | | |items2|members2];
      try first [by destruct Hfree | by eexists].
    rewrite areJsonStructuresSimilar_objects. cbv zeta.
    do 2 (case_match; [by eexists|]).
    apply members_similar_returns. intros key v1 v2 Hv1 Hv2.
    apply prop_Some_elem in Hv1, Hv2.
    rewrite Forall_forall in IH. apply (IH _ Hv1).
    apply null_free_object in Hfree. rewrite Forall_forall in Hfree.
    apply (Hfree _ Hv2).
Qed.

(** X12. Two values that [areJsonStructuresSimilar] finds similar have the
    same structure key, when the first holds no [null]. The key is coarser
    than similarity: two objects whose names are the same up to order have
    the same key whatever their values, so [{a: 1}] and [{a: "x"}] share a
    key without being similar; and since the sorted names are joined by
    commas, an object with the one name [a,b] has the key of an object with
    the names [a] and [b]. *)
Theorem similar_values_share_structure_key :
  (forall a b,
     null_free a -> areJsonStructuresSimilar a b = Ok true ->
     getStructureKey a = getStructureKey b)
  /\ (forall members1 members2,
        member_names members1 ≡ₚ member_names members2 ->
        getStructureKey (JObj members1) = getStructureKey (JObj members2))
  /\ (forall v1 v2,
        type_of v1 <> type_of v2 -> primitive v1 -> primitive v2 ->
        getStructureKey (JObj [("a", v1)]) = getStructureKey (JObj [("a", v2)])
        /\ areJsonStructuresSimilar (JObj [("a", v1)]) (JObj [("a", v2)]) = Ok false)
  /\ (forall v v1 v2,
        getStructureKey (JObj [("a,b", v)]) = getStructureKey (JObj [("a", v1); ("b", v2)])
        /\ areJsonStructuresSimilar (JObj [("a,b", v)]) (JObj [("a", v1); ("b", v2)])
           = Ok false).
Proof.
  split; [|split; [|split]].
  - intros a b Hfree Hsimilar. apply similar_as_stated_key.
    by apply areJsonStructuresSimilar_as_stated.
  - intros members1 members2 Hnames. cbn [getStructureKey].
    by rewrite (sort_strings_unique _ _ Hnames).
  - intros v1 v2 Htypes H1 H2. split; [done|].
    destruct v1, v2; done.
  - intros v v1 v2. split; by vm_compute.
Qed.

(** X13. On values that hold no [null], [areJsonStructuresSimilar] is
    symmetric and transitive (it is reflexive on every value), so it sorts
    such values into classes; and it returns, without raising, whenever its
    second argument holds no [null]. *)
Theorem areJsonStructuresSimilar_equivalence :
  (forall a, areJsonStructuresSimilar a a = Ok true)
  /\ (forall a b,
        null_free a -> null_free b ->
        areJsonStructuresSimilar a b = Ok true -> areJsonStructuresSimilar b a = Ok true)
  /\ (forall a b c,
        null_free a -> null_free b ->
        areJsonStructuresSimilar a b = Ok true -> areJsonStructuresSimilar b c = Ok true ->
        areJsonStructuresSimilar a c = Ok true)
  /\ (forall a b, null_free b -> returns (areJsonStructuresSimilar a b)).
Proof.
  split; [exact areJsonStructuresSimilar_refl|]. split; [|split].
  - intros a b Ha Hb Hab. apply areJsonStructuresSimilar_as_stated; [done|].
    apply similar_as_stated_sym. by apply areJsonStructuresSimilar_as_stated.
  - intros a b c Ha Hb Hab Hbc. apply areJsonStructuresSimilar_as_stated; [done|].
    apply similar_as_stated_trans with b; by apply areJsonStructuresSimilar_as_stated.
  - exact areJsonStructuresSimilar_returns.
Qed.


(** ** [normalizeJsonStructure] *)

Lemma distinct_names_array items :
  distinct_names (JArr items) <-> Forall distinct_names items.
Proof.
  induction items as [|x items IH]; [by split; [constructor|]|].
  rewrite Forall_cons. cbn in *. by rewrite IH.
Qed.

Lemma distinct_names_object members :
  distinct_names (JObj members)
  <-> NoDup (member_names members) /\ Forall (fun kv => distinct_names kv.2) members.
Proof.
  cbn [distinct_names]. apply and_iff_compat_l.
  induction members as [|[k x] members IH]; [by split; [constructor|]|].
  rewrite Forall_cons. cbn in *. by rewrite IH.
Qed.

Lemma arrays_distinct_array items :
  arrays_distinct (JArr items)
  <-> NoDup (map getStructureKey items) /\ Forall arrays_distinct items.
Proof.
  cbn [arrays_distinct]. apply and_iff_compat_l.
  induction items as [|x items IH]; [by split; [constructor|]|].
  rewrite Forall_cons. cbn in *. by rewrite IH.
Qed.

Lemma arrays_distinct_object members :
  arrays_distinct (JObj members) <-> Forall (fun kv => arrays_distinct kv.2) members.
Proof.
  induction members as [|[k x] members IH]; [by split; [constructor|]|].
  rewrite Forall_cons. cbn in *. by rewrite IH.
Qed.

Lemma member_names_normalized members :
  member_names (normalized_members members)
  = filter (fun key => key <> "__proto__") (member_names members).
Proof.
  unfold member_names, normalized_members. rewrite map_map. cbn [fst].
  induction members as [|[k v] members IH]; [done|]. cbn [map fst].
  destruct (decide (k = "__proto__")) as [Hk|Hk].
  - rewrite !filter_cons_False by (by intros ?). apply IH.
  - rewrite !filter_cons_True by done. cbn [map fst]. by rewrite IH.
Qed.

Lemma member_names_normalized_storable members :
  "__proto__" ∉ member_names members ->
  member_names (normalized_members members) = member_names members.
Proof. intros Hproto. by rewrite member_names_normalized, filter_no_proto. Qed.

Lemma normalized_members_proto members :
  "__proto__" ∉ member_names (normalized_members members).
Proof.
  rewrite member_names_normalized. intros [Hproto _]%list_elem_of_filter. by apply Hproto.
Qed.

Lemma prop_normalized key members :
  "__proto__" ∉ member_names members ->
  prop key (normalized_members members) = normalizeJsonStructure <$> prop key members.
Proof.
  intros Hproto. rewrite normalized_members_storable by done. clear Hproto.
  induction members as [|[k v] members IH]; [done|].
  cbn. case_bool_decide; [done|]. apply IH.
Qed.

Lemma unique_structures_keys seen normalized :
  NoDup (map getStructureKey (unique_structures seen normalized))
  /\ Forall (fun x => getStructureKey x ∉ seen) (unique_structures seen normalized).
Proof.
  revert seen.
  induction normalized as [|x normalized IH]; intros seen.
  - split; constructor.
  - cbn [unique_structures]. case_bool_decide as Hseen; [apply IH|].
    destruct (IH ({[getStructureKey x]} ∪ seen)) as [Hnodup Hfresh].
    split.
    + cbn [map]. apply NoDup_cons. split; [|done].
      intros Hin. apply list_elem_of_In, in_map_iff in Hin as (y & Hy & Hin).
      rewrite Forall_forall in Hfresh. apply list_elem_of_In in Hin.
      apply (Hfresh y Hin). rewrite Hy. apply elem_of_union. left.
      by apply elem_of_singleton.
    + apply Forall_cons. split; [done|].
      eapply Forall_impl; [exact Hfresh|].
      intros y Hy Hin. apply Hy. apply elem_of_union. by right.
Qed.

Lemma unique_structures_fixed seen normalized :
  unique_structures seen (unique_structures seen normalized)
  = unique_structures seen normalized.
Proof.
  revert seen.
  induction normalized as [|x normalized IH]; intros seen; [done|].
  cbn [unique_structures]. case_bool_decide as Hseen; [apply IH|].
  cbn [unique_structures]. rewrite bool_decide_eq_false_2 by done.
  by rewrite IH.
Qed.

Lemma unique_structures_same_key seen first rest :
  Forall (fun x => getStructureKey x = getStructureKey first) rest ->
  unique_structures ({[getStructureKey first]} ∪ seen) rest = [].
Proof.
  induction 1 as [|x rest Hx _ IH]; [done|].
  cbn [unique_structures]. rewrite bool_decide_eq_true_2; [done|].
  apply elem_of_union. left. by apply elem_of_singleton.
Qed.

Lemma normalizeJsonStructure_invariants v :
  distinct_names v ->
  distinct_names (normalizeJsonStructure v)
  /\ arrays_distinct (normalizeJsonStructure v)
  /\ proto_free (normalizeJsonStructure v)
  /\ normalizeJsonStructure (normalizeJsonStructure v) = normalizeJsonStructure v.
Proof.
  induction v as [|x|n|s|items IH|members IH] using json_nested_ind; try done.
  - intros Hnames%distinct_names_array.
    rewrite normalizeJsonStructure_array.
    set (normalized := map normalizeJsonStructure items).
    assert (Forall (fun x => distinct_names x /\ arrays_distinct x /\ proto_free x
                             /\ normalizeJsonStructure x = x) normalized) as Hall.
    { subst normalized. apply Forall_map.
      rewrite Forall_forall in IH, Hnames. apply Forall_forall.
      intros x Hx. cbn. apply (IH x Hx), (Hnames x Hx). }
    assert (Forall (fun x => distinct_names x /\ arrays_distinct x /\ proto_free x
                             /\ normalizeJsonStructure x = x)
              (unique_structures ∅ normalized)) as Hkept.
    { eapply Forall_on_sublist; [apply unique_structures_sublist|exact Hall]. }
    split; [|split; [|split]].
    + apply distinct_names_array. eapply Forall_impl; [exact Hkept|]. by intros x (? & _).
    + apply arrays_distinct_array. split; [apply unique_structures_keys|].
      eapply Forall_impl; [exact Hkept|]. by intros x (_ & ? & _).
    + apply proto_free_array. eapply Forall_impl; [exact Hkept|].
      by intros x (_ & _ & ? & _).
    + rewrite normalizeJsonStructure_array. f_equal.
      replace (map normalizeJsonStructure (unique_structures ∅ normalized))
        with (unique_structures ∅ normalized).
      * apply unique_structures_fixed.
      * symmetry. rewrite <-(map_id (unique_structures ∅ normalized)) at 2.
        apply map_ext_Forall. eapply Forall_impl; [exact Hkept|].
        by intros x (_ & _ & _ & ?).
  - intros [Hnodup Hnames]%distinct_names_object.
    rewrite normalizeJsonStructure_object by done.
    assert (Forall (fun kv => distinct_names kv.2 /\ arrays_distinct kv.2
                              /\ proto_free kv.2
                              /\ normalizeJsonStructure kv.2 = kv.2)
              (normalized_members members)) as Hall.
    { unfold normalized_members. apply Forall_map. apply Forall_forall.
      intros kv [_ Hkv]%list_elem_of_filter. cbn [snd].
      rewrite Forall_forall in IH, Hnames. apply (IH kv Hkv), (Hnames kv Hkv). }
    assert (NoDup (member_names (normalized_members members))) as Hnodup'.
    { rewrite member_names_normalized. by apply NoDup_filter. }
    pose proof (normalized_members_proto members) as Hproto.
    split; [|split; [|split]].
    + apply distinct_names_object. split; [done|].
      eapply Forall_impl; [exact Hall|]. by intros kv (? & _).
    + apply arrays_distinct_object.
      eapply Forall_impl; [exact Hall|]. by intros kv (_ & ? & _).
    + apply proto_free_object. split; [done|].
      eapply Forall_impl; [exact Hall|]. by intros kv (_ & _ & ? & _).
    + rewrite normalizeJsonStructure_object by done. f_equal.
      rewrite normalized_members_storable by done.
      rewrite <-(map_id (normalized_members members)) at 2.
      apply map_ext_Forall. eapply Forall_impl; [exact Hall|].
      intros [k v] (_ & _ & _ & Hkv). cbn in *. by rewrite Hkv.
Qed.

(** X14. On a value whose objects have no repeated member name (every value
    [JSON.parse] returns is such), the result of [normalizeJsonStructure]
    has, in every array at any depth, elements of pairwise different
    structure keys; its own objects have no repeated name and no member
    named [__proto__]; and a second normalisation leaves it unchanged. When
    the value itself has no member named [__proto__], the result has the
    structure key of the value. *)
Theorem normalizeJsonStructure_idempotent v :
  distinct_names v ->
  arrays_distinct (normalizeJsonStructure v)
  /\ distinct_names (normalizeJsonStructure v)
  /\ proto_free (normalizeJsonStructure v)
  /\ normalizeJsonStructure (normalizeJsonStructure v) = normalizeJsonStructure v
  /\ (proto_free v -> getStructureKey (normalizeJsonStructure v) = getStructureKey v).
Proof.
  intros Hnames.
  destruct (normalizeJsonStructure_invariants v Hnames) as (? & ? & ? & ?).
  split; [done|]. split; [done|]. split; [done|]. split; [done|].
  by apply getStructureKey_normalized.
Qed.

Lemma normalizeJsonStructure_idempotent_witness :
  distinct_names tagged_items
  /\ normalizeJsonStructure tagged_items
     = JArr [JObj [("id", JNum 1); ("tags", JArr [JStr "a"])]; JNum 3]
  /\ normalizeJsonStructure (normalizeJsonStructure tagged_items)
     = normalizeJsonStructure tagged_items.
Proof.
  assert (distinct_names tagged_items) as Hnames.
  { cbn. repeat split; apply (bool_decide_unpack _); by vm_compute. }
  split; [exact Hnames|]. split; [by vm_compute|].
  apply (normalizeJsonStructure_idempotent tagged_items Hnames).
Defined.

Lemma areJsonStructuresSimilar_primitive a b :
  primitive a ->
  areJsonStructuresSimilar a b
  = Ok (bool_decide (typeof a = typeof b) && bool_decide (isArray a = isArray b)).
Proof.
  intros Ha. destruct a; try done; cbn [areJsonStructuresSimilar];
    by do 2 (case_bool_decide; [|done]).
Qed.

Lemma typeof_normalized v : typeof (normalizeJsonStructure v) = typeof v.
Proof. by destruct v as [| | | |[|? ?]|?]. Qed.

Lemma isArray_normalized v : isArray (normalizeJsonStructure v) = isArray v.
Proof. by destruct v as [| | | |[|? ?]|?]. Qed.

Lemma members_similar_ext similar1 similar2 members1 members2 members1' members2' keys :
  (forall key,
     match prop key members1, prop key members2 with
     | Some v1, Some v2 => similar1 v1 v2
     | _, _ => Ok false
     end
     = match prop key members1', prop key members2' with
       | Some v1, Some v2 => similar2 v1 v2
       | _, _ => Ok false
       end) ->
  members_similar similar1 members1 members2 keys
  = members_similar similar2 members1' members2' keys.
Proof.
  intros Hext. induction keys as [|key keys IH]; [done|].
  cbn [members_similar]. by rewrite Hext, IH.
Qed.

(** X15. Normalising two parsed values before comparing them changes
    nothing: [areJsonStructuresSimilar] gives on the two normalised values
    what it gives on the values themselves, verdict or exception, for
    values whose objects have no repeated member name and no member named
    [__proto__]. So on such bodies the response comparison of the
    deduplicator decides as if it compared the parsed bodies directly. *)
Theorem areJsonStructuresSimilar_ignores_normalization a b :
  distinct_names a -> distinct_names b -> proto_free a -> proto_free b ->
  areJsonStructuresSimilar (normalizeJsonStructure a) (normalizeJsonStructure b)
  = areJsonStructuresSimilar a b.
Proof.
  revert b.
  induction a as [|x|n|s|items IH|members IH] using json_nested_ind;
    intros b Ha Hb Hpa Hpb;
    try (cbn [normalizeJsonStructure];
         rewrite !areJsonStructuresSimilar_primitive by done;
         by rewrite typeof_normalized, isArray_normalized).
  - rewrite (normalizeJsonStructure_array items).
    destruct b as [| | | |items2|members2]; try done.
    rewrite normalizeJsonStructure_array, !areJsonStructuresSimilar_arrays.
    destruct items as [|first1 rest1], items2 as [|first2 rest2]; try done.
    cbn [map unique_structures].
    rewrite !bool_decide_eq_false_2 by set_solver.
    apply Forall_cons in IH as [IHfirst _]. apply IHfirst.
    + by apply distinct_names_array, Forall_cons in Ha as [? _].
    + by apply distinct_names_array, Forall_cons in Hb as [? _].
    + by apply proto_free_array, Forall_cons in Hpa as [? _].
    + by apply proto_free_array, Forall_cons in Hpb as [? _].
  - apply distinct_names_object in Ha as [Hnodup1 Hnames1].
    apply proto_free_object in Hpa as [Hproto1 Hfree1].
    destruct b as [| | | |items2|members2]; try done.
    + by destruct items2.
    + apply distinct_names_object in Hb as [Hnodup2 Hnames2].
      apply proto_free_object in Hpb as [Hproto2 Hfree2].
      rewrite !normalizeJsonStructure_object by done.
      rewrite !areJsonStructuresSimilar_objects. cbv zeta.
      rewrite !member_names_normalized_storable by done.
      do 2 (case_match; [done|]).
      apply members_similar_ext. intros key. rewrite !prop_normalized by done.
      destruct (prop key members) as [v1|] eqn:H1; [|done].
      destruct (prop key members2) as [v2|] eqn:H2; [|done].
      cbn. apply prop_Some_elem in H1, H2.
      rewrite Forall_forall in IH, Hnames1, Hnames2, Hfree1, Hfree2.
      apply (IH _ H1);
        [apply (Hnames1 _ H1)|apply (Hnames2 _ H2)|apply (Hfree1 _ H1)|apply (Hfree2 _ H2)].
Qed.

Lemma areJsonStructuresSimilar_ignores_normalization_witness :
  distinct_names tagged_items
  /\ distinct_names (JArr [JObj [("tags", JNull); ("id", JStr "x")]])
  /\ proto_free tagged_items
  /\ proto_free (JArr [JObj [("tags", JNull); ("id", JStr "x")]])
  /\ areJsonStructuresSimilar
       (normalizeJsonStructure tagged_items)
       (normalizeJsonStructure (JArr [JObj [("tags", JNull); ("id", JStr "x")]]))
     = areJsonStructuresSimilar
         tagged_items (JArr [JObj [("tags", JNull); ("id", JStr "x")]]).
Proof.
  assert (distinct_names tagged_items) as Hnames1.
  { cbn. repeat split; apply (bool_decide_unpack _); by vm_compute. }
  assert (distinct_names (JArr [JObj [("tags", JNull); ("id", JStr "x")]])) as Hnames2.
  { cbn. repeat split; apply (bool_decide_unpack _); by vm_compute. }
  assert (proto_free tagged_items) as Hproto1.
  { cbn. repeat split; apply (bool_decide_unpack _); by vm_compute. }
  assert (proto_free (JArr [JObj [("tags", JNull); ("id", JStr "x")]])) as Hproto2.
  { cbn. repeat split; apply (bool_decide_unpack _); by vm_compute. }
  split; [exact Hnames1|]. split; [exact Hnames2|].
  split; [exact Hproto1|]. split; [exact Hproto2|].
  apply (areJsonStructuresSimilar_ignores_normalization _ _ Hnames1 Hnames2 Hproto1 Hproto2).
Defined.

(** X16. An array whose elements all have the structure key of its first
    element is normalised to the one-element array of its normalised first
    element, when no object in it has a repeated member name or a member
    named [__proto__]; in particular an array of such objects that all have
    the names of the first, in any order and with values of any kind, keeps
    its first object alone. *)
Theorem normalizeJsonStructure_collapses first rest :
  distinct_names (JArr (first :: rest)) ->
  proto_free (JArr (first :: rest)) ->
  Forall (fun x => getStructureKey x = getStructureKey first) rest ->
  normalizeJsonStructure (JArr (first :: rest)) = JArr [normalizeJsonStructure first].
Proof.
  intros Hnames%distinct_names_array Hproto%proto_free_array Hkeys.
  rewrite normalizeJsonStructure_array. cbn [map unique_structures].
  rewrite bool_decide_eq_false_2 by set_solver. do 2 f_equal.
  apply unique_structures_same_key.
  apply Forall_map. apply Forall_cons in Hnames as [Hfirst Hrest].
  apply Forall_cons in Hproto as [Hpfirst Hprest].
  rewrite Forall_forall in Hkeys, Hrest, Hprest. apply Forall_forall. intros x Hx. cbn.
  rewrite !getStructureKey_normalized;
    [by apply Hkeys|done|done|by apply Hrest|by apply Hprest].
Qed.

Lemma normalizeJsonStructure_collapses_witness :
  distinct_names
    (JArr [JObj [("id", JNum 1); ("name", JStr "x")];
           JObj [("name", JNull); ("id", JArr [])]])
  /\ proto_free
       (JArr [JObj [("id", JNum 1); ("name", JStr "x")];
              JObj [("name", JNull); ("id", JArr [])]])
  /\ normalizeJsonStructure
       (JArr [JObj [("id", JNum 1); ("name", JStr "x")];
              JObj [("name", JNull); ("id", JArr [])]])
     = JArr [normalizeJsonStructure (JObj [("id", JNum 1); ("name", JStr "x")])].
Proof.
  assert (distinct_names
            (JArr [JObj [("id", JNum 1); ("name", JStr "x")];
                   JObj [("name", JNull); ("id", JArr [])]])) as Hnames.
  { cbn. repeat split; apply (bool_decide_unpack _); by vm_compute. }
  assert (proto_free
            (JArr [JObj [("id", JNum 1); ("name", JStr "x")];
                   JObj [("name", JNull); ("id", JArr [])]])) as Hproto.
  { cbn. repeat split; apply (bool_decide_unpack _); by vm_compute. }
  split; [exact Hnames|]. split; [exact Hproto|].
  apply (normalizeJsonStructure_collapses _ _ Hnames Hproto).
  repeat constructor.
Defined.


(** ** [normalizeUrl] applied twice *)

Lemma placeholder_for_keeps_or_replaces : keeps_or_replaces placeholder_for.
Proof.
  intros seg. unfold placeholder_for, placeholders.
  repeat case_match; rewrite ?elem_of_cons; auto 10.
Qed.

Lemma placeholder_for_plain seg : id_like seg = false -> placeholder_for seg = seg.
Proof.
  unfold id_like, placeholder_for. intros Hplain.
  apply orb_false_iff in Hplain as [Hplain ->].
  apply orb_false_iff in Hplain as [Hplain ->].
  apply orb_false_iff in Hplain as [-> ->]. done.
Qed.

Lemma placeholder_for_id_like seg :
  id_like seg = true -> placeholder_for seg ∈ placeholders.
Proof.
  unfold id_like, placeholder_for, placeholders. intros Hid.
  repeat case_match; rewrite ?elem_of_cons; auto 10.
  subst. done.
Qed.

Lemma placeholder_for_idemp seg :
  placeholder_for (placeholder_for seg) = placeholder_for seg.
Proof.
  destruct (id_like seg) eqn:Hid.
  - apply placeholder_for_plain.
    by apply placeholder_for_id_like, placeholders_plain in Hid as [_ ?].
  - rewrite (placeholder_for_plain seg Hid). by apply placeholder_for_plain.
Qed.

Lemma normalizeUrl_segments_twice first rest :
  slash_free first = true ->
  Forall (fun seg => slash_free seg = true) rest ->
  no_adjacent id_like rest = true ->
  normalizeUrl (normalizeUrl (first ++ glue rest)) = normalizeUrl (first ++ glue rest).
Proof.
  intros Hfirst Hrest Hadj.
  rewrite (normalizeUrl_segments first rest) by done.
  rewrite normalizeUrl_segments.
  - rewrite map_map. do 2 f_equal. apply map_ext. intros seg. apply placeholder_for_idemp.
  - done.
  - apply slash_free_map; [apply placeholder_for_keeps_or_replaces|done].
  - apply no_adjacent_map; [apply placeholder_for_keeps_or_replaces|done..].
Qed.

(** X17. [normalizeUrl] reaches its result in one pass on a URL in which no
    two neighbouring segments behind the first are both identifier-like: a
    second call changes nothing. A URL none of whose segments behind the
    first is identifier-like comes back unchanged. Where two identifier-like
    segments are neighbours, one pass is not enough: [/1/2] becomes
    [/{id}/2], and that becomes [/{id}/{id}]. *)
Theorem normalizeUrl_idempotent :
  (forall url,
     no_adjacent id_like (tail (split_slash url)) = true ->
     normalizeUrl (normalizeUrl url) = normalizeUrl url)
  /\ (forall url,
        Forall (fun seg => id_like seg = false) (tail (split_slash url)) ->
        normalizeUrl url = url)
  /\ normalizeUrl "/1/2" = "/{id}/2"
  /\ normalizeUrl "/{id}/2" = "/{id}/{id}".
Proof.
  split; [|split; [|by vm_compute]].
  - intros url Hadj.
    pose proof (join_split_slash url) as Hjoin.
    pose proof (split_slash_slash_free url) as Hfree.
    pose proof (split_slash_nonempty url).
    destruct (split_slash url) as [|first rest]; [done|].
    apply Forall_cons in Hfree as [Hfirst Hrest]. cbn [hd tail] in *.
    rewrite join_slash in Hjoin. rewrite <-Hjoin.
    by apply normalizeUrl_segments_twice.
  - intros url Hplain.
    assert (no_adjacent id_like (tail (split_slash url)) = true) as Hadj.
    { induction Hplain as [|a rest Ha Hrest IH]; [done|].
      destruct rest as [|b rest]; [done|].
      cbn [no_adjacent] in *. by rewrite Ha, IH. }
    rewrite normalizeUrl_split by done.
    rewrite <-(join_split_slash url) at 3.
    pose proof (split_slash_nonempty url).
    destruct (split_slash url) as [|first rest]; [done|]. cbn [hd tail] in *.
    do 2 f_equal. rewrite <-(map_id rest) at 2.
    apply map_ext_Forall. eapply Forall_impl; [exact Hplain|].
    intros seg Hseg. by apply placeholder_for_plain.
Qed.

Lemma normalizeUrl_idempotent_witness :
  no_adjacent id_like
    (tail (split_slash "https://api.example.com/users/12345/orders/")) = true
  /\ normalizeUrl "https://api.example.com/users/{id}/orders/"
     = "https://api.example.com/users/{id}/orders/".
Proof.
  split; [by vm_compute|].
  pose proof (proj1 normalizeUrl_idempotent
                "https://api.example.com/users/12345/orders/") as Htwice.
  rewrite normalizeUrl_split in Htwice by (by vm_compute).
  apply Htwice. by vm_compute.
Defined.


(** ** The counts of a summary add up *)

Lemma total_count_insert key n counts :
  total_count (<[key := CountNumber n]> counts)
  = (match counts !! key with
     | Some (CountNumber m) => total_count counts - m
     | _ => total_count counts
     end + n)%nat
  /\ (forall m, counts !! key = Some (CountNumber m) -> (m <= total_count counts)%nat).
Proof.
  unfold total_count.
  assert (forall (z1 z2 : count) (y : nat),
            match z1 with
            | CountNumber n => (n + match z2 with
                                    | CountNumber n' => n' + y
                                    | CountText _ => y
                                    end)%nat
            | CountText _ => match z2 with
                             | CountNumber n' => (n' + y)%nat
                             | CountText _ => y
                             end
            end
            = match z2 with
              | CountNumber n => (n + match z1 with
                                      | CountNumber n' => n' + y
                                      | CountText _ => y
                                      end)%nat
              | CountText _ => match z1 with
                               | CountNumber n' => (n' + y)%nat
                               | CountText _ => y
                               end
              end) as Hcomm.
  { intros [n1|t1] [n2|t2] y; lia. }
  destruct (counts !! key) as [c|] eqn:Hkey.
  - rewrite (map_fold_delete_L _ _ key c counts); [|intros; apply Hcomm|done].
    rewrite <-insert_delete_eq.
    rewrite map_fold_insert_L; [|intros; apply Hcomm|apply lookup_delete_eq].
    destruct c as [m|t]; split; try lia; intros m' [= <-]; lia.
  - rewrite map_fold_insert_L; [|intros; apply Hcomm|done]. split; [lia|done].
Qed.

Lemma count_one_total key counts :
  plain_key key = true ->
  (forall k text, counts !! k <> Some (CountText text)) ->
  total_count (count_one key counts) = S (total_count counts)
  /\ (forall k text, count_one key counts !! k <> Some (CountText text)).
Proof.
  intros Hplain Hnumbers. destruct (plain_key_spec _ Hplain) as [Hinherited Hproto].
  unfold count_one, assign. rewrite bool_decide_eq_false_2 by done.
  unfold incremented. rewrite Hinherited.
  destruct (counts !! key) as [[m|text]|] eqn:Hkey.
  - destruct (total_count_insert key (m + 1) counts) as [-> Hle].
    rewrite Hkey. specialize (Hle m Hkey). split; [lia|].
    intros k text. rewrite lookup_insert. case_decide; [done|apply Hnumbers].
  - by destruct (Hnumbers key text).
  - destruct (total_count_insert key 1 counts) as [-> _].
    rewrite Hkey. split; [lia|].
    intros k text. rewrite lookup_insert. case_decide; [done|apply Hnumbers].
Qed.

Lemma tally_by_total key_of entries :
  Forall (fun entry => plain_key (key_of entry) = true) entries ->
  total_count (tally_by key_of entries ∅) = length entries
  /\ (forall k text, tally_by key_of entries ∅ !! k <> Some (CountText text)).
Proof.
  induction entries as [|entry entries IH] using rev_ind; intros Hplain.
  { split; [done|]. intros k text. unfold tally_by. cbn [fold_left].
    by rewrite lookup_empty. }
  apply Forall_app in Hplain as [Hentries [Hentry _]%Forall_cons].
  destruct (IH Hentries) as [Htotal Hnumbers].
  rewrite tally_by_snoc.
  destruct (count_one_total _ _ Hentry Hnumbers) as [-> Hnumbers'].
  split; [|done]. rewrite Htotal, length_app. cbn [length]. lia.
Qed.

(** X18. In a summary every request is counted once in each of the three
    count objects: on a capture whose request URLs all parse and none of
    whose methods and hostnames is the name of a member of
    [Object.prototype], every count is a number, and the counts under all
    methods, the counts under all status codes and the counts under all
    hostnames each add up to [totalRequests]. *)
Theorem generateSummary_counts_add_up (URL_hostname : string -> exc string) entries :
  Forall (fun entry => returns (URL_hostname (url (request entry)))) entries ->
  Forall (fun entry => plain_keys URL_hostname entry = true) entries ->
  exists summary,
    generateSummary URL_hostname entries = Ok summary
    /\ total_count (methods summary) = totalRequests summary
    /\ total_count (statusCodes summary) = totalRequests summary
    /\ total_count (domains summary) = totalRequests summary
    /\ (forall key text,
          methods summary !! key <> Some (CountText text)
          /\ statusCodes summary !! key <> Some (CountText text)
          /\ domains summary !! key <> Some (CountText text)).
Proof.
  intros Hall Hplain.
  rewrite (generateSummary_ok URL_hostname entries Hall).
  eexists. split; [reflexivity|].
  cbn [totalRequests methods statusCodes domains].
  destruct (tally_by_total (fun entry => method (request entry)) entries) as [Hm Hmn].
  { eapply Forall_impl; [exact Hplain|]. intros entry.
    unfold plain_keys. by intros [? _]%andb_true_iff. }
  destruct (tally_by_total (fun entry => pretty (status (response entry))) entries)
    as [Hs Hsn].
  { apply Forall_forall. intros entry _. apply pretty_Z_plain. }
  destruct (tally_by_total (hostname_of URL_hostname) entries) as [Hd Hdn].
  { eapply Forall_impl; [exact Hplain|]. intros entry.
    unfold plain_keys. by intros [_ ?]%andb_true_iff. }
  repeat split; done.
Qed.

Lemma generateSummary_counts_add_up_witness :
  Forall (fun entry => returns (URL_hostname_model (url (request entry)))) two_users
  /\ Forall (fun entry => plain_keys URL_hostname_model entry = true) two_users
  /\ exists summary,
       generateSummary URL_hostname_model two_users = Ok summary
       /\ total_count (methods summary) = 2%nat.
Proof.
  assert (Forall (fun entry => returns (URL_hostname_model (url (request entry))))
            two_users) as Hall.
  { repeat constructor; eexists; by vm_compute. }
  assert (Forall (fun entry => plain_keys URL_hostname_model entry = true) two_users)
    as Hplain.
  { repeat constructor; by vm_compute. }
  split; [exact Hall|]. split; [exact Hplain|].
  destruct (generateSummary_counts_add_up URL_hostname_model two_users Hall Hplain)
    as (summary & Hsummary & Hmethods & _).
  exists summary. split; [done|].
  rewrite Hmethods. unfold generateSummary in Hsummary.
  destruct (tally_entries _ _ _); [|done]. by injection Hsummary as <-.
Defined.


(** ** Exact duplicates under the structural request comparison *)

Lemma has_expires_lookup entry :
  has_expires entry = true
  <-> "expires" ∈ dom (collect_headers (headers (request entry))).
Proof.
  unfold has_expires. rewrite bool_decide_eq_true, dom_collect_headers.
  rewrite elem_of_list_to_set, list_elem_of_filter. unfold header_key.
  split; [|by intros [_ ?]]. intros Hin. split; [by vm_compute|done].
Qed.

Lemma dom_agree_up_to_expires (headers1 headers2 : gmap string string) :
  delete "expires" headers1 = delete "expires" headers2 ->
  dom headers1 = dom headers2
  <-> ("expires" ∈ dom headers1 <-> "expires" ∈ dom headers2).
Proof.
  intros Hstatic. split; [by intros ->|]. intros Hexpires.
  apply set_eq. intros key.
  destruct (decide (key = "expires")) as [->|Hkey]; [done|].
  rewrite !elem_of_dom.
  rewrite <-(lookup_delete_ne headers1 "expires" key) by done.
  rewrite <-(lookup_delete_ne headers2 "expires" key) by done.
  by rewrite Hstatic.
Qed.

(** X19. Two requests that [areRequestsEqual] finds equal are similar for
    [areRequestsSemanticallySimilar] exactly when both or neither carry an
    [Expires] header: the exact comparison drops that header, the
    structural one compares the names of all headers kept by
    [convertRequest]. *)
Theorem exact_duplicates_similar_up_to_expires
    (JSON_parse : string -> exc json) entry1 entry2 :
  areRequestsEqual (createRequestSignature entry1) (createRequestSignature entry2) = true ->
  areRequestsSemanticallySimilar JSON_parse
    (createSemanticSignature entry1) (createSemanticSignature entry2)
  = Ok (bool_decide (has_expires entry1 = has_expires entry2)).
Proof.
  intros (Hmethod & Hurl & Hquery & Hstatic & Hbody)%areRequestsEqual_iff.
  unfold createRequestSignature, createSemanticSignature in *.
  cbn [sig_method sig_url sig_queryParams sig_headers sig_body convertRequest
       llm_method llm_url llm_queryParams llm_headers llm_body] in *.
  unfold areRequestsSemanticallySimilar.
  cbn [sig_method sig_url sig_queryParams sig_headers sig_body]. cbv zeta.
  rewrite Hmethod, Hurl, Hquery, Hbody.
  rewrite !bool_decide_eq_true_2 by done. cbn [negb].
  rewrite (proj2 (areQueryParamsSimilar_dom _ _) eq_refl). cbn [negb].
  rewrite areBodiesSimilar_refl. cbn [mbind exc_bind negb].
  rewrite !getStaticHeaders_expires in Hstatic.
  pose proof (dom_agree_up_to_expires _ _ Hstatic) as Hdom.
  rewrite <-areHeadersSimilar_dom, <-!has_expires_lookup in Hdom.
  destruct (areHeadersSimilar _ _); cbn [negb]; f_equal; symmetry.
  - apply bool_decide_eq_true.
    destruct (has_expires entry1), (has_expires entry2); intuition congruence.
  - apply bool_decide_eq_false.
    destruct (has_expires entry1), (has_expires entry2); intuition congruence.
Qed.

Lemma exact_duplicates_similar_up_to_expires_witness :
  areRequestsEqual
    (createRequestSignature (user_exchange "1" "x"))
    (createRequestSignature
       (stamped (request (user_exchange "1" "x")) (response (user_exchange "1" "x"))
          "Mon" "v2")) = true
  /\ areRequestsSemanticallySimilar JSON_parse_model
       (createSemanticSignature (user_exchange "1" "x"))
       (createSemanticSignature
          (stamped (request (user_exchange "1" "x")) (response (user_exchange "1" "x"))
             "Mon" "v2"))
     = Ok true.
Proof.
  split; [by vm_compute|].
  rewrite (exact_duplicates_similar_up_to_expires JSON_parse_model); by vm_compute.
Defined.
